(** * Processing session orchestrator of [ProcessarHomologacaoComponent]

    A shallow embedding of
    [src/angular/src/app/modules/processar-homologacao/processar-homologacao.component.ts]:
    the transient log ([addLog]), its mirroring into the persisted
    configuration ([addPersistentLog]), configuration loading and repair
    ([loadConfiguration], [repairConfiguration], [performAutomaticRepair]),
    the four submit operations and the polling timer
    ([startProgressMonitoring], [stopProgressMonitoring]).

    The component is asynchronous code on one event loop.  Every method is
    cut at its [await invoke(...)] points: the code that runs synchronously
    up to the next [await] is a function on the [World]; the code after an
    [await] is a [Frame] kept with the in-flight backend call and resumed
    when the environment settles that call.  The environment (backend
    answers, timer firings, calls from the template) is a list of [Event]s,
    and [step] is total: one event runs one synchronous stretch of the
    component to its end.

    Beside it stand the components around the orchestrator: the PDF list
    it loads ([loadPdfFilesList]), [RelacaoPdfComponent] with its sorting
    and its selection set, [SelecionarPastaComponent], the
    [NavigationService] as [SidebarComponent] drives it, and
    [DadosEmpresasComponent] with its own backend calls. *)

From Stdlib Require Import Bool Arith List String Ascii Lia PeanoNat NArith.
From Stdlib Require Decimal DecimalString.
From Stdlib Require Import ZArith Permutation Sorted.
Import ListNotations.
Local Open Scope string_scope.
Local Open Scope list_scope.
Local Open Scope nat_scope.

(** ** JavaScript strings and arrays *)

Module Js.

(** [hay.includes(needle)]. *)
Fixpoint includes (needle hay : string) : bool :=
  if String.prefix needle hay then true
  else match hay with
       | EmptyString => false
       | String _ rest => includes needle rest
       end.

(** Truthiness of a string: only the empty string is falsy. *)
Definition truthy (s : string) : bool :=
  match s with EmptyString => false | _ => true end.

(** [s || null]. *)
Definition or_null (s : string) : option string :=
  if truthy s then Some s else None.

(** [arr.slice(-n)]: the last [n] elements. *)
Definition slice_last {A} (n : nat) (l : list A) : list A :=
  skipn (List.length l - n) l.

(** [arr.slice(0, n)]. *)
Definition slice_first {A} (n : nat) (l : list A) : list A := firstn n l.

(** [arr[arr.length - 1]], [undefined] on the empty array. *)
Definition last_elem {A} (l : list A) : option A :=
  match List.rev l with [] => None | x :: _ => Some x end.

(** [s.split('\n')]: always at least one piece. *)
Fixpoint split_lines_aux (cur : string) (s : string) : list string :=
  match s with
  | EmptyString => [cur]
  | String c rest =>
      if Ascii.eqb c "010"%char
      then cur :: split_lines_aux EmptyString rest
      else split_lines_aux (String.append cur (String c EmptyString)) rest
  end.

Definition split_lines (s : string) : list string :=
  split_lines_aux EmptyString s.

(** White space removed by [trim]; the one-byte members of the
    ECMAScript WhiteSpace and LineTerminator classes.  The members
    beyond one byte (U+00A0, U+FEFF, U+2028, U+2029 and the space
    separators) are not stripped here. *)
Definition is_space (c : ascii) : bool :=
  let n := nat_of_ascii c in
  ((n =? 32) || (n =? 9) || (n =? 10) || (n =? 11) || (n =? 12) || (n =? 13))%nat.

Fixpoint trim_start (s : string) : string :=
  match s with
  | EmptyString => EmptyString
  | String c rest => if is_space c then trim_start rest else s
  end.

Fixpoint string_rev_aux (s acc : string) : string :=
  match s with
  | EmptyString => acc
  | String c rest => string_rev_aux rest (String c acc)
  end.

Definition string_rev (s : string) : string := string_rev_aux s EmptyString.

Definition trim (s : string) : string :=
  string_rev (trim_start (string_rev (trim_start s))).

(** Decimal rendering of a count in a template literal. *)
Definition of_nat (n : nat) : string :=
  DecimalString.NilEmpty.string_of_uint (Nat.to_uint n).

End Js.

(** ** Data model (the interfaces at the top of the source file) *)

(** ['info' | 'success' | 'error' | 'progress'] *)
Inductive LogType := info | success | error | progress.

Definition LogType_eqb (a b : LogType) : bool :=
  match a, b with
  | info, info | success, success | error, error | progress, progress => true
  | _, _ => false
  end.

(** An element of [progressLogs]; [timestamp] is the clock reading taken
    by [new Date()], in milliseconds. *)
Record LogEntry := mkLogEntry {
  message : string;
  timestamp : N;
  type : LogType
}.

Record ProcessingLog := mkProcessingLog {
  pl_timestamp : string;
  pl_message : string;
  log_type : string;
  pl_session_id : option string
}.

Record AppConfig := mkAppConfig {
  last_input_directory : option string;
  last_output_directory : option string;
  cfg_verbose : bool;
  processing_logs : list ProcessingLog;
  max_logs : nat;
  created_at : string;
  updated_at : string
}.

Record ConfigResult := mkConfigResult {
  cr_success : bool;
  cr_message : string;
  config : option AppConfig
}.

(** [propostas: any[]]: only its length is read. *)
Record ProcessingResult := mkProcessingResult {
  success_ : bool;
  pr_message : string;
  propostas : list string;
  total_processed : nat;
  json_file_path : option string;
  session_id : option string
}.

Record ProcessingStatus := mkProcessingStatus {
  is_processing : bool;
  current_file : option string;
  processed_files : nat;
  total_files : nat;
  errors : list string
}.

Record PdfFileInfo := mkPdfFileInfo {
  file_name : string;
  file_path : string;
  file_size : nat;
  modified_timestamp : nat
}.

(** A value thrown by [invoke]: the two properties the component reads
    through optional chaining, and its rendering in a template literal. *)
Record JsError := mkJsError {
  err_message : option string;
  err_details : option string;
  err_text : string
}.

(** ** Component state

    The fields of [ProcessarHomologacaoComponent] that the embedded methods
    read or write, with the initial values of the class declaration.  The
    fields of the results browser, the PDF navigator and the tab state are
    written by no embedded method and are left out. *)

Record Component := mkComponent {
  selectedFile : string;
  pdfDirectory : string;
  outputDirectory : string;
  verbose : bool;
  processing : bool;
  processingResult : option ProcessingResult;
  processingStatus : option ProcessingStatus;
  currentSessionId : string;
  (** [progressInterval: any]: [None] is [undefined] or [null]; a timer id
      is a positive number, hence truthy. *)
  progressInterval : option positive;
  progressLogs : list LogEntry;
  totalProposals : nat;
  appConfig : option AppConfig;
  configLoaded : bool;
  persistentLogs : list ProcessingLog;
  isRepairingConfig : bool
}.

Definition initial_component : Component :=
  {| selectedFile := ""; pdfDirectory := ""; outputDirectory := "";
     verbose := false; processing := false; processingResult := None;
     processingStatus := None; currentSessionId := "";
     progressInterval := None; progressLogs := []; totalProposals := 0;
     appConfig := None; configLoaded := false; persistentLogs := [];
     isRepairingConfig := false |}.

Definition set_processing (v : bool) (c : Component) : Component :=
  mkComponent (selectedFile c) (pdfDirectory c) (outputDirectory c) (verbose c)
    v (processingResult c) (processingStatus c) (currentSessionId c)
    (progressInterval c) (progressLogs c) (totalProposals c) (appConfig c)
    (configLoaded c) (persistentLogs c) (isRepairingConfig c).

Definition set_processingResult (v : option ProcessingResult) (c : Component) : Component :=
  mkComponent (selectedFile c) (pdfDirectory c) (outputDirectory c) (verbose c)
    (processing c) v (processingStatus c) (currentSessionId c)
    (progressInterval c) (progressLogs c) (totalProposals c) (appConfig c)
    (configLoaded c) (persistentLogs c) (isRepairingConfig c).

Definition set_processingStatus (v : option ProcessingStatus) (c : Component) : Component :=
  mkComponent (selectedFile c) (pdfDirectory c) (outputDirectory c) (verbose c)
    (processing c) (processingResult c) v (currentSessionId c)
    (progressInterval c) (progressLogs c) (totalProposals c) (appConfig c)
    (configLoaded c) (persistentLogs c) (isRepairingConfig c).

Definition set_currentSessionId (v : string) (c : Component) : Component :=
  mkComponent (selectedFile c) (pdfDirectory c) (outputDirectory c) (verbose c)
    (processing c) (processingResult c) (processingStatus c) v
    (progressInterval c) (progressLogs c) (totalProposals c) (appConfig c)
    (configLoaded c) (persistentLogs c) (isRepairingConfig c).

Definition set_progressInterval (v : option positive) (c : Component) : Component :=
  mkComponent (selectedFile c) (pdfDirectory c) (outputDirectory c) (verbose c)
    (processing c) (processingResult c) (processingStatus c) (currentSessionId c)
    v (progressLogs c) (totalProposals c) (appConfig c)
    (configLoaded c) (persistentLogs c) (isRepairingConfig c).

Definition set_progressLogs (v : list LogEntry) (c : Component) : Component :=
  mkComponent (selectedFile c) (pdfDirectory c) (outputDirectory c) (verbose c)
    (processing c) (processingResult c) (processingStatus c) (currentSessionId c)
    (progressInterval c) v (totalProposals c) (appConfig c)
    (configLoaded c) (persistentLogs c) (isRepairingConfig c).

Definition set_totalProposals (v : nat) (c : Component) : Component :=
  mkComponent (selectedFile c) (pdfDirectory c) (outputDirectory c) (verbose c)
    (processing c) (processingResult c) (processingStatus c) (currentSessionId c)
    (progressInterval c) (progressLogs c) v (appConfig c)
    (configLoaded c) (persistentLogs c) (isRepairingConfig c).

Definition set_appConfig (v : option AppConfig) (c : Component) : Component :=
  mkComponent (selectedFile c) (pdfDirectory c) (outputDirectory c) (verbose c)
    (processing c) (processingResult c) (processingStatus c) (currentSessionId c)
    (progressInterval c) (progressLogs c) (totalProposals c) v
    (configLoaded c) (persistentLogs c) (isRepairingConfig c).

Definition set_configLoaded (v : bool) (c : Component) : Component :=
  mkComponent (selectedFile c) (pdfDirectory c) (outputDirectory c) (verbose c)
    (processing c) (processingResult c) (processingStatus c) (currentSessionId c)
    (progressInterval c) (progressLogs c) (totalProposals c) (appConfig c)
    v (persistentLogs c) (isRepairingConfig c).

Definition set_persistentLogs (v : list ProcessingLog) (c : Component) : Component :=
  mkComponent (selectedFile c) (pdfDirectory c) (outputDirectory c) (verbose c)
    (processing c) (processingResult c) (processingStatus c) (currentSessionId c)
    (progressInterval c) (progressLogs c) (totalProposals c) (appConfig c)
    (configLoaded c) v (isRepairingConfig c).

Definition set_isRepairingConfig (v : bool) (c : Component) : Component :=
  mkComponent (selectedFile c) (pdfDirectory c) (outputDirectory c) (verbose c)
    (processing c) (processingResult c) (processingStatus c) (currentSessionId c)
    (progressInterval c) (progressLogs c) (totalProposals c) (appConfig c)
    (configLoaded c) (persistentLogs c) v.

(** ** The event loop around the component *)

(** A backend command with the arguments the component passes to
    [invoke]. *)
Inductive Call :=
| load_app_config
| add_config_log (message : string) (logType : LogType) (sessionId : option string)
| debug_and_repair_config
| process_pdf_file (file_path output_dir : string) (verbose : bool)
| process_pdf_directory (input_dir output_dir : string) (verbose : bool) (session_id : string)
| process_pdf_fixed_directory (verbose : bool) (session_id : string)
| get_processing_status (session_id : string)
| clear_processing_state (session_id : string).

(** What a settled [invoke] promise carries. *)
Inductive Payload :=
| P_AppConfig (c : AppConfig)
| P_ConfigResult (r : ConfigResult)
| P_ProcessingResult (r : ProcessingResult)
| P_ProcessingStatus (s : ProcessingStatus)
| P_void.

Inductive Response :=
| Resolved (p : Payload)
| Rejected (e : JsError).

(** The four submit operations share the shape of their continuation. *)
Inductive Submit :=
| S_processFile | S_processDirectory | S_processFixedDirectory
| S_processSinglePdfFile.

(** The code that follows an [await invoke(...)], named by the method it
    belongs to. *)
Inductive Frame :=
| F_loadConfiguration
| F_addPersistentLog
| F_repairConfiguration
| F_performAutomaticRepair
| F_submit (s : Submit)
| F_poll (sessionId : string)
| F_poll_clear.

(** The code that follows an awaited call of another async method of the
    component: who is waiting for [loadConfiguration] or
    [repairConfiguration] to return. *)
Inductive Ret :=
| R_addPersistentLog
| R_repairConfiguration
| R_loadConfiguration.

(** An [invoke] in flight, with the continuation that awaits it. *)
Record Task := mkTask {
  task_id : nat;
  task_call : Call;
  task_frame : Frame;
  task_stack : list Ret
}.

Inductive ConsoleLevel := c_log | c_warn | c_error.

(** What the component does to its environment, in the order it does
    it. *)
Inductive Effect :=
| Invoke (c : Call)
| SetInterval (handle : positive) (ms : nat)
| ClearInterval (handle : positive)
| SetTimeout (handle : positive) (ms : nat)
| Console (level : ConsoleLevel) (text : string).

(** Callbacks handed to [setTimeout]. *)
Inductive TimerCallback := T_performAutomaticRepair.

Record World := mkWorld {
  comp : Component;
  pending : list Task;
  intervals : list (positive * string);
  timeouts : list (positive * TimerCallback);
  trace : list Effect;
  next_task : nat;
  next_timer : positive
}.

Definition initial_world : World :=
  {| comp := initial_component; pending := []; intervals := [];
     timeouts := []; trace := []; next_task := 0; next_timer := 1%positive |}.

(** Synchronous code: it runs to its end without the event loop taking
    another event. *)
Definition Sync := World -> World.

Definition seq (f g : Sync) : Sync := fun w => g (f w).
Notation "f ;; g" := (seq f g) (at level 61, right associativity).

Definition skip : Sync := fun w => w.

Definition modify (f : Component -> Component) : Sync :=
  fun w => mkWorld (f (comp w)) (pending w) (intervals w) (timeouts w)
             (trace w) (next_task w) (next_timer w).

Definition emit (e : Effect) : Sync :=
  fun w => mkWorld (comp w) (pending w) (intervals w) (timeouts w)
             (trace w ++ [e]) (next_task w) (next_timer w).

Definition console (l : ConsoleLevel) (text : string) : Sync :=
  emit (Console l text).

Definition branch (b : Component -> bool) (f g : Sync) : Sync :=
  fun w => if b (comp w) then f w else g w.

Definition for_each {A} (l : list A) (body : A -> Sync) : Sync :=
  fun w => fold_left (fun w a => body a w) l w.

(** [await invoke(call)]: the call goes out and the rest of the method,
    [frame] with the callers in [stack], waits for it. *)
Definition await_invoke (call : Call) (frame : Frame) (stack : list Ret) : Sync :=
  fun w => mkWorld (comp w)
             (pending w ++ [mkTask (next_task w) call frame stack])
             (intervals w) (timeouts w) (trace w ++ [Invoke call])
             (S (next_task w)) (next_timer w).

(** [this.progressInterval = setInterval(tick, 500)], the tick polling
    [sessionId]. *)
Definition setInterval (sessionId : string) (ms : nat) : Sync :=
  fun w => let h := next_timer w in
           mkWorld (set_progressInterval (Some h) (comp w)) (pending w)
             (intervals w ++ [(h, sessionId)]) (timeouts w)
             (trace w ++ [SetInterval h ms]) (next_task w) (Pos.succ h).

Definition clearInterval (h : positive) : Sync :=
  fun w => mkWorld (comp w) (pending w)
             (filter (fun t => negb (Pos.eqb (fst t) h)) (intervals w))
             (timeouts w) (trace w ++ [ClearInterval h]) (next_task w)
             (next_timer w).

Definition setTimeout (cb : TimerCallback) (ms : nat) : Sync :=
  fun w => let h := next_timer w in
           mkWorld (comp w) (pending w) (intervals w)
             (timeouts w ++ [(h, cb)]) (trace w ++ [SetTimeout h ms])
             (next_task w) (Pos.succ h).

(** ** Corruption signatures

    The component recognises a corrupted configuration file by matching
    the text of the error. *)

Definition message_includes (needle : string) (e : JsError) : bool :=
  match err_message e with Some m => Js.includes needle m | None => false end.

Definition details_includes (needle : string) (e : JsError) : bool :=
  match err_details e with Some d => Js.includes needle d | None => false end.

(** [isUtf8Error] of [loadConfiguration] and [addPersistentLog]. *)
Definition isUtf8Error (e : JsError) : bool :=
  message_includes "UTF-8" e
  || message_includes "stream did not contain valid UTF-8" e.

(** [isDeserializationError] of [loadConfiguration] and
    [addPersistentLog]. *)
Definition isDeserializationError (e : JsError) : bool :=
  details_includes "licitacao360_config.json" e
  && (message_includes "deserializar" e
      || message_includes "trailing characters" e).

(** The test [isUtf8Error || isDeserializationError] that sends
    [loadConfiguration] to [repairConfiguration] and lets
    [addPersistentLog] schedule [performAutomaticRepair]. *)
Definition isCorruption (e : JsError) : bool :=
  isUtf8Error e || isDeserializationError e.

(** [isConfigError] of [initializeConfiguration]. *)
Definition isConfigError (e : JsError) : bool :=
  details_includes "licitacao360_config.json" e
  || message_includes "UTF-8" e
  || message_includes "deserializar" e
  || message_includes "trailing characters" e.

(** ** The transient log and its mirror *)

(** [addPersistentLog] up to its [await invoke('add_config_log', ...)]. *)
Definition addPersistentLog (msg : string) (kind : LogType) : Sync :=
  branch isRepairingConfig
    (console c_log "Skipping persistent log during repair:")
    (fun w =>
       await_invoke
         (add_config_log msg kind (Js.or_null (currentSessionId (comp w))))
         F_addPersistentLog [] w).

(** The test of [addLog] that drops a repeated progress line. *)
Definition is_duplicate_progress (logs : list LogEntry) (msg : string)
    (kind : LogType) : bool :=
  match kind with
  | progress =>
      match Js.last_elem logs with
      | Some lastLog =>
          LogType_eqb (type lastLog) progress && String.eqb (message lastLog) msg
      | None => false
      end
  | _ => false
  end.

(** [addLog(message, type)]; [now] is what [new Date()] reads.  The call
    of [addPersistentLog] is not awaited: it runs to its first [await]
    and leaves its continuation behind. *)
Definition addLog (now : N) (msg : string) (kind : LogType) : Sync :=
  fun w =>
    let logEntry := mkLogEntry msg now kind in
    if is_duplicate_progress (progressLogs (comp w)) msg kind then w
    else
      (modify (fun c => set_progressLogs (progressLogs c ++ [logEntry]) c) ;;
       branch (fun c => 100 <? List.length (progressLogs c))
         (modify (fun c => set_progressLogs (Js.slice_last 100 (progressLogs c)) c))
         skip ;;
       branch (fun c => negb (LogType_eqb kind progress) && negb (isRepairingConfig c))
         (addPersistentLog msg kind)
         skip) w.

(** ** Configuration loading and repair *)

(** [loadConfiguration] up to its [await invoke('load_app_config')];
    [stack] is who awaits it. *)
Definition loadConfiguration (stack : list Ret) : Sync :=
  await_invoke load_app_config F_loadConfiguration stack.

(** [repairConfiguration] up to its
    [await invoke('debug_and_repair_config')]. *)
Definition repairConfiguration (now : N) (stack : list Ret) : Sync :=
  addLog now "🔧 Detectado problema na configuração, tentando reparar..." info ;;
  await_invoke debug_and_repair_config F_repairConfiguration stack.

(** [performAutomaticRepair] up to its
    [await invoke('debug_and_repair_config')]. *)
Definition performAutomaticRepair (now : N) : Sync :=
  branch isRepairingConfig
    (console c_warn "Repair already in progress, skipping...")
    (modify (set_isRepairingConfig true) ;;
     addLog now "🔧 Executando reparo automático da configuração..." info ;;
     await_invoke debug_and_repair_config F_performAutomaticRepair []).

(** An awaited method has returned: the callers on [stack] go on, the
    innermost first.  [addPersistentLog] copies the reloaded logs;
    [repairConfiguration] and [loadConfiguration] have nothing left to
    do after the call they awaited. *)
Fixpoint return_to (stack : list Ret) : Sync :=
  match stack with
  | [] => skip
  | R_addPersistentLog :: callers =>
      (fun w =>
         match appConfig (comp w) with
         | Some c => modify (set_persistentLogs (processing_logs c)) w
         | None => w
         end) ;;
      return_to callers
  | R_repairConfiguration :: callers => return_to callers
  | R_loadConfiguration :: callers => return_to callers
  end.

(** Logging of the repair report, line by line. *)
Definition log_report_lines (now : N) (lines : list string) : Sync :=
  for_each lines
    (fun line =>
       if Js.truthy (Js.trim line)
       then addLog now (String.append "  " (Js.trim line)) info
       else skip).

(** The rest of [loadConfiguration], once [load_app_config] settles.
    [invoke<AppConfig>] is taken at its type: a load that resolves
    with something that is no configuration is not a step of the model
    ([None]), where the code would store it and set [configLoaded]. *)
Definition loadConfiguration_resume (now : N) (stack : list Ret)
    (r : Response) : option Sync :=
  match r with
  | Resolved (P_AppConfig c) =>
      Some (modify (set_appConfig (Some c)) ;;
            modify (set_configLoaded true) ;;
            return_to stack)
  | Resolved _ => None
  | Rejected e =>
      Some (console c_error "Error loading configuration:" ;;
            modify (set_configLoaded false) ;;
            if isUtf8Error e || isDeserializationError e then
              (if isUtf8Error e
               then addLog now "⚠️ Arquivo de configuração contém dados UTF-8 inválidos" error
               else addLog now "⚠️ Arquivo de configuração corrompido detectado" error) ;;
              repairConfiguration now (R_loadConfiguration :: stack)
            else
              addLog now
                (String.append "❌ Erro ao carregar configuração: "
                   (match err_message e with
                    | Some m => if Js.truthy m then m else "Erro desconhecido"
                    | None => "Erro desconhecido"
                    end)) error ;;
              return_to stack)
  end.

(** The rest of [repairConfiguration], once [debug_and_repair_config]
    settles. *)
Definition repairConfiguration_resume (now : N) (stack : list Ret)
    (r : Response) : option Sync :=
  match r with
  | Resolved (P_ConfigResult result) =>
      Some (if cr_success result then
              addLog now "✅ Configuração reparada com sucesso" success ;;
              log_report_lines now (Js.split_lines (cr_message result)) ;;
              loadConfiguration (R_repairConfiguration :: stack)
            else
              addLog now "❌ Falha ao reparar configuração" error ;;
              return_to stack)
  | Resolved _ => None
  | Rejected _ =>
      Some (console c_error "Error repairing configuration:" ;;
            addLog now "❌ Erro crítico ao reparar configuração" error ;;
            return_to stack)
  end.

(** The rest of [performAutomaticRepair]; its [finally] clears the
    flag on every path. *)
Definition performAutomaticRepair_resume (now : N) (r : Response) : option Sync :=
  match r with
  | Resolved (P_ConfigResult result) =>
      Some ((if cr_success result then
               addLog now "✅ Reparo automático executado com sucesso" success ;;
               log_report_lines now
                 (Js.slice_first 10 (Js.split_lines (cr_message result))) ;;
               (if 10 <? List.length (Js.split_lines (cr_message result)) then
                  addLog now "  ... (detalhes completos disponíveis no console)" info ;;
                  console c_log "Full repair details:"
                else skip)
             else
               addLog now "❌ Falha no reparo automático" error ;;
               console c_error "Repair failed:") ;;
            modify (set_isRepairingConfig false))
  | Resolved _ => None
  | Rejected _ =>
      Some (console c_error "Error during automatic repair:" ;;
            addLog now "❌ Erro crítico no reparo automático" error ;;
            modify (set_isRepairingConfig false))
  end.

(** The [catch] block of [addPersistentLog]. *)
Definition addPersistentLog_catch (e : JsError) : Sync :=
  console c_error "Error adding persistent log:" ;;
  console c_warn "Persistent logging disabled due to configuration error" ;;
  if isUtf8Error e || isDeserializationError e then
    console c_warn "Configuration file appears corrupted (UTF-8 or JSON issue)" ;;
    branch (fun c => negb (isRepairingConfig c))
      (console c_log "Triggering automatic config repair..." ;;
       setTimeout T_performAutomaticRepair 100)
      skip
  else skip.

(** The rest of [addPersistentLog], once [add_config_log] settles: the
    value it resolves to is not read. *)
Definition addPersistentLog_resume (stack : list Ret) (r : Response) : option Sync :=
  match r with
  | Resolved _ => Some (loadConfiguration (R_addPersistentLog :: stack))
  | Rejected e => Some (addPersistentLog_catch e)
  end.

(** ** Submitting and polling *)

Definition stopProgressMonitoring : Sync :=
  fun w =>
    match progressInterval (comp w) with
    | Some h => (clearInterval h ;; modify (set_progressInterval None)) w
    | None => w
    end.

(** [startProgressMonitoring] has no [await] of its own: it logs, arms
    the interval and returns. *)
Definition startProgressMonitoring (now : N) (sessionId : string) : Sync :=
  addLog now "📊 Monitoramento de progresso iniciado" info ;;
  setInterval sessionId 500.

(** The interval callback up to its
    [await invoke('get_processing_status', ...)]. *)
Definition poll (sessionId : string) : Sync :=
  await_invoke (get_processing_status sessionId) (F_poll sessionId) [].

(** The interval callback once the status has arrived. *)
Definition poll_status (now : N) (sessionId : string)
    (status : ProcessingStatus) : Sync :=
  modify (set_processingStatus (Some status)) ;;
  (match current_file status with
   | Some f =>
       if Js.truthy f then
         addLog now
           (String.concat ""
              ["📄 Processando: "; f; " ("; Js.of_nat (processed_files status);
               "/"; Js.of_nat (total_files status); ")"]) progress
       else skip
   | None => skip
   end) ;;
  (if 0 <? List.length (errors status) then
     for_each (errors status)
       (fun e => addLog now (String.append "❌ " e) error)
   else skip) ;;
  (if negb (is_processing status) then
     stopProgressMonitoring ;;
     addLog now "✅ Processamento concluído" success ;;
     await_invoke (clear_processing_state sessionId) F_poll_clear []
   else skip).

(** The [catch] block of the interval callback. *)
Definition poll_catch : Sync :=
  console c_error "Error getting processing status:" ;;
  stopProgressMonitoring.

Definition poll_resume (now : N) (sessionId : string) (r : Response) : option Sync :=
  match r with
  | Resolved (P_ProcessingStatus status) => Some (poll_status now sessionId status)
  | Resolved _ => None
  | Rejected _ => Some poll_catch
  end.

Definition poll_clear_resume (r : Response) : option Sync :=
  match r with
  | Resolved _ => Some skip
  | Rejected _ => Some (console c_warn "Erro ao limpar estado de processamento:")
  end.

(** [Date.now().toString()] *)
Definition provisional_session_id (now : N) : string :=
  DecimalString.NilEmpty.string_of_uint (N.to_uint now).

(** [processFile] up to its [await invoke('process_pdf_file', ...)]. *)
Definition processFile (now : N) : Sync :=
  branch (fun c => negb (Js.truthy (selectedFile c)) || negb (Js.truthy (outputDirectory c)))
    (addLog now "❌ Arquivo ou pasta de saída não selecionados" error)
    (modify (set_processing true) ;;
     modify (set_processingResult None) ;;
     modify (set_progressLogs []) ;;
     modify (set_totalProposals 0) ;;
     modify (set_currentSessionId (provisional_session_id now)) ;;
     addLog now "🔄 Iniciando processamento do arquivo..." info ;;
     fun w =>
       await_invoke
         (process_pdf_file (selectedFile (comp w)) (outputDirectory (comp w))
            (verbose (comp w)))
         (F_submit S_processFile) [] w).

(** [processDirectory] up to its
    [await invoke('process_pdf_directory', ...)]. *)
Definition processDirectory (now : N) : Sync :=
  branch (fun c => negb (Js.truthy (pdfDirectory c)) || negb (Js.truthy (outputDirectory c)))
    (addLog now "❌ Pasta ou pasta de saída não selecionadas" error)
    (modify (set_processing true) ;;
     modify (set_processingResult None) ;;
     modify (set_progressLogs []) ;;
     modify (set_totalProposals 0) ;;
     modify (set_currentSessionId (provisional_session_id now)) ;;
     addLog now "🔄 Iniciando processamento da pasta..." info ;;
     fun w =>
       await_invoke
         (process_pdf_directory (pdfDirectory (comp w)) (outputDirectory (comp w))
            (verbose (comp w)) (currentSessionId (comp w)))
         (F_submit S_processDirectory) [] w).

(** [processFixedDirectory] up to its
    [await invoke('process_pdf_fixed_directory', ...)]. *)
Definition processFixedDirectory (now : N) : Sync :=
  modify (set_processing true) ;;
  modify (set_processingResult None) ;;
  modify (set_progressLogs []) ;;
  modify (set_totalProposals 0) ;;
  modify (set_currentSessionId (provisional_session_id now)) ;;
  addLog now "🔄 Iniciando processamento da pasta PDF..." info ;;
  fun w =>
    await_invoke
      (process_pdf_fixed_directory (verbose (comp w)) (currentSessionId (comp w)))
      (F_submit S_processFixedDirectory) [] w.

(** [processSinglePdfFile(fileInfo)] up to its
    [await invoke('process_pdf_file', ...)]; [None] is a [null]
    argument. *)
Definition processSinglePdfFile (now : N) (fileInfo : option PdfFileInfo) : Sync :=
  match fileInfo with
  | None => addLog now "❌ Arquivo ou pasta de saída não selecionados" error
  | Some fi =>
      branch (fun c => negb (Js.truthy (outputDirectory c)))
        (addLog now "❌ Arquivo ou pasta de saída não selecionados" error)
        (modify (set_processing true) ;;
         modify (set_processingResult None) ;;
         modify (set_progressLogs []) ;;
         modify (set_totalProposals 0) ;;
         modify (set_currentSessionId (provisional_session_id now)) ;;
         addLog now (String.append "🔄 Processando arquivo: " (file_name fi)) info ;;
         fun w =>
           await_invoke
             (process_pdf_file (file_path fi) (outputDirectory (comp w))
                (verbose (comp w)))
             (F_submit S_processSinglePdfFile) [] w)
  end.

(** The lines logged for a successful result; the two directory
    operations count files and add the total of proposals. *)
Definition log_success (now : N) (s : Submit) (result : ProcessingResult) : Sync :=
  let n := Js.of_nat (List.length (propostas result)) in
  let json :=
    match json_file_path result with
    | Some p =>
        if Js.truthy p
        then addLog now (String.append "📄 Arquivo JSON salvo em: " p) success
        else skip
    | None => skip
    end in
  match s with
  | S_processFile | S_processSinglePdfFile =>
      addLog now
        (String.concat ""
           ["✅ Arquivo processado com sucesso! "; n; " propostas encontradas"])
        success ;;
      json
  | S_processDirectory =>
      addLog now
        (String.concat ""
           ["✅ Pasta processada com sucesso! ";
            Js.of_nat (total_processed result); " arquivos processados"])
        success ;;
      addLog now (String.append "📊 Total de propostas: " n) success ;;
      json
  | S_processFixedDirectory =>
      addLog now
        (String.concat ""
           ["✅ Pasta PDF processada com sucesso! ";
            Js.of_nat (total_processed result); " arquivos processados"])
        success ;;
      addLog now (String.append "📊 Total de propostas: " n) success ;;
      json
  end.

(** The [finally] block of the four submit operations. *)
Definition submit_finally : Sync :=
  modify (set_processing false) ;;
  stopProgressMonitoring.

(** The rest of a submit operation, once the worker call settles. *)
Definition submit_resume (now : N) (s : Submit) (r : Response) : option Sync :=
  match r with
  | Resolved (P_ProcessingResult result) =>
      Some ((match session_id result with
             | Some sid =>
                 if Js.truthy sid then
                   modify (set_currentSessionId sid) ;;
                   startProgressMonitoring now sid
                 else skip
             | None => skip
             end) ;;
            modify (set_processingResult (Some result)) ;;
            modify (set_totalProposals (List.length (propostas result))) ;;
            (if success_ result then log_success now s result
             else addLog now
                    (String.append "❌ Erro no processamento: " (pr_message result))
                    error) ;;
            submit_finally)
  | Resolved _ => None
  | Rejected e =>
      Some (console c_error
              (match s with
               | S_processFile | S_processSinglePdfFile => "Error processing file:"
               | S_processDirectory => "Error processing directory:"
               | S_processFixedDirectory => "Error processing fixed directory:"
               end) ;;
            addLog now
              (match s with
               | S_processFixedDirectory => "❌ Erro durante o processamento da pasta PDF"
               | _ => "❌ Erro durante o processamento"
               end) error ;;
            modify (set_processingResult
                      (Some (mkProcessingResult false
                               (String.append "Erro durante o processamento: " (err_text e))
                               [] 0 None None))) ;;
            submit_finally)
  end.

(** ** Events *)

(** Methods the template, a child component or a test calls. *)
Inductive Action :=
| A_processFile
| A_processDirectory
| A_processFixedDirectory
| A_processSinglePdfFile (fileInfo : option PdfFileInfo)
| A_loadConfiguration
| A_performAutomaticRepair
| A_startProgressMonitoring (sessionId : string)
| A_stopProgressMonitoring
| A_ngOnDestroy
| A_addLog (msg : string) (kind : LogType).

Inductive Event :=
| E_call (a : Action)
| E_settle (id : nat) (r : Response)
| E_interval (h : positive)
| E_timeout (h : positive).

Definition call (now : N) (a : Action) : Sync :=
  match a with
  | A_processFile => processFile now
  | A_processDirectory => processDirectory now
  | A_processFixedDirectory => processFixedDirectory now
  | A_processSinglePdfFile fi => processSinglePdfFile now fi
  | A_loadConfiguration => loadConfiguration []
  | A_performAutomaticRepair => performAutomaticRepair now
  | A_startProgressMonitoring sid => startProgressMonitoring now sid
  | A_stopProgressMonitoring => stopProgressMonitoring
  | A_ngOnDestroy => stopProgressMonitoring
  | A_addLog msg kind => addLog now msg kind
  end.

(** The continuation of a settled call; [None] when the payload is not
    of the type the command returns. *)
Definition resume (now : N) (f : Frame) (stack : list Ret) (r : Response)
    : option Sync :=
  match f with
  | F_loadConfiguration => loadConfiguration_resume now stack r
  | F_addPersistentLog => addPersistentLog_resume stack r
  | F_repairConfiguration => repairConfiguration_resume now stack r
  | F_performAutomaticRepair => performAutomaticRepair_resume now r
  | F_submit s => submit_resume now s r
  | F_poll sid => poll_resume now sid r
  | F_poll_clear => poll_clear_resume r
  end.

Fixpoint take_task (id : nat) (l : list Task) : option (Task * list Task) :=
  match l with
  | [] => None
  | t :: rest =>
      if task_id t =? id then Some (t, rest)
      else match take_task id rest with
           | Some (t', rest') => Some (t', t :: rest')
           | None => None
           end
  end.

Fixpoint take_timeout (h : positive) (l : list (positive * TimerCallback))
    : option (TimerCallback * list (positive * TimerCallback)) :=
  match l with
  | [] => None
  | t :: rest =>
      if Pos.eqb (fst t) h then Some (snd t, rest)
      else match take_timeout h rest with
           | Some (cb, rest') => Some (cb, t :: rest')
           | None => None
           end
  end.

Definition with_pending (p : list Task) : Sync :=
  fun w => mkWorld (comp w) p (intervals w) (timeouts w) (trace w)
             (next_task w) (next_timer w).

Definition with_timeouts (t : list (positive * TimerCallback)) : Sync :=
  fun w => mkWorld (comp w) (pending w) (intervals w) t (trace w)
             (next_task w) (next_timer w).

Definition run_callback (now : N) (cb : TimerCallback) : Sync :=
  match cb with
  | T_performAutomaticRepair => performAutomaticRepair now
  end.

(** One turn of the event loop at clock reading [now].  An event that
    names no pending call, no armed interval or no armed timeout, or that
    settles a call with a payload of another command, changes nothing. *)
Definition step (now : N) (ev : Event) : Sync :=
  fun w =>
    match ev with
    | E_call a => call now a w
    | E_settle id r =>
        match take_task id (pending w) with
        | Some (t, rest) =>
            match resume now (task_frame t) (task_stack t) r with
            | Some k => k (with_pending rest w)
            | None => w
            end
        | None => w
        end
    | E_interval h =>
        match find (fun t => Pos.eqb (fst t) h) (intervals w) with
        | Some (_, sid) => poll sid w
        | None => w
        end
    | E_timeout h =>
        match take_timeout h (timeouts w) with
        | Some (cb, rest) => run_callback now cb (with_timeouts rest w)
        | None => w
        end
    end.

(** A run: the events in order, each with the clock reading of its
    turn. *)
Definition run (evs : list (N * Event)) : Sync :=
  fun w => fold_left (fun w e => step (fst e) (snd e) w) evs w.

(** ** Observations used in the statements *)

(** What a stretch of code did to the environment: the effects [w'] has
    beyond those of [w]. *)
Definition new_effects (w w' : World) : list Effect :=
  skipn (List.length (trace w)) (trace w').

Definition count {A} (p : A -> bool) (l : list A) : nat :=
  List.length (filter p l).

Definition is_invoke (e : Effect) : bool :=
  match e with Invoke _ => true | _ => false end.

Definition is_repair_invoke (e : Effect) : bool :=
  match e with Invoke debug_and_repair_config => true | _ => false end.

Definition is_mirror_invoke (e : Effect) : bool :=
  match e with Invoke (add_config_log _ _ _) => true | _ => false end.

Definition is_status_invoke (e : Effect) : bool :=
  match e with Invoke (get_processing_status _) => true | _ => false end.

Definition is_cleanup_invoke (e : Effect) : bool :=
  match e with Invoke (clear_processing_state _) => true | _ => false end.

Definition is_clearInterval (e : Effect) : bool :=
  match e with ClearInterval _ => true | _ => false end.

Definition is_mirror_task (t : Task) : bool :=
  match task_frame t with F_addPersistentLog => true | _ => false end.

Definition is_submit_task (t : Task) : bool :=
  match task_frame t with F_submit _ => true | _ => false end.

(** Worker submissions that have gone out and have not settled. *)
Definition submits_in_flight (w : World) : nat :=
  count is_submit_task (pending w).

Definition is_error_entry (e : LogEntry) : bool := LogType_eqb (type e) error.

(** The line the interval callback logs on a terminal status. *)
Definition completion_entry (now : N) : LogEntry :=
  mkLogEntry "✅ Processamento concluído" now success.

Definition is_completion_entry (e : LogEntry) : bool :=
  String.eqb (message e) "✅ Processamento concluído"
  && LogType_eqb (type e) success.

(** The transient log after [addLog] has pushed [e] and trimmed. *)
Definition pushed (logs : list LogEntry) (e : LogEntry) : list LogEntry :=
  Js.slice_last 100 (logs ++ [e]).

(** The mirror call [addLog] sends for a line. *)
Definition mirror_call (w : World) (msg : string) (kind : LogType) : Call :=
  add_config_log msg kind (Js.or_null (currentSessionId (comp w))).

(** [addLog] sends the line to the persisted log. *)
Definition mirrors (kind : LogType) (w : World) : bool :=
  negb (LogType_eqb kind progress) && negb (isRepairingConfig (comp w)).

(** [w'] is [w] after logging only: the component differs in
    [progressLogs] alone, the new pending calls are mirror calls, the new
    effects are their [invoke]s, and timers are untouched. *)
Record LogOnly (w w' : World) : Prop := mkLogOnly {
  lo_comp : comp w' = set_progressLogs (progressLogs (comp w')) (comp w);
  lo_pending : exists ts, pending w' = pending w ++ ts
                          /\ forallb is_mirror_task ts = true;
  lo_trace : exists es, trace w' = trace w ++ es
                        /\ forallb is_mirror_invoke es = true;
  lo_intervals : intervals w' = intervals w;
  lo_timeouts : timeouts w' = timeouts w;
  lo_next_timer : next_timer w' = next_timer w
}.

(** The worlds a run goes through, the starting one first. *)
Fixpoint states (evs : list (N * Event)) (w : World) : list World :=
  match evs with
  | [] => [w]
  | e :: rest => w :: states rest (step (fst e) (snd e) w)
  end.

(** The four submit operations as one. *)
Definition submit (now : N) (s : Submit) (fileInfo : option PdfFileInfo) : Sync :=
  match s with
  | S_processFile => processFile now
  | S_processDirectory => processDirectory now
  | S_processFixedDirectory => processFixedDirectory now
  | S_processSinglePdfFile => processSinglePdfFile now fileInfo
  end.

(** The guard of each submit operation: the paths it refuses to start
    without. *)
Definition has_required_paths (s : Submit) (fileInfo : option PdfFileInfo)
    (c : Component) : bool :=
  match s with
  | S_processFile => Js.truthy (selectedFile c) && Js.truthy (outputDirectory c)
  | S_processDirectory => Js.truthy (pdfDirectory c) && Js.truthy (outputDirectory c)
  | S_processFixedDirectory => true
  | S_processSinglePdfFile =>
      match fileInfo with
      | Some _ => Js.truthy (outputDirectory c)
      | None => false
      end
  end.

(** The classification as the specification words it: an encoding or
    deserialization failure that also names the configuration file. *)
Definition spec_corruption_signature (e : JsError) : bool :=
  (message_includes "UTF-8" e
   || message_includes "deserializar" e
   || message_includes "trailing characters" e)
  && details_includes "licitacao360_config.json" e.

(** The cap of the transient log, and code that keeps it. *)
Definition LogBounded (w : World) : Prop :=
  List.length (progressLogs (comp w)) <= 100.

Definition Preserves (f : Sync) : Prop :=
  forall w, LogBounded w -> LogBounded (f w).

(** ** Scenarios *)

(** Backend errors: one with the encoding signature and no reference to
    the configuration file, one that names the file but carries no
    signature, one that is a plain failure. *)
Definition utf8_error : JsError :=
  mkJsError (Some "stream did not contain valid UTF-8") None
    "stream did not contain valid UTF-8".

Definition permission_error : JsError :=
  mkJsError (Some "permission denied")
    (Some "cannot open licitacao360_config.json") "permission denied".

Definition plain_error : JsError :=
  mkJsError (Some "connection closed") None "connection closed".

(** A component with a file and both directories chosen. *)
Definition ready_world : World :=
  modify (fun c =>
            mkComponent "/a/edital.pdf" "/a" "/b" (verbose c) (processing c)
              (processingResult c) (processingStatus c) (currentSessionId c)
              (progressInterval c) (progressLogs c) (totalProposals c)
              (appConfig c) (configLoaded c) (persistentLogs c)
              (isRepairingConfig c))
    initial_world.

(** Two submissions, the second before the first has settled. *)
Definition two_submits : list (N * Event) :=
  [(1000%N, E_call A_processFile); (1001%N, E_call A_processFile)].

(** The worker's terminal status of the end-to-end scenario. *)
Definition terminal_status : ProcessingStatus :=
  mkProcessingStatus false None 3 3 [].

(** Monitoring of session [s1] with two polls in flight (the status call
    took longer than the 500 ms between ticks): task 0 is the mirror of
    the start line, tasks 1 and 2 are the polls. *)
Definition two_polls_in_flight : World :=
  run [(1%N, E_call (A_startProgressMonitoring "s1"));
       (2%N, E_interval 1%positive);
       (3%N, E_interval 1%positive)] initial_world.

(** Both polls come back terminal. *)
Definition duplicate_terminal_observation : World :=
  run [(4%N, E_settle 1 (Resolved (P_ProcessingStatus terminal_status)));
       (5%N, E_settle 2 (Resolved (P_ProcessingStatus terminal_status)))]
    two_polls_in_flight.

(** Monitoring of session [s1] with one poll (task 1) in flight. *)
Definition one_poll_in_flight : World :=
  run [(1%N, E_call (A_startProgressMonitoring "s1"));
       (2%N, E_interval 1%positive)] initial_world.

(** One line logged, its mirror call (task 0) in flight. *)
Definition one_mirror_in_flight : World :=
  step 1%N (E_call (A_addLog "pasta selecionada" info)) initial_world.

Definition repaired : ConfigResult := mkConfigResult true "" None.

Definition default_config : AppConfig :=
  mkAppConfig None None false [] 1000 "2025-01-01" "2025-01-01".

(** One call of [loadConfiguration]; the backend rejects the load with
    the encoding signature twice although each repair in between reports
    success, then serves the configuration.  Calls settle in the order
    they were issued; the mirror calls of the log lines fail plainly. *)
Definition corrupted_twice : list (N * Event) :=
  [(1%N, E_call A_loadConfiguration);
   (2%N, E_settle 0 (Rejected utf8_error));
   (3%N, E_settle 1 (Rejected plain_error));
   (4%N, E_settle 2 (Rejected plain_error));
   (5%N, E_settle 3 (Resolved (P_ConfigResult repaired)));
   (6%N, E_settle 4 (Rejected plain_error));
   (7%N, E_settle 5 (Rejected utf8_error));
   (8%N, E_settle 6 (Rejected plain_error));
   (9%N, E_settle 7 (Rejected plain_error));
   (10%N, E_settle 8 (Resolved (P_ConfigResult repaired)));
   (11%N, E_settle 9 (Rejected plain_error));
   (12%N, E_settle 10 (Resolved (P_AppConfig default_config)))].

(** A series of [addLog] calls, each with its clock reading. *)
Definition addLogs (calls : list (N * string * LogType)) : Sync :=
  fun w => fold_left (fun w c => addLog (fst (fst c)) (snd (fst c)) (snd c) w) calls w.

(** The log those calls would leave without the cap: every line in
    order, a progress line that repeats the line before it left out. *)
Definition history (logs : list LogEntry) (calls : list (N * string * LogType))
    : list LogEntry :=
  fold_left
    (fun h c =>
       if is_duplicate_progress h (snd (fst c)) (snd c) then h
       else h ++ [mkLogEntry (snd (fst c)) (fst (fst c)) (snd c)])
    calls logs.

(** A backend that keeps rejecting the load with the encoding signature
    while every repair reports success: round [k] rejects the load in
    flight (task [5 * k]) and resolves the repair call sent for it (task
    [5 * k + 3]); the mirror calls of the three lines logged in between
    stay in flight. *)
Definition corrupted_round (k : nat) : list (N * Event) :=
  [(N.of_nat (2 * k + 2), E_settle (5 * k) (Rejected utf8_error));
   (N.of_nat (2 * k + 3), E_settle (5 * k + 3) (Resolved (P_ConfigResult repaired)))].

Definition corrupted_rounds (from n : nat) : list (N * Event) :=
  flat_map corrupted_round (List.seq from n).

(** One call of [loadConfiguration] against that backend for [n]
    rounds. *)
Definition always_corrupted (n : nat) : list (N * Event) :=
  (1%N, E_call A_loadConfiguration) :: corrupted_rounds 0 n.

(** Between rounds: the load of round [k] is the newest call in flight,
    no repair is flagged, and [k] repair calls have gone out. *)
Record BetweenRounds (k : nat) (w : World) : Prop := mkBetweenRounds {
  br_next : next_task w = 5 * k + 1;
  br_flag : isRepairingConfig (comp w) = false;
  br_repairs : count is_repair_invoke (trace w) = k;
  br_pending : exists stack older,
      pending w = older ++ [mkTask (5 * k) load_app_config F_loadConfiguration stack]
      /\ Forall (fun t => task_id t < 5 * k) older
}.

(** ** Mirroring against a backend whose reload fails *)

(** The line [loadConfiguration] logs for [plain_error]. *)
Definition load_error_line : string :=
  "❌ Erro ao carregar configuração: connection closed".

(** A backend that takes every mirror call and rejects the reload that
    [addPersistentLog] awaits after it: round [k] resolves the mirror
    call in flight (task [2 * k]) and rejects the load sent for it
    (task [2 * k + 1]). *)
Definition rejected_reload_round (k : nat) : list (N * Event) :=
  [(N.of_nat (2 * k + 2), E_settle (2 * k) (Resolved (P_ConfigResult repaired)));
   (N.of_nat (2 * k + 3), E_settle (2 * k + 1) (Rejected plain_error))].

Definition rejected_reload_rounds (from n : nat) : list (N * Event) :=
  flat_map rejected_reload_round (List.seq from n).

(** [n] rounds against that backend. *)
Definition rejected_reloads (n : nat) : list (N * Event) :=
  rejected_reload_rounds 0 n.

(** Between rounds: one mirror call is in flight and nothing else, no
    repair is flagged, and [k + 1] mirror calls have gone out. *)
Record MirrorRound (k : nat) (w : World) : Prop := mkMirrorRound {
  mr_next : next_task w = 2 * k + 1;
  mr_flag : isRepairingConfig (comp w) = false;
  mr_mirrors : count is_mirror_invoke (trace w) = S k;
  mr_pending : exists msg kind sid,
      pending w = [mkTask (2 * k) (add_config_log msg kind sid) F_addPersistentLog []]
      /\ (k = 0 \/ (msg = load_error_line /\ kind = error))
}.

(** ** Observations for the invariants of runs *)

(** Code that leaves an observation of the world as it was. *)
Definition Keeps {A} (obs : World -> A) (f : Sync) : Prop :=
  forall w, obs (f w) = obs w.

(** An observation that logging cannot change. *)
Definition LogBlind {A} (obs : World -> A) : Prop :=
  forall w w', LogOnly w w' -> obs w' = obs w.

Definition is_poll_task (t : Task) : bool :=
  match task_frame t with F_poll _ => true | _ => false end.

Definition is_auto_repair_task (t : Task) : bool :=
  match task_frame t with F_performAutomaticRepair => true | _ => false end.

Definition is_load_invoke (e : Effect) : bool :=
  match e with Invoke load_app_config => true | _ => false end.

Definition is_console (e : Effect) : bool :=
  match e with Console _ _ => true | _ => false end.

(** A direct call of [startProgressMonitoring], which the component
    itself makes only inside the submit operations. *)
Definition starts_monitoring (ev : Event) : bool :=
  match ev with E_call (A_startProgressMonitoring _) => true | _ => false end.

(** What polling leaves behind: the handle, the armed intervals, the
    status calls sent and the polls in flight. *)
Definition polling_obs (w : World)
    : option positive * list (positive * string) * nat * nat :=
  (progressInterval (comp w), intervals w,
   count is_status_invoke (trace w), count is_poll_task (pending w)).

Definition NoPolling (w : World) : Prop := polling_obs w = (None, [], 0, 0).

(** The repair flag and the automatic repairs in flight. *)
Definition repair_obs (w : World) : bool * nat :=
  (isRepairingConfig (comp w), count is_auto_repair_task (pending w)).

Definition FlagMatchesRepair (w : World) : Prop :=
  count is_auto_repair_task (pending w)
  = if isRepairingConfig (comp w) then 1 else 0.

(** [w'] is [w] after logging to the transient log and the console
    only: no call went out, nothing is pending that was not, no timer
    moved, and the component differs in [progressLogs] alone. *)
Record Quiet (w w' : World) : Prop := mkQuiet {
  q_comp : comp w' = set_progressLogs (progressLogs (comp w')) (comp w);
  q_pending : pending w' = pending w;
  q_trace : exists es, trace w' = trace w ++ es /\ forallb is_console es = true;
  q_intervals : intervals w' = intervals w;
  q_timeouts : timeouts w' = timeouts w;
  q_next_task : next_task w' = next_task w;
  q_next_timer : next_timer w' = next_timer w
}.

(** A worker result that carries a session id. *)
Definition result_with_session : ProcessingResult :=
  mkProcessingResult true "ok" ["p1"; "p2"] 2 (Some "/b/out.json") (Some "s1").

(** [processFixedDirectory] is called and its worker call (task 1; task
    0 is the mirror of the start line) resolves with a session id. *)
Definition fixed_directory_run : list (N * Event) :=
  [(1000%N, E_call A_processFixedDirectory);
   (1001%N, E_settle 1 (Resolved (P_ProcessingResult result_with_session)))].

(** A repair that did not succeed: the call was rejected, or it resolved
    with [success] false. *)
Definition is_repair_failure (r : Response) : bool :=
  match r with
  | Rejected _ => true
  | Resolved (P_ConfigResult result) => negb (cr_success result)
  | Resolved _ => false
  end.

Definition is_other_task (t : Task) : bool := negb (is_mirror_task t).

(** A status of a job still running that reports a file and no error. *)
Definition running_status : ProcessingStatus :=
  mkProcessingStatus true (Some "edital.pdf") 1 3 [].

(** A status of a job still running that reports two errors. *)
Definition failing_status : ProcessingStatus :=
  mkProcessingStatus true None 1 3 ["sem texto"; "pdf protegido"].

(** An automatic repair in flight (task 0), started on the initial
    component. *)
Definition repairing_world : World :=
  step 1%N (E_call A_performAutomaticRepair) initial_world.

Definition failed_repair : ConfigResult := mkConfigResult false "sem permissão" None.

(** ** Arrays, sets and strings of the list components *)

Module JsArray.

(** [arr.sort(compare)].  The sort is stable, so for a consistent
    comparator the sorted array is determined by the array and the
    comparator; inserting from the right, each element before the
    first one it does not follow, computes it. *)
Fixpoint insert {A} (compare : A -> A -> Z) (x : A) (l : list A) : list A :=
  match l with
  | [] => [x]
  | y :: rest =>
      if (compare x y <=? 0)%Z then x :: y :: rest
      else y :: insert compare x rest
  end.

Definition sort {A} (compare : A -> A -> Z) (l : list A) : list A :=
  fold_right (insert compare) [] l.

End JsArray.

(** A [Set<string>]: its members in insertion order, none twice. *)
Module JsSet.

Definition set := list string.

Definition has (x : string) (s : set) : bool := existsb (String.eqb x) s.

Definition add (x : string) (s : set) : set :=
  if has x s then s else s ++ [x].

Definition delete (x : string) (s : set) : set :=
  filter (fun y => negb (String.eqb x y)) s.

Definition size (s : set) : nat := List.length s.

Definition clear (s : set) : set := [].

End JsSet.

(** Strings by their UTF-16 code units, for the code that counts
    them ([length], [substring]). *)
Module Utf16.

Definition str := list N.

(** A literal of one-unit characters. *)
Definition lit (s : string) : str :=
  map N_of_ascii (list_ascii_of_string s).

(** [s.substring(from, to)] for [from <= to]. *)
Definition substring (from to : nat) (s : str) : str :=
  firstn (to - from) (skipn from s).

(** [s.substring(from)]. *)
Definition substring_from (from : nat) (s : str) : str := skipn from s.

End Utf16.

(** ** The PDF list of [ProcessarHomologacaoComponent] *)

(** [filePath.split(/[/\\]/).pop()]: what follows the last separator. *)
Fixpoint last_segment_aux (cur : string) (s : string) : string :=
  match s with
  | EmptyString => cur
  | String c rest =>
      if Ascii.eqb c "/"%char || Ascii.eqb c "\"%char
      then last_segment_aux EmptyString rest
      else last_segment_aux (String.append cur (String c EmptyString)) rest
  end.

Definition last_segment (s : string) : string := last_segment_aux EmptyString s.

(** The entry [loadPdfFilesList] makes up for a file whose
    [get_pdf_file_info] call was rejected. *)
Definition fallback_file_info (filePath : string) : PdfFileInfo :=
  mkPdfFileInfo
    (if Js.truthy (last_segment filePath) then last_segment filePath
     else "arquivo_desconhecido")
    filePath 0 0.

(** The comparator of [loadPdfFilesList]: the newer file first. *)
Definition newest_first (a b : PdfFileInfo) : Z :=
  (Z.of_nat (modified_timestamp b) - Z.of_nat (modified_timestamp a))%Z.

(** The end of [loadPdfFilesList]: [answers] pairs each listed path with
    what [get_pdf_file_info] resolved to for it, [None] where it was
    rejected; the infos are sorted by modification date, newest
    first. *)
Definition pdf_files_loaded (answers : list (string * option PdfFileInfo))
    : list PdfFileInfo :=
  JsArray.sort newest_first
    (map (fun a => match snd a with
                   | Some fileInfo => fileInfo
                   | None => fallback_file_info (fst a)
                   end) answers).

(** ** [RelacaoPdfComponent] *)

Module RelacaoPdf.

Inductive SortField := name | date | size.
Inductive SortDirection := asc | desc.

Definition SortField_eqb (a b : SortField) : bool :=
  match a, b with
  | name, name | date, date | size, size => true
  | _, _ => false
  end.

Record State := mkState {
  pdfDirectory : string;
  outputDirectory : string;
  availablePdfFiles : list PdfFileInfo;
  selectedPdfFile : option PdfFileInfo;
  searchTerm : string;
  sortBy : SortField;
  sortDirection : SortDirection;
  selectedFiles : JsSet.set
}.

Section Runtime.

(** [String.prototype.localeCompare] and [toLowerCase] of the
    runtime. *)
Variable localeCompare : string -> string -> Z.
Variable toLowerCase : string -> string.

(** The comparator of [sortFiles]. *)
Definition compare (st : State) (a b : PdfFileInfo) : Z :=
  let comparison :=
    match sortBy st with
    | name => localeCompare (file_name a) (file_name b)
    | date => (Z.of_nat (modified_timestamp a) - Z.of_nat (modified_timestamp b))%Z
    | size => (Z.of_nat (file_size a) - Z.of_nat (file_size b))%Z
    end in
  match sortDirection st with
  | desc => (- comparison)%Z
  | asc => comparison
  end.

Definition sortFiles (st : State) : State :=
  mkState (pdfDirectory st) (outputDirectory st)
    (JsArray.sort (compare st) (availablePdfFiles st))
    (selectedPdfFile st) (searchTerm st) (sortBy st) (sortDirection st)
    (selectedFiles st).

Definition changeSortBy (field : SortField) (st : State) : State :=
  sortFiles
    (if SortField_eqb (sortBy st) field then
       mkState (pdfDirectory st) (outputDirectory st) (availablePdfFiles st)
         (selectedPdfFile st) (searchTerm st) (sortBy st)
         (match sortDirection st with asc => desc | desc => asc end)
         (selectedFiles st)
     else
       mkState (pdfDirectory st) (outputDirectory st) (availablePdfFiles st)
         (selectedPdfFile st) (searchTerm st) field asc (selectedFiles st)).

Definition getFilteredFiles (st : State) : list PdfFileInfo :=
  if negb (Js.truthy (searchTerm st)) then availablePdfFiles st
  else
    let searchLower := toLowerCase (searchTerm st) in
    filter (fun file => Js.includes searchLower (toLowerCase (file_name file)))
      (availablePdfFiles st).

Definition with_selectedFiles (s : JsSet.set) (st : State) : State :=
  mkState (pdfDirectory st) (outputDirectory st) (availablePdfFiles st)
    (selectedPdfFile st) (searchTerm st) (sortBy st) (sortDirection st) s.

Definition toggleFileSelection (fileInfo : PdfFileInfo) (st : State) : State :=
  if JsSet.has (file_path fileInfo) (selectedFiles st)
  then with_selectedFiles (JsSet.delete (file_path fileInfo) (selectedFiles st)) st
  else with_selectedFiles (JsSet.add (file_path fileInfo) (selectedFiles st)) st.

Definition isFileSelected (fileInfo : PdfFileInfo) (st : State) : bool :=
  JsSet.has (file_path fileInfo) (selectedFiles st).

Definition getSelectedFilesCount (st : State) : nat :=
  JsSet.size (selectedFiles st).

Definition selectAllFiles (st : State) : State :=
  if JsSet.size (selectedFiles st) =? List.length (getFilteredFiles st)
  then with_selectedFiles (JsSet.clear (selectedFiles st)) st
  else
    with_selectedFiles
      (fold_left (fun s file => JsSet.add (file_path file) s)
         (getFilteredFiles st) (selectedFiles st)) st.

End Runtime.

End RelacaoPdf.

(** ** [SelecionarPastaComponent] *)

Module SelecionarPasta.

(** [getTruncatedPath()] of a component whose [currentPath] is
    [currentPath]. *)
Definition getTruncatedPath (currentPath : Utf16.str) : Utf16.str :=
  match currentPath with
  | [] => Utf16.lit "Nenhuma pasta selecionada"
  | _ =>
      let maxLength := 50 in
      if List.length currentPath <=? maxLength then currentPath
      else
        let start := Utf16.substring 0 20 currentPath in
        let end_ := Utf16.substring_from (List.length currentPath - 25) currentPath in
        start ++ Utf16.lit "..." ++ end_
  end.

Definition getPathExists (currentPath : Utf16.str) : bool :=
  match currentPath with
  | [] => false
  | _ => 0 <? List.length currentPath
  end.

End SelecionarPasta.

(** Three files of a folder, and a list component showing them with
    nothing selected and no search. *)
Definition file_a : PdfFileInfo := mkPdfFileInfo "a.pdf" "/p/a.pdf" 300 20.
Definition file_b : PdfFileInfo := mkPdfFileInfo "b.pdf" "/p/b.pdf" 100 30.
Definition file_c : PdfFileInfo := mkPdfFileInfo "c.pdf" "/p/c.pdf" 200 10.

Definition three_files : RelacaoPdf.State :=
  RelacaoPdf.mkState "/p" "/out" [file_a; file_b; file_c] None ""
    RelacaoPdf.name RelacaoPdf.asc [].

(** The column a list is sorted by, as a number. *)
Definition sort_field (field : RelacaoPdf.SortField) (f : PdfFileInfo) : nat :=
  match field with
  | RelacaoPdf.size => file_size f
  | _ => modified_timestamp f
  end.

(** The order [direction] asks for between two neighbours. *)
Definition in_order (field : RelacaoPdf.SortField)
    (direction : RelacaoPdf.SortDirection) (a b : PdfFileInfo) : Prop :=
  match direction with
  | RelacaoPdf.asc => sort_field field a <= sort_field field b
  | RelacaoPdf.desc => sort_field field b <= sort_field field a
  end.

(** ** [NavigationService] and the components that drive it *)

Module Navigation.

Inductive Style := primary | secondary | accent | danger.

Record HeaderButton := mkHeaderButton {
  hb_id : string;
  hb_label : string;
  hb_icon : string;
  tooltip : option string;
  action : string;
  style : option Style
}.

Record MenuItem := mkMenuItem {
  id : string;
  label : string;
  icon : string;
  description : option string;
  headerButtons : option (list HeaderButton)
}.

Definition menuItems : list MenuItem :=
  [ mkMenuItem "termo-referencia" "Termo de Referência" "📄"
      (Some "Gestão de termos de referência")
      (Some [ mkHeaderButton "importar-tabela" "Importar" "📤"
                (Some "Importar nova tabela Excel, ODF ou CSV")
                "carregarTabela" (Some secondary);
              mkHeaderButton "abrir-tabela-nova" "Abrir Tabela Nova"
                "assets/icons/excel.png"
                (Some "Cria arquivo Excel modelo em branco para preenchimento")
                "abrirTabelaNova" (Some primary) ]);
    mkMenuItem "processar-homologacao" "Processar Termos de Homologação" "⚡"
      (Some "Processamento de PDFs de homologação")
      (Some [ mkHeaderButton "processar-pdf" "Processar PDF" "📄"
                (Some "Processar arquivo PDF") "processarPdf" (Some primary);
              mkHeaderButton "ver-resultados" "Ver Resultados" "📊"
                (Some "Ver resultados do processamento") "verResultados"
                (Some secondary) ]);
    mkMenuItem "dados-empresas" "Dados das Empresas" "🏢"
      (Some "Cadastro e gestão de empresas")
      (Some [ mkHeaderButton "nova-empresa" "Nova Empresa" "➕"
                (Some "Cadastrar nova empresa") "novaEmpresa" (Some primary);
              mkHeaderButton "importar-dados" "Importar" "📤"
                (Some "Importar dados de empresas") "importarDados"
                (Some secondary) ]);
    mkMenuItem "gerar-ata" "Gerar Ata" "📝"
      (Some "Geração de atas de processos")
      (Some [ mkHeaderButton "nova-ata" "Nova Ata" "📝"
                (Some "Criar nova ata") "novaAta" (Some primary);
              mkHeaderButton "modelos-ata" "Modelos" "📋"
                (Some "Gerenciar modelos de ata") "modelosAta" (Some secondary) ]);
    mkMenuItem "indices-economicidade" "Índices de Economicidade" "📊"
      (Some "Análise de economicidade")
      (Some [ mkHeaderButton "calcular-indices" "Calcular" "🧮"
                (Some "Calcular índices de economicidade") "calcularIndices"
                (Some primary);
              mkHeaderButton "exportar-relatorio" "Exportar" "📤"
                (Some "Exportar relatório") "exportarRelatorio" (Some secondary) ]);
    mkMenuItem "configuracoes" "Configurações" "⚙️"
      (Some "Configurações do sistema")
      (Some [ mkHeaderButton "salvar-config" "Salvar" "💾"
                (Some "Salvar configurações") "salvarConfig" (Some primary);
              mkHeaderButton "restaurar-config" "Restaurar" "🔄"
                (Some "Restaurar configurações padrão") "restaurarConfig"
                (Some secondary) ]) ].

(** The values of the four [BehaviorSubject]s. *)
Record Service := mkService {
  currentPage : string;
  sidebarCollapsed : bool;
  sidebarOpen : bool;
  buttonAction : string
}.

Definition initial : Service :=
  mkService "processar-homologacao" false false "".

Definition getCurrentPage (s : Service) : string := currentPage s.

Definition setCurrentPage (pageId : string) (s : Service) : Service :=
  if existsb (fun item => String.eqb (id item) pageId) menuItems
  then mkService pageId (sidebarCollapsed s) (sidebarOpen s) (buttonAction s)
  else s.

Definition getMenuItem (pageId : string) : option MenuItem :=
  find (fun item => String.eqb (id item) pageId) menuItems.

Definition getHeaderButtons (pageId : string) : list HeaderButton :=
  match getMenuItem pageId with
  | Some menuItem =>
      match headerButtons menuItem with
      | Some buttons => buttons
      | None => []
      end
  | None => []
  end.

Definition emitButtonAction (a : string) (s : Service) : Service :=
  mkService (currentPage s) (sidebarCollapsed s) (sidebarOpen s) a.

Definition getSidebarCollapsed (s : Service) : bool := sidebarCollapsed s.

Definition setSidebarCollapsed (collapsed : bool) (s : Service) : Service :=
  mkService (currentPage s) collapsed (sidebarOpen s) (buttonAction s).

Definition toggleSidebar (s : Service) : Service :=
  setSidebarCollapsed (negb (getSidebarCollapsed s)) s.

Definition getSidebarOpen (s : Service) : bool := sidebarOpen s.

Definition setSidebarOpen (open : bool) (s : Service) : Service :=
  mkService (currentPage s) (sidebarCollapsed s) open (buttonAction s).

Definition toggleSidebarOpen (s : Service) : Service :=
  setSidebarOpen (negb (getSidebarOpen s)) s.

(** [SidebarComponent.selectMenuItem]; its [isMobileOpen] is the value
    its subscription last received, the service's [sidebarOpen]. *)
Definition selectMenuItem (itemId : string) (s : Service) : Service :=
  let s1 := setCurrentPage itemId s in
  if sidebarOpen s1 then setSidebarOpen false s1 else s1.

(** What the components call on the service. *)
Inductive Op :=
| O_setCurrentPage (pageId : string)
| O_selectMenuItem (itemId : string)
| O_emitButtonAction (a : string)
| O_setSidebarCollapsed (collapsed : bool)
| O_toggleSidebar
| O_setSidebarOpen (open : bool)
| O_toggleSidebarOpen.

Definition apply (o : Op) (s : Service) : Service :=
  match o with
  | O_setCurrentPage p => setCurrentPage p s
  | O_selectMenuItem i => selectMenuItem i s
  | O_emitButtonAction a => emitButtonAction a s
  | O_setSidebarCollapsed c => setSidebarCollapsed c s
  | O_toggleSidebar => toggleSidebar s
  | O_setSidebarOpen o => setSidebarOpen o s
  | O_toggleSidebarOpen => toggleSidebarOpen s
  end.

Definition run (ops : list Op) (s : Service) : Service :=
  fold_left (fun s o => apply o s) ops s.

End Navigation.

(** A [Map<string, V>]: its entries in insertion order, one per key. *)
Module JsMap.

Definition t (V : Type) := list (string * V).

Definition get {V} (k : string) (m : t V) : option V :=
  match find (fun e => String.eqb (fst e) k) m with
  | Some e => Some (snd e)
  | None => None
  end.

Fixpoint set {V} (k : string) (v : V) (m : t V) : t V :=
  match m with
  | [] => [(k, v)]
  | e :: rest =>
      if String.eqb (fst e) k then (k, v) :: rest else e :: set k v rest
  end.

End JsMap.

(** ** [DadosEmpresasComponent] *)

Module DadosEmpresas.

(** An optional string property of an object: absent ([None]), or
    present and holding [undefined] or a string. *)
Definition Field := option (option string).

(** The property in [{...item, ...processed}]. *)
Definition spread (item processed : Field) : Field :=
  match processed with
  | Some v => Some v
  | None => item
  end.

(** An element of [jsonData.propostas], of which four properties are
    read; a property that is missing reads [undefined]. *)
Record Proposta := mkProposta {
  cnpj : option string;
  fornecedor : option string;
  p_nome_fantasia : option string;
  p_endereco : option string
}.

Record SicafData := mkSicafData {
  sd_cnpj : string;
  empresa : string;
  nome_fantasia : Field;
  situacao_cadastro : Field;
  data_vencimento : Field;
  cep : Field;
  endereco : Field;
  municipio : Field;
  uf : Field;
  telefone : Field;
  email : Field;
  cpf_responsavel : Field;
  nome_responsavel : Field
}.

Record ProcessingSicafResult := mkProcessingSicafResult {
  r_success : bool;
  r_message : string;
  processed_count : nat;
  sicaf_data : list SicafData;
  r_session_id : option string
}.

(** The fields the methods below read or write. *)
Record Component := mkComponent {
  selectedJsonFile : string;
  sicafData : list SicafData;
  cnpjRegistrados : JsSet.set;
  isProcessing : bool;
  processedCount : nat;
  pdfCount : nat;
  logs : list string
}.

Definition initial : Component := mkComponent "" [] [] false 0 0 [].

Definition set_selectedJsonFile (v : string) (c : Component) : Component :=
  mkComponent v (sicafData c) (cnpjRegistrados c) (isProcessing c)
    (processedCount c) (pdfCount c) (logs c).

Definition set_sicafData (v : list SicafData) (c : Component) : Component :=
  mkComponent (selectedJsonFile c) v (cnpjRegistrados c) (isProcessing c)
    (processedCount c) (pdfCount c) (logs c).

Definition set_cnpjRegistrados (v : JsSet.set) (c : Component) : Component :=
  mkComponent (selectedJsonFile c) (sicafData c) v (isProcessing c)
    (processedCount c) (pdfCount c) (logs c).

Definition set_isProcessing (v : bool) (c : Component) : Component :=
  mkComponent (selectedJsonFile c) (sicafData c) (cnpjRegistrados c) v
    (processedCount c) (pdfCount c) (logs c).

Definition set_processedCount (v : nat) (c : Component) : Component :=
  mkComponent (selectedJsonFile c) (sicafData c) (cnpjRegistrados c)
    (isProcessing c) v (pdfCount c) (logs c).

Definition set_pdfCount (v : nat) (c : Component) : Component :=
  mkComponent (selectedJsonFile c) (sicafData c) (cnpjRegistrados c)
    (isProcessing c) (processedCount c) v (logs c).

Definition set_logs (v : list string) (c : Component) : Component :=
  mkComponent (selectedJsonFile c) (sicafData c) (cnpjRegistrados c)
    (isProcessing c) (processedCount c) (pdfCount c) v.

(** [addLog(message)]; [timestamp] is what [toLocaleTimeString] gives. *)
Definition addLog (timestamp message : string) (c : Component) : Component :=
  let logs1 := String.concat "" ["["; timestamp; "] "; message] :: logs c in
  if 50 <? List.length logs1
  then set_logs (Js.slice_first 50 logs1) c
  else set_logs logs1 c.

Definition clearLogs (c : Component) : Component := set_logs [] c.

Definition addLogs (calls : list (string * string)) (c : Component) : Component :=
  fold_left (fun c0 call => addLog (fst call) (snd call) c0) calls c.

(** The loop of [onJsonFileSelected] over the proposals: the set of
    CNPJs seen and the companies collected. *)
Definition collect (acc : JsSet.set * list SicafData) (proposta : Proposta)
    : JsSet.set * list SicafData :=
  match cnpj proposta with
  | Some c =>
      if Js.truthy c && negb (JsSet.has c (fst acc)) then
        (JsSet.add c (fst acc),
         snd acc ++
         [mkSicafData c
            (match fornecedor proposta with
             | Some f => if Js.truthy f then f else "N/A"
             | None => "N/A"
             end)
            (Some (p_nome_fantasia proposta)) (Some (Some "Não verificado"))
            None None (Some (p_endereco proposta)) None None None None None None])
      else acc
  | None => acc
  end.

Definition companies_of (propostas : list Proposta) : JsSet.set * list SicafData :=
  fold_left collect propostas ([], []).

(** [onJsonFileSelected] with no file selected. *)
Definition onJsonFileSelected_none (c : Component) : Component :=
  set_cnpjRegistrados (JsSet.clear (cnpjRegistrados c)) (set_sicafData [] c).

(** [onJsonFileSelected] once the file is read and [jsonData.propostas]
    is an array. *)
Definition onJsonFileSelected_loaded (timestamp : string)
    (propostas : list Proposta) (c : Component) : Component :=
  let cnpjSet := fst (companies_of propostas) in
  let sicafDataTemp := snd (companies_of propostas) in
  addLog timestamp
    (String.concat ""
       ["Arquivo JSON carregado: "; Js.of_nat (List.length propostas);
        " propostas, "; Js.of_nat (JsSet.size cnpjSet); " CNPJs únicos"])
    (set_cnpjRegistrados cnpjSet (set_sicafData sicafDataTemp c)).

Definition processedMap (processedData : list SicafData) : JsMap.t SicafData :=
  fold_left (fun m data => JsMap.set (sd_cnpj data) data m) processedData [].

(** [{...item, ...processed, situacao_cadastro: 'Verificado'}]. *)
Definition merged (item processed : SicafData) : SicafData :=
  mkSicafData (sd_cnpj processed) (empresa processed)
    (spread (nome_fantasia item) (nome_fantasia processed))
    (Some (Some "Verificado"))
    (spread (data_vencimento item) (data_vencimento processed))
    (spread (cep item) (cep processed))
    (spread (endereco item) (endereco processed))
    (spread (municipio item) (municipio processed))
    (spread (uf item) (uf processed))
    (spread (telefone item) (telefone processed))
    (spread (email item) (email processed))
    (spread (cpf_responsavel item) (cpf_responsavel processed))
    (spread (nome_responsavel item) (nome_responsavel processed)).

Definition updateSicafDataWithProcessedData (timestamp : string)
    (processedData : list SicafData) (c : Component) : Component :=
  let m := processedMap processedData in
  addLog timestamp
    (String.concat ""
       ["Dados SICAF atualizados para "; Js.of_nat (List.length processedData);
        " empresas"])
    (set_sicafData
       (map (fun item =>
               match JsMap.get (sd_cnpj item) m with
               | Some processed => merged item processed
               | None => item
               end)
            (sicafData c))
       c).

Definition isCnpjRegistered (k : string) (c : Component) : bool :=
  JsSet.has k (cnpjRegistrados c).

Definition getSicafStatus (k : string) (c : Component) : string :=
  match find (fun item => String.eqb (sd_cnpj item) k) (sicafData c) with
  | Some sicafItem =>
      match situacao_cadastro sicafItem with
      | Some (Some s) => if Js.truthy s then s else "Não verificado"
      | _ => "Não verificado"
      end
  | None => "Não verificado"
  end.

Definition has_status (s : string) (item : SicafData) : bool :=
  match situacao_cadastro item with
  | Some (Some s0) => String.eqb s0 s
  | _ => false
  end.

Definition verifiedCount (c : Component) : nat :=
  List.length (filter (has_status "Verificado") (sicafData c)).

Definition notVerifiedCount (c : Component) : nat :=
  List.length (filter (has_status "Não verificado") (sicafData c)).

(** *** The component with its backend calls in flight *)

(** Where a call resumes: [processSicafPdfs] after
    [process_sicaf_pdfs], [loadPdfCount] after [get_sicaf_directory] and
    after [list_pdf_files], [onJsonFileSelected] after
    [read_json_file]. *)
Inductive Frame :=
| K_processSicafPdfs
| K_loadPdfCount_dir
| K_loadPdfCount_list
| K_onJsonFileSelected.

Inductive Payload :=
| P_result (result : ProcessingSicafResult)
| P_directory (dir : string)
| P_files (pdfFiles : list string)
(** [jsonData], an object; its [propostas] when that is an array. *)
| P_json (propostas : option (list Proposta)).

(** A rejection carries the text the error concatenates as. *)
Inductive Response :=
| Resolved (p : Payload)
| Rejected (err : string).

Record World := mkWorld {
  comp : Component;
  pending : list (nat * Frame);
  next_call : nat
}.

Definition start : World := mkWorld initial [] 0.

Definition update (f : Component -> Component) (w : World) : World :=
  mkWorld (f (comp w)) (pending w) (next_call w).

Definition invoke (k : Frame) (w : World) : World :=
  mkWorld (comp w) (pending w ++ [(next_call w, k)]) (S (next_call w)).

(** [loadPdfCount] up to its first [await]. *)
Definition loadPdfCount (w : World) : World := invoke K_loadPdfCount_dir w.

Definition processSicafPdfs (timestamp : string) (w : World) : World :=
  if isProcessing (comp w) then w
  else
    invoke K_processSicafPdfs
      (update (fun c =>
                 addLog timestamp "Iniciando processamento de PDFs SICAF..."
                   (set_processedCount 0 (set_isProcessing true c)))
              w).

Definition onJsonFileSelected (w : World) : World :=
  if negb (Js.truthy (selectedJsonFile (comp w)))
  then update onJsonFileSelected_none w
  else invoke K_onJsonFileSelected w.

(** A call settles and the method that awaited it goes on, to its next
    [await] or its end; [None] when the payload is not of the call's
    type. *)
Definition resume (timestamp : string) (k : Frame) (r : Response) (w : World)
    : option World :=
  match k, r with
  | K_processSicafPdfs, Resolved (P_result result) =>
      Some
        (update (set_isProcessing false)
           (if r_success result then
              loadPdfCount
                (update (fun c =>
                           updateSicafDataWithProcessedData timestamp
                             (sicaf_data result)
                             (addLog timestamp
                                (String.concat ""
                                   ["Processamento concluído: ";
                                    Js.of_nat (processed_count result);
                                    " PDFs processados"])
                                (set_processedCount (processed_count result) c)))
                        w)
            else
              update (addLog timestamp
                        (String.append "Erro no processamento: "
                           (r_message result)))
                     w))
  | K_processSicafPdfs, Rejected err =>
      Some
        (update (set_isProcessing false)
           (update (addLog timestamp
                      (String.append "Erro ao processar PDFs: " err))
                   w))
  | K_loadPdfCount_dir, Resolved (P_directory _) =>
      Some (invoke K_loadPdfCount_list w)
  | K_loadPdfCount_list, Resolved (P_files pdfFiles) =>
      Some
        (update (fun c =>
                   addLog timestamp
                     (String.append "Arquivos PDF encontrados: "
                        (Js.of_nat (List.length pdfFiles)))
                     (set_pdfCount (List.length pdfFiles) c))
                w)
  | K_loadPdfCount_dir, Rejected err
  | K_loadPdfCount_list, Rejected err =>
      Some (update (addLog timestamp
                      (String.append "Erro ao contar PDFs: " err))
                   w)
  | K_onJsonFileSelected, Resolved (P_json (Some propostas)) =>
      Some (update (onJsonFileSelected_loaded timestamp propostas) w)
  | K_onJsonFileSelected, Resolved (P_json None) => Some w
  | K_onJsonFileSelected, Rejected err =>
      Some (update (addLog timestamp
                      (String.append "Erro ao carregar arquivo JSON: " err))
                   w)
  | _, _ => None
  end.

Fixpoint take (id : nat) (l : list (nat * Frame))
    : option (Frame * list (nat * Frame)) :=
  match l with
  | [] => None
  | e :: rest =>
      if Nat.eqb (fst e) id then Some (snd e, rest)
      else
        match take id rest with
        | Some (k, rest') => Some (k, e :: rest')
        | None => None
        end
  end.

Inductive Event :=
| E_select (file : string)
| E_onJsonFileSelected
| E_processSicafPdfs (timestamp : string)
| E_clearLogs
| E_settled (id : nat) (r : Response) (timestamp : string).

Definition step (e : Event) (w : World) : World :=
  match e with
  | E_select file => update (set_selectedJsonFile file) w
  | E_onJsonFileSelected => onJsonFileSelected w
  | E_processSicafPdfs timestamp => processSicafPdfs timestamp w
  | E_clearLogs => update clearLogs w
  | E_settled id r timestamp =>
      match take id (pending w) with
      | Some (k, rest) =>
          match resume timestamp k r (mkWorld (comp w) rest (next_call w)) with
          | Some w' => w'
          | None => w
          end
      | None => w
      end
  end.

Definition run (events : list Event) (w : World) : World :=
  fold_left (fun w0 e => step e w0) events w.

Definition is_process_call (e : nat * Frame) : bool :=
  match snd e with
  | K_processSicafPdfs => true
  | _ => false
  end.

Definition process_calls_in_flight (w : World) : nat :=
  List.length (filter is_process_call (pending w)).

End DadosEmpresas.

(** * Proofs *)

Local Arguments Nat.ltb : simpl never.
Local Arguments Nat.leb : simpl never.
Local Arguments Js.slice_last : simpl never.
Local Arguments String.eqb : simpl never.

(** ** Arrays *)

Lemma slice_last_length {A} (n : nat) (l : list A) :
  List.length (Js.slice_last n l) = Nat.min n (List.length l).
Proof.
  unfold Js.slice_last. rewrite length_skipn. lia.
Qed.

Lemma slice_last_short {A} (n : nat) (l : list A) :
  List.length l <= n -> Js.slice_last n l = l.
Proof.
  intros H. unfold Js.slice_last.
  replace (List.length l - n) with 0 by lia. reflexivity.
Qed.

Lemma last_elem_snoc {A} (l : list A) (x : A) :
  Js.last_elem (l ++ [x]) = Some x.
Proof.
  unfold Js.last_elem. rewrite rev_app_distr. reflexivity.
Qed.

Lemma slice_last_snoc {A} (n : nat) (l : list A) (x : A) :
  exists front, Js.slice_last (S n) (l ++ [x]) = front ++ [x].
Proof.
  unfold Js.slice_last. rewrite length_app. simpl.
  replace (List.length l + 1 - S n) with (List.length l - n) by lia.
  rewrite skipn_app.
  replace (List.length l - n - List.length l) with 0 by lia.
  simpl. eauto.
Qed.

Lemma slice_last_slice_last_snoc {A} (n : nat) (l : list A) (x : A) :
  Js.slice_last n (Js.slice_last n l ++ [x]) = Js.slice_last n (l ++ [x]).
Proof.
  destruct (Nat.le_gt_cases (List.length l) n) as [Hle | Hgt].
  - rewrite (slice_last_short n l Hle). reflexivity.
  - unfold Js.slice_last.
    rewrite !length_app, length_skipn. simpl.
    rewrite !skipn_app, skipn_skipn, length_skipn.
    f_equal; f_equal; lia.
Qed.

Lemma pushed_length (logs : list LogEntry) (e : LogEntry) :
  List.length (pushed logs e) <= 100.
Proof.
  unfold pushed. rewrite slice_last_length. lia.
Qed.

Lemma pushed_last (logs : list LogEntry) (e : LogEntry) :
  Js.last_elem (pushed logs e) = Some e.
Proof.
  unfold pushed. destruct (slice_last_snoc 99 logs e) as [front ->].
  apply last_elem_snoc.
Qed.

(** ** [addLog] in closed form *)

Lemma addLog_eq (now : N) (msg : string) (kind : LogType) (w : World) :
  addLog now msg kind w =
  if is_duplicate_progress (progressLogs (comp w)) msg kind then w
  else
    let c' := set_progressLogs
                (pushed (progressLogs (comp w)) (mkLogEntry msg now kind)) (comp w) in
    if mirrors kind w then
      mkWorld c'
        (pending w ++ [mkTask (next_task w) (mirror_call w msg kind) F_addPersistentLog []])
        (intervals w) (timeouts w)
        (trace w ++ [Invoke (mirror_call w msg kind)])
        (S (next_task w)) (next_timer w)
    else
      mkWorld c' (pending w) (intervals w) (timeouts w) (trace w)
        (next_task w) (next_timer w).
Proof.
  unfold addLog.
  destruct (is_duplicate_progress _ _ _); [reflexivity |].
  destruct w as [c p i t tr nt ntm]; destruct c; cbn -[pushed].
  unfold seq, branch, modify, skip, mirrors, pushed; cbn.
  set (l := progressLogs0 ++ [ _ ]).
  destruct (100 <? List.length l) eqn:Hlen; cbn.
  - destruct kind, isRepairingConfig0; reflexivity.
  - apply Nat.ltb_ge in Hlen. rewrite (slice_last_short 100 l Hlen).
    destruct kind, isRepairingConfig0; reflexivity.
Qed.

Lemma addLog_duplicate (now : N) (msg : string) (kind : LogType) (w : World) :
  is_duplicate_progress (progressLogs (comp w)) msg kind = true ->
  addLog now msg kind w = w.
Proof.
  intros H. rewrite addLog_eq, H. reflexivity.
Qed.

Lemma addLog_progressLogs (now : N) (msg : string) (kind : LogType) (w : World) :
  progressLogs (comp (addLog now msg kind w)) =
  if is_duplicate_progress (progressLogs (comp w)) msg kind
  then progressLogs (comp w)
  else pushed (progressLogs (comp w)) (mkLogEntry msg now kind).
Proof.
  rewrite addLog_eq.
  destruct (is_duplicate_progress _ _ _); [reflexivity |].
  cbv zeta. destruct (mirrors kind w); reflexivity.
Qed.

Lemma not_duplicate_unless_progress (logs : list LogEntry) (msg : string)
    (kind : LogType) :
  kind <> progress -> is_duplicate_progress logs msg kind = false.
Proof.
  destruct kind; intros H; try reflexivity. congruence.
Qed.

(** ** Effects of a stretch of code *)

Lemma new_effects_app (w w' : World) (es : list Effect) :
  trace w' = trace w ++ es -> new_effects w w' = es.
Proof.
  intros H. unfold new_effects. rewrite H, skipn_app, skipn_all, Nat.sub_diag.
  reflexivity.
Qed.

Lemma new_effects_same (w w' : World) :
  trace w' = trace w -> new_effects w w' = [].
Proof.
  intros H. apply new_effects_app. rewrite H, app_nil_r. reflexivity.
Qed.

Lemma count_app {A} (p : A -> bool) (l1 l2 : list A) :
  count p (l1 ++ l2) = count p l1 + count p l2.
Proof.
  unfold count. rewrite filter_app, length_app. reflexivity.
Qed.

Lemma count_snoc {A} (p : A -> bool) (l : list A) (a : A) :
  count p (l ++ [a]) = count p l + (if p a then 1 else 0).
Proof.
  rewrite count_app. unfold count. simpl. destruct (p a); reflexivity.
Qed.

Lemma count_none {A} (p q : A -> bool) (l : list A) :
  (forall a, q a = true -> p a = false) ->
  forallb q l = true -> count p l = 0.
Proof.
  intros Hpq. induction l as [| a l IH]; simpl; intros H; [reflexivity |].
  apply andb_prop in H as [Ha Hl]. unfold count in *. simpl.
  rewrite (Hpq a Ha). auto.
Qed.

(** ** Logging leaves everything but the log alone *)

Lemma LogOnly_refl (w : World) : LogOnly w w.
Proof.
  constructor; try reflexivity.
  - destruct (comp w); reflexivity.
  - exists []. rewrite app_nil_r. auto.
  - exists []. rewrite app_nil_r. auto.
Qed.

Lemma LogOnly_trans (w1 w2 w3 : World) :
  LogOnly w1 w2 -> LogOnly w2 w3 -> LogOnly w1 w3.
Proof.
  intros [c1 [ts1 [p1 f1]] [es1 [t1 g1]] i1 o1 n1]
         [c2 [ts2 [p2 f2]] [es2 [t2 g2]] i2 o2 n2].
  constructor; try congruence.
  - rewrite c2, c1. destruct (comp w1); reflexivity.
  - exists (ts1 ++ ts2). rewrite p2, p1, <- app_assoc, forallb_app, f1, f2. auto.
  - exists (es1 ++ es2). rewrite t2, t1, <- app_assoc, forallb_app, g1, g2. auto.
Qed.

Lemma addLog_LogOnly (now : N) (msg : string) (kind : LogType) (w : World) :
  LogOnly w (addLog now msg kind w).
Proof.
  rewrite addLog_eq.
  destruct (is_duplicate_progress _ _ _); [apply LogOnly_refl |].
  cbv zeta. destruct (mirrors kind w); constructor; cbn;
    try reflexivity;
    try (destruct (comp w); reflexivity);
    try (eexists; split; [reflexivity | reflexivity]);
    exists []; rewrite app_nil_r; auto.
Qed.

Lemma for_each_LogOnly {A} (l : list A) (body : A -> Sync) :
  (forall a w, LogOnly w (body a w)) ->
  forall w, LogOnly w (for_each l body w).
Proof.
  intros Hbody. unfold for_each.
  induction l as [| a l IH]; intros w; simpl; [apply LogOnly_refl |].
  eapply LogOnly_trans; [apply Hbody | apply IH].
Qed.

Lemma log_report_lines_LogOnly (now : N) (lines : list string) (w : World) :
  LogOnly w (log_report_lines now lines w).
Proof.
  apply for_each_LogOnly. intros line w0.
  destruct (Js.truthy (Js.trim line)); [apply addLog_LogOnly | apply LogOnly_refl].
Qed.

Lemma LogOnly_isRepairingConfig (w w' : World) :
  LogOnly w w' -> isRepairingConfig (comp w') = isRepairingConfig (comp w).
Proof. intros [-> _ _ _ _ _]. reflexivity. Qed.

Lemma LogOnly_progressInterval (w w' : World) :
  LogOnly w w' -> progressInterval (comp w') = progressInterval (comp w).
Proof. intros [-> _ _ _ _ _]. reflexivity. Qed.

Lemma LogOnly_processing (w w' : World) :
  LogOnly w w' -> processing (comp w') = processing (comp w).
Proof. intros [-> _ _ _ _ _]. reflexivity. Qed.

Lemma LogOnly_count (p : Effect -> bool) (w w' : World) :
  (forall e, is_mirror_invoke e = true -> p e = false) ->
  LogOnly w w' -> count p (trace w') = count p (trace w).
Proof.
  intros Hp [_ _ [es [-> Hes]] _ _ _].
  rewrite count_app, (count_none p is_mirror_invoke es Hp Hes). lia.
Qed.

Lemma LogOnly_count_task (p : Task -> bool) (w w' : World) :
  (forall t, is_mirror_task t = true -> p t = false) ->
  LogOnly w w' -> count p (pending w') = count p (pending w).
Proof.
  intros Hp [_ [ts [-> Hts]] _ _ _ _].
  rewrite count_app, (count_none p is_mirror_task ts Hp Hts). lia.
Qed.

(** ** The transient log stays bounded *)

Lemma Preserves_skip : Preserves skip.
Proof. intros w H. exact H. Qed.

Lemma Preserves_seq (f g : Sync) :
  Preserves f -> Preserves g -> Preserves (f ;; g).
Proof. intros Hf Hg w H. apply Hg, Hf, H. Qed.

Lemma Preserves_branch (b : Component -> bool) (f g : Sync) :
  Preserves f -> Preserves g -> Preserves (branch b f g).
Proof.
  intros Hf Hg w H. unfold branch. destruct (b (comp w)); auto.
Qed.

Lemma Preserves_for_each {A} (l : list A) (body : A -> Sync) :
  (forall a, Preserves (body a)) -> Preserves (for_each l body).
Proof.
  intros Hbody. unfold for_each.
  induction l as [| a l IH]; intros w H; simpl; [exact H |].
  apply IH, Hbody, H.
Qed.

Lemma Preserves_addLog (now : N) (msg : string) (kind : LogType) :
  Preserves (addLog now msg kind).
Proof.
  intros w H. unfold LogBounded. rewrite addLog_progressLogs.
  destruct (is_duplicate_progress _ _ _); [exact H | apply pushed_length].
Qed.

(** Code that does not write [progressLogs]. *)
Lemma Preserves_keep (f : Sync) :
  (forall w, progressLogs (comp (f w)) = progressLogs (comp w)) -> Preserves f.
Proof. intros Hf w H. unfold LogBounded. rewrite Hf. exact H. Qed.

(** Code that empties [progressLogs]. *)
Lemma Preserves_reset (f : Sync) :
  (forall w, progressLogs (comp (f w)) = []) -> Preserves f.
Proof. intros Hf w H. unfold LogBounded. rewrite Hf. simpl. lia. Qed.

Lemma Preserves_stopProgressMonitoring : Preserves stopProgressMonitoring.
Proof.
  apply Preserves_keep. intros w. unfold stopProgressMonitoring.
  destruct (progressInterval (comp w)); reflexivity.
Qed.

Create HintDb pres.
#[local] Hint Resolve Preserves_skip Preserves_seq Preserves_branch
  Preserves_for_each Preserves_addLog Preserves_stopProgressMonitoring : pres.
#[local] Hint Extern 1 (Preserves (if ?b then _ else _)) => destruct b : pres.
#[local] Hint Extern 1 (Preserves (match ?x with Some _ => _ | None => _ end)) =>
  destruct x : pres.
#[local] Hint Extern 3 (Preserves _) =>
  (apply Preserves_keep; intros ?; reflexivity) : pres.
#[local] Hint Extern 3 (Preserves _) =>
  (apply Preserves_reset; intros ?; reflexivity) : pres.

Lemma Preserves_return_to (stack : list Ret) : Preserves (return_to stack).
Proof.
  induction stack as [| r stack IH]; simpl; [apply Preserves_skip |].
  destruct r; auto. apply Preserves_seq; [| exact IH].
  apply Preserves_keep. intros w. destruct (appConfig (comp w)); reflexivity.
Qed.

#[local] Hint Resolve Preserves_return_to : pres.

Lemma Preserves_repairConfiguration (now : N) (stack : list Ret) :
  Preserves (repairConfiguration now stack).
Proof. unfold repairConfiguration. auto 20 with pres. Qed.

Lemma Preserves_performAutomaticRepair (now : N) :
  Preserves (performAutomaticRepair now).
Proof. unfold performAutomaticRepair. auto 20 with pres. Qed.

Lemma Preserves_startProgressMonitoring (now : N) (sid : string) :
  Preserves (startProgressMonitoring now sid).
Proof. unfold startProgressMonitoring. auto 20 with pres. Qed.

#[local] Hint Resolve Preserves_repairConfiguration
  Preserves_performAutomaticRepair Preserves_startProgressMonitoring : pres.

Lemma Preserves_log_success (now : N) (s : Submit) (result : ProcessingResult) :
  Preserves (log_success now s result).
Proof. destruct s; unfold log_success; auto 20 with pres. Qed.

#[local] Hint Resolve Preserves_log_success : pres.

Lemma Preserves_call (now : N) (a : Action) : Preserves (call now a).
Proof.
  destruct a; simpl;
    unfold processFile, processDirectory, processFixedDirectory,
      processSinglePdfFile, loadConfiguration;
    auto 20 with pres.
Qed.

Lemma Preserves_resume (now : N) (f : Frame) (stack : list Ret) (r : Response)
    (k : Sync) :
  resume now f stack r = Some k -> Preserves k.
Proof.
  destruct f; simpl;
    unfold loadConfiguration_resume, addPersistentLog_resume,
      repairConfiguration_resume, performAutomaticRepair_resume,
      submit_resume, poll_resume, poll_clear_resume;
    destruct r as [[] |]; intros [= <-];
    unfold addPersistentLog_catch, log_report_lines, loadConfiguration,
      poll_status, poll_catch, submit_finally;
    auto 30 with pres.
Qed.

Lemma Preserves_step (now : N) (ev : Event) : Preserves (step now ev).
Proof.
  intros w H. destruct ev as [a | id r | h | h]; simpl.
  - apply Preserves_call, H.
  - destruct (take_task id (pending w)) as [[t rest] |]; [| exact H].
    destruct (resume now (task_frame t) (task_stack t) r) as [k |] eqn:Hk;
      [| exact H].
    apply (Preserves_resume _ _ _ _ _ Hk). exact H.
  - destruct (find _ (intervals w)) as [[h' sid] |]; exact H.
  - destruct (take_timeout h (timeouts w)) as [[cb rest] |]; [| exact H].
    destruct cb. apply Preserves_performAutomaticRepair. exact H.
Qed.

Lemma Preserves_run (evs : list (N * Event)) : Preserves (run evs).
Proof.
  unfold run. induction evs as [| e evs IH]; intros w H; simpl; [exact H |].
  apply IH, Preserves_step, H.
Qed.

Lemma LogBounded_reachable (evs : list (N * Event)) :
  LogBounded (run evs initial_world).
Proof.
  apply Preserves_run. unfold LogBounded. simpl. lia.
Qed.

(** ** Log Aggregator *)

(** C9. When the last transient entry is a progress entry with the same
    message, [addLog(message, 'progress')] returns before touching
    anything: the whole world, and with it the transient log and its
    length, is what it was. *)
Theorem addLog_repeated_progress_is_discarded
    (now : N) (msg : string) (w : World) (lastLog : LogEntry) :
  Js.last_elem (progressLogs (comp w)) = Some lastLog ->
  type lastLog = progress ->
  message lastLog = msg ->
  addLog now msg progress w = w
  /\ progressLogs (comp (addLog now msg progress w)) = progressLogs (comp w)
  /\ List.length (progressLogs (comp (addLog now msg progress w)))
     = List.length (progressLogs (comp w)).
Proof.
  intros Hlast Hty Hmsg.
  assert (E : addLog now msg progress w = w).
  { apply addLog_duplicate. unfold is_duplicate_progress.
    rewrite Hlast, Hty, Hmsg, String.eqb_refl. reflexivity. }
  rewrite E. auto.
Qed.

Lemma addLog_repeated_progress_is_discarded_witness :
  let w := modify (set_progressLogs [mkLogEntry "p" 1 info; mkLogEntry "q" 2 progress])
             initial_world in
  addLog 3 "q" progress w = w
  /\ progressLogs (comp (addLog 3 "q" progress w)) = progressLogs (comp w)
  /\ List.length (progressLogs (comp (addLog 3 "q" progress w)))
     = List.length (progressLogs (comp w)).
Proof.
  intros w.
  apply (addLog_repeated_progress_is_discarded 3 "q" w (mkLogEntry "q" 2 progress));
    reflexivity.
Defined.

Lemma last_elem_slice_last {A} (n : nat) (l : list A) :
  Js.last_elem (Js.slice_last (S n) l) = Js.last_elem l.
Proof.
  destruct l as [| a l] using rev_ind; [reflexivity |].
  destruct (slice_last_snoc n l a) as [front ->].
  rewrite !last_elem_snoc. reflexivity.
Qed.

Lemma is_duplicate_progress_slice_last (logs : list LogEntry) (msg : string)
    (kind : LogType) :
  is_duplicate_progress (Js.slice_last 100 logs) msg kind
  = is_duplicate_progress logs msg kind.
Proof.
  unfold is_duplicate_progress. rewrite last_elem_slice_last. reflexivity.
Qed.

(** The capped log is the window of the last 100 lines of the uncapped
    one. *)
Lemma addLogs_window (calls : list (N * string * LogType)) (w : World)
    (h : list LogEntry) :
  progressLogs (comp w) = Js.slice_last 100 h ->
  progressLogs (comp (addLogs calls w)) = Js.slice_last 100 (history h calls).
Proof.
  unfold addLogs, history. revert w h.
  induction calls as [| [[now msg] kind] calls IH]; intros w h Hw; simpl.
  - exact Hw.
  - apply IH. rewrite addLog_progressLogs, Hw, is_duplicate_progress_slice_last.
    destruct (is_duplicate_progress h msg kind); [reflexivity |].
    apply slice_last_slice_last_snoc.
Qed.

(** C10. In every reachable world, a call of [addLog] leaves at most 100
    entries in the transient log, and the log it leaves is the old log
    with the new entry at its end, cut to its last 100 entries: the
    oldest go first and the order of appending is kept.  (A repeated
    progress line is dropped and leaves the log as it was.)  Over any
    series of calls the log is the last 100 lines of what the calls
    would have left without the cap. *)
Theorem addLog_keeps_the_last_100
    (evs : list (N * Event)) (now : N) (msg : string) (kind : LogType)
    (calls : list (N * string * LogType)) :
  let w := run evs initial_world in
  let w' := addLog now msg kind w in
  List.length (progressLogs (comp w')) <= 100
  /\ progressLogs (comp w') =
     (if is_duplicate_progress (progressLogs (comp w)) msg kind
      then progressLogs (comp w)
      else Js.slice_last 100 (progressLogs (comp w) ++ [mkLogEntry msg now kind]))
  /\ progressLogs (comp (addLogs calls w)) =
     Js.slice_last 100 (history (progressLogs (comp w)) calls).
Proof.
  intros w w'. split; [| split].
  - apply Preserves_addLog, LogBounded_reachable.
  - apply addLog_progressLogs.
  - apply addLogs_window. symmetry. apply slice_last_short.
    apply LogBounded_reachable.
Qed.

(** C8. [addLog] sends [add_config_log] for its entry exactly when the
    kind is not progress and no repair is running, and sends nothing
    else; [addPersistentLog] called on its own sends nothing while a
    repair is running. *)
Theorem addLog_mirrors_iff_not_progress_and_not_repairing
    (now : N) (msg : string) (kind : LogType) (w : World) :
  let w' := addLog now msg kind w in
  new_effects w w' =
    (if negb (LogType_eqb kind progress) && negb (isRepairingConfig (comp w))
     then [Invoke (mirror_call w msg kind)] else [])
  /\ (In (Invoke (mirror_call w msg kind)) (new_effects w w')
      <-> kind <> progress /\ isRepairingConfig (comp w) = false)
  /\ count is_invoke (new_effects w (addPersistentLog msg kind w)) =
     (if isRepairingConfig (comp w) then 0 else 1).
Proof.
  intros w'.
  assert (E : new_effects w w' =
              if negb (LogType_eqb kind progress) && negb (isRepairingConfig (comp w))
              then [Invoke (mirror_call w msg kind)] else []).
  { subst w'. rewrite addLog_eq. unfold mirrors.
    destruct (is_duplicate_progress _ _ _) eqn:Hdup.
    - destruct kind; try discriminate Hdup. simpl.
      apply new_effects_same. reflexivity.
    - cbv zeta.
      destruct (negb (LogType_eqb kind progress) && negb (isRepairingConfig (comp w))).
      + apply new_effects_app. reflexivity.
      + apply new_effects_same. reflexivity. }
  split; [exact E |]. split.
  - rewrite E. split.
    + destruct kind, (isRepairingConfig (comp w)); simpl; intros H;
        try contradiction; split; congruence.
    + intros [Hk Hr]. rewrite Hr. destruct kind; simpl; auto; congruence.
  - unfold addPersistentLog, branch.
    destruct (isRepairingConfig (comp w)).
    + rewrite (new_effects_app _ _ [Console c_log "Skipping persistent log during repair:"]);
        reflexivity.
    + rewrite (new_effects_app _ _ [Invoke (mirror_call w msg kind)]); reflexivity.
Qed.

(** ** Config Repair Coordinator *)

(** C4. [performAutomaticRepair] called while [isRepairingConfig] is set
    only warns on the console: the component is unchanged, no call is
    left pending and [debug_and_repair_config] is not invoked. *)
Theorem performAutomaticRepair_skips_while_repairing (now : N) (w : World) :
  isRepairingConfig (comp w) = true ->
  let w' := performAutomaticRepair now w in
  comp w' = comp w
  /\ pending w' = pending w
  /\ new_effects w w' = [Console c_warn "Repair already in progress, skipping..."]
  /\ count is_invoke (new_effects w w') = 0.
Proof.
  intros H w'. subst w'. unfold performAutomaticRepair, branch. rewrite H.
  assert (E : new_effects w (console c_warn "Repair already in progress, skipping..." w)
              = [Console c_warn "Repair already in progress, skipping..."]).
  { apply new_effects_app. reflexivity. }
  rewrite E. repeat split; reflexivity.
Qed.

Lemma performAutomaticRepair_skips_while_repairing_witness :
  let w := modify (set_isRepairingConfig true) initial_world in
  let w' := performAutomaticRepair 7 w in
  comp w' = comp w
  /\ pending w' = pending w
  /\ new_effects w w' = [Console c_warn "Repair already in progress, skipping..."]
  /\ count is_invoke (new_effects w w') = 0.
Proof.
  apply (performAutomaticRepair_skips_while_repairing 7
           (modify (set_isRepairingConfig true) initial_world)).
  reflexivity.
Defined.

(** ** Substrings *)

Lemma includes_eq (needle hay : string) :
  Js.includes needle hay =
  if String.prefix needle hay then true
  else match hay with
       | EmptyString => false
       | String _ rest => Js.includes needle rest
       end.
Proof. destruct hay; reflexivity. Qed.

Lemma prefix_append (n b : string) : String.prefix n (String.append n b) = true.
Proof.
  induction n as [| c n IH]; simpl.
  - destruct b; reflexivity.
  - destruct (ascii_dec c c); [exact IH | congruence].
Qed.

Lemma prefix_split (n h : string) :
  String.prefix n h = true -> exists b, h = String.append n b.
Proof.
  revert h. induction n as [| c n IH]; intros h H.
  - exists h. reflexivity.
  - destruct h as [| c' h]; simpl in H; [discriminate |].
    destruct (ascii_dec c c') as [<- |]; [| discriminate].
    destruct (IH h H) as [b ->]. exists b. reflexivity.
Qed.

Lemma append_assoc (a b c : string) :
  String.append (String.append a b) c = String.append a (String.append b c).
Proof.
  induction a as [| x a IH]; simpl; [reflexivity | rewrite IH; reflexivity].
Qed.

Lemma includes_append (a n b : string) :
  Js.includes n (String.append a (String.append n b)) = true.
Proof.
  induction a as [| x a IH].
  - simpl. rewrite includes_eq, prefix_append. reflexivity.
  - rewrite includes_eq. simpl String.append.
    destruct (String.prefix n _); [reflexivity | exact IH].
Qed.

Lemma includes_split (n h : string) :
  Js.includes n h = true ->
  exists a b, h = String.append a (String.append n b).
Proof.
  induction h as [| x h IH]; rewrite includes_eq; intros H.
  - destruct (String.prefix n EmptyString) eqn:Hp; [| discriminate].
    destruct (prefix_split _ _ Hp) as [b Hb]. exists EmptyString, b. exact Hb.
  - destruct (String.prefix n (String x h)) eqn:Hp.
    + destruct (prefix_split _ _ Hp) as [b Hb]. exists EmptyString, b. exact Hb.
    + destruct (IH H) as [a [b ->]]. exists (String x a), b. reflexivity.
Qed.

Lemma includes_trans (n1 n2 h : string) :
  Js.includes n1 n2 = true -> Js.includes n2 h = true -> Js.includes n1 h = true.
Proof.
  intros H1 H2.
  destruct (includes_split _ _ H1) as [a1 [b1 ->]].
  destruct (includes_split _ _ H2) as [a2 [b2 ->]].
  rewrite !append_assoc, <- (append_assoc a2 a1).
  apply includes_append.
Qed.

Lemma message_includes_trans (n1 n2 : string) (e : JsError) :
  Js.includes n1 n2 = true ->
  message_includes n2 e = true -> message_includes n1 e = true.
Proof.
  unfold message_includes. destruct (err_message e); [| discriminate].
  apply includes_trans.
Qed.

Lemma isUtf8Error_eq (e : JsError) : isUtf8Error e = message_includes "UTF-8" e.
Proof.
  unfold isUtf8Error.
  destruct (message_includes "UTF-8" e) eqn:H1; [reflexivity |].
  destruct (message_includes "stream did not contain valid UTF-8" e) eqn:H2;
    [| reflexivity].
  assert (I : Js.includes "UTF-8" "stream did not contain valid UTF-8" = true)
    by reflexivity.
  rewrite (message_includes_trans _ _ e I H2) in H1. discriminate.
Qed.

(** ** Counting effects through the component's code *)

Lemma repair_is_not_mirror (e : Effect) :
  is_mirror_invoke e = true -> is_repair_invoke e = false.
Proof. destruct e as [[] | | | |]; simpl; congruence. Qed.

Lemma clearInterval_is_not_mirror (e : Effect) :
  is_mirror_invoke e = true -> is_clearInterval e = false.
Proof. destruct e as [[] | | | |]; simpl; congruence. Qed.

Lemma status_is_not_mirror (e : Effect) :
  is_mirror_invoke e = true -> is_status_invoke e = false.
Proof. destruct e as [[] | | | |]; simpl; congruence. Qed.

Lemma submit_is_not_mirror (t : Task) :
  is_mirror_task t = true -> is_submit_task t = false.
Proof. unfold is_mirror_task, is_submit_task. destruct (task_frame t); congruence. Qed.

Lemma return_to_frame (stack : list Ret) (w : World) :
  let w' := return_to stack w in
  trace w' = trace w /\ pending w' = pending w /\ timeouts w' = timeouts w
  /\ intervals w' = intervals w
  /\ progressLogs (comp w') = progressLogs (comp w)
  /\ isRepairingConfig (comp w') = isRepairingConfig (comp w).
Proof.
  revert w. induction stack as [| r stack IH]; intros w; simpl.
  - unfold skip. repeat split.
  - destruct r; try apply IH.
    unfold seq. destruct (appConfig (comp w)); [| apply IH].
    specialize (IH (modify (set_persistentLogs (processing_logs a)) w)).
    simpl in IH. exact IH.
Qed.

(** What [loadConfiguration] does with a rejected load: one
    [debug_and_repair_config] goes out when the error carries a
    signature, none otherwise; the flag is not touched. *)
Lemma loadConfiguration_rejected (now : N) (stack : list Ret) (e : JsError)
    (w : World) :
  exists k, loadConfiguration_resume now stack (Rejected e) = Some k
  /\ count is_repair_invoke (trace (k w)) =
     count is_repair_invoke (trace w) + (if isCorruption e then 1 else 0)
  /\ isRepairingConfig (comp (k w)) = isRepairingConfig (comp w).
Proof.
  eexists. split; [reflexivity |].
  unfold isCorruption, seq.
  set (w0 := modify (set_configLoaded false)
               (console c_error "Error loading configuration:" w)).
  assert (T0 : count is_repair_invoke (trace w0) = count is_repair_invoke (trace w)).
  { subst w0. simpl. rewrite count_snoc. simpl. lia. }
  assert (R0 : isRepairingConfig (comp w0) = isRepairingConfig (comp w))
    by reflexivity.
  destruct (isUtf8Error e || isDeserializationError e).
  - unfold repairConfiguration, seq.
    match goal with
    | |- context [addLog now ?m1 info (?f w0)] =>
        set (w1 := f w0); set (w2 := addLog now m1 info w1)
    end.
    assert (L1 : LogOnly w0 w1).
    { subst w1. destruct (isUtf8Error e); apply addLog_LogOnly. }
    assert (L2 : LogOnly w0 w2).
    { eapply LogOnly_trans; [exact L1 | apply addLog_LogOnly]. }
    split.
    + simpl. rewrite count_snoc.
      rewrite (LogOnly_count _ _ _ repair_is_not_mirror L2), T0. reflexivity.
    + simpl. rewrite (LogOnly_isRepairingConfig _ _ L2). exact R0.
  - match goal with
    | |- context [return_to stack ?x] => set (w1 := x)
    end.
    assert (L1 : LogOnly w0 w1) by apply addLog_LogOnly.
    destruct (return_to_frame stack w1) as (Ht & _ & _ & _ & _ & Hr).
    split.
    + rewrite Ht, (LogOnly_count _ _ _ repair_is_not_mirror L1), T0. lia.
    + rewrite Hr, (LogOnly_isRepairingConfig _ _ L1). exact R0.
Qed.

(** What [repairConfiguration] does with a successful repair: it calls
    [loadConfiguration] again, whatever came before. *)
Lemma repairConfiguration_reloads (now : N) (stack : list Ret)
    (result : ConfigResult) (w : World) :
  cr_success result = true ->
  exists k w1,
    repairConfiguration_resume now stack (Resolved (P_ConfigResult result)) = Some k
    /\ LogOnly w w1
    /\ k w = loadConfiguration (R_repairConfiguration :: stack) w1.
Proof.
  intros Hs. eexists. eexists. split; [reflexivity |].
  rewrite Hs. unfold seq. split; [| reflexivity].
  eapply LogOnly_trans; [apply addLog_LogOnly | apply log_report_lines_LogOnly].
Qed.

(** C6 (as the code has it). [loadConfiguration] and [addPersistentLog]
    take an error for a corrupted configuration exactly when its message
    contains [UTF-8], whether or not it names the configuration file,
    or its details name [licitacao360_config.json] and its message
    contains [deserializar] or [trailing characters];
    [initializeConfiguration] takes any one of the four marks.  Every
    error with an encoding or deserialization mark that names the file is
    among them.  [loadConfiguration] sends one repair call for an error
    it classifies so and none for any other. *)
Theorem corruption_signature_as_coded (e : JsError) :
  isCorruption e =
    (message_includes "UTF-8" e
     || (details_includes "licitacao360_config.json" e
         && (message_includes "deserializar" e
             || message_includes "trailing characters" e)))
  /\ isConfigError e =
       (details_includes "licitacao360_config.json" e
        || message_includes "UTF-8" e
        || message_includes "deserializar" e
        || message_includes "trailing characters" e)
  /\ implb (spec_corruption_signature e) (isCorruption e) = true
  /\ implb (spec_corruption_signature e) (isConfigError e) = true
  /\ forall now stack w,
       exists k, loadConfiguration_resume now stack (Rejected e) = Some k
       /\ count is_repair_invoke (trace (k w)) =
          count is_repair_invoke (trace w) + (if isCorruption e then 1 else 0).
Proof.
  assert (E : isCorruption e =
              (message_includes "UTF-8" e
               || (details_includes "licitacao360_config.json" e
                   && (message_includes "deserializar" e
                       || message_includes "trailing characters" e)))).
  { unfold isCorruption. rewrite isUtf8Error_eq. reflexivity. }
  split; [exact E |]. split; [reflexivity |]. split; [| split].
  - rewrite E. unfold spec_corruption_signature.
    destruct (message_includes "UTF-8" e), (message_includes "deserializar" e),
      (message_includes "trailing characters" e),
      (details_includes "licitacao360_config.json" e); reflexivity.
  - unfold isConfigError, spec_corruption_signature.
    destruct (message_includes "UTF-8" e), (message_includes "deserializar" e),
      (message_includes "trailing characters" e),
      (details_includes "licitacao360_config.json" e); reflexivity.
  - intros now stack w.
    destruct (loadConfiguration_rejected now stack e w) as [k [Hk [Hc _]]].
    exists k. auto.
Qed.

(** C6 fails as stated: an error whose message has the encoding mark and
    which does not name the configuration file is classified as
    corruption by [loadConfiguration], and an error that names the file
    with no encoding or deserialization mark is classified so by
    [initializeConfiguration]. *)
Lemma corruption_signature_without_file_identity :
  ~ (isCorruption utf8_error = true <-> spec_corruption_signature utf8_error = true)
  /\ ~ (isConfigError permission_error = true
        <-> spec_corruption_signature permission_error = true).
Proof.
  split; intros [H _]; specialize (H eq_refl); discriminate H.
Qed.

(** The [catch] block of [addPersistentLog] in full.  When
    [add_config_log] is rejected, it writes to the console only: the
    component, and with it the transient log, is unchanged, [addLog] is
    not called and no backend call goes out.  When the error carries a
    corruption signature and no repair is running, it arms one timer of
    100 ms for [performAutomaticRepair] and does not run the repair
    itself; otherwise it arms nothing. *)
Theorem addPersistentLog_failure_is_console_only (e : JsError) (w : World) :
  let w' := addPersistentLog_catch e w in
  addPersistentLog_resume [] (Rejected e) = Some (addPersistentLog_catch e)
  /\ comp w' = comp w
  /\ pending w' = pending w
  /\ new_effects w w' =
     [Console c_error "Error adding persistent log:";
      Console c_warn "Persistent logging disabled due to configuration error"]
     ++ (if isCorruption e then
           Console c_warn "Configuration file appears corrupted (UTF-8 or JSON issue)"
           :: (if isRepairingConfig (comp w) then []
               else [Console c_log "Triggering automatic config repair...";
                     SetTimeout (next_timer w) 100])
         else [])
  /\ timeouts w' =
     (if isCorruption e && negb (isRepairingConfig (comp w))
      then timeouts w ++ [(next_timer w, T_performAutomaticRepair)]
      else timeouts w)
  /\ count is_invoke (new_effects w w') = 0.
Proof.
  intros w'. subst w'. split; [reflexivity |].
  unfold addPersistentLog_catch, isCorruption, seq, branch.
  destruct (isUtf8Error e || isDeserializationError e); simpl.
  - destruct (isRepairingConfig (comp w)) eqn:Hr; simpl; rewrite ?Hr; simpl.
    + rewrite (new_effects_app w _
                 [Console c_error "Error adding persistent log:";
                  Console c_warn "Persistent logging disabled due to configuration error";
                  Console c_warn "Configuration file appears corrupted (UTF-8 or JSON issue)"])
        by (simpl; rewrite <- !app_assoc; reflexivity).
      repeat split.
    + rewrite (new_effects_app w _
                 [Console c_error "Error adding persistent log:";
                  Console c_warn "Persistent logging disabled due to configuration error";
                  Console c_warn "Configuration file appears corrupted (UTF-8 or JSON issue)";
                  Console c_log "Triggering automatic config repair...";
                  SetTimeout (next_timer w) 100])
        by (simpl; rewrite <- !app_assoc; reflexivity).
      repeat split.
  - rewrite (new_effects_app w _
               [Console c_error "Error adding persistent log:";
                Console c_warn "Persistent logging disabled due to configuration error"])
      by (simpl; rewrite <- !app_assoc; reflexivity).
    unfold skip. repeat split.
Qed.

(** After the mirror call of a logged line is rejected, the transient
    log holds that line and nothing about the failure, which went to
    the console alone. *)
Lemma mirror_failure_is_not_in_the_transient_log :
  let w := one_mirror_in_flight in
  let w' := step 2%N (E_settle 0 (Rejected plain_error)) w in
  progressLogs (comp w') = [mkLogEntry "pasta selecionada" 1%N info]
  /\ count is_error_entry (progressLogs (comp w')) = 0
  /\ new_effects w w' =
     [Console c_error "Error adding persistent log:";
      Console c_warn "Persistent logging disabled due to configuration error"].
Proof.
  repeat split.
Qed.

(** ** Session Manager *)

(** C7 (as the code has it). When the status call of a poll is rejected,
    the [catch] block of the interval callback reports to the console
    and stops the monitoring: the timer in [progressInterval], if any,
    is cleared and the handle is nulled.  Nothing else changes: no entry
    is added to the transient log, no field marks a failure, and no call
    goes out, so the poll is not retried; the cleared interval does not
    fire again. *)
Theorem poll_failure_stops_monitoring_silently
    (now : N) (sid : string) (e : JsError) (w : World) :
  let w' := poll_catch w in
  poll_resume now sid (Rejected e) = Some poll_catch
  /\ comp w' = set_progressInterval None (comp w)
  /\ progressLogs (comp w') = progressLogs (comp w)
  /\ processing (comp w') = processing (comp w)
  /\ progressInterval (comp w') = None
  /\ pending w' = pending w
  /\ match progressInterval (comp w) with
     | Some h =>
         new_effects w w' =
           [Console c_error "Error getting processing status:"; ClearInterval h]
         /\ step now (E_interval h) w' = w'
     | None =>
         new_effects w w' = [Console c_error "Error getting processing status:"]
     end.
Proof.
  intros w'. subst w'. split; [reflexivity |].
  unfold poll_catch, seq, stopProgressMonitoring. simpl.
  destruct (progressInterval (comp w)) as [h |] eqn:Hh; simpl.
  - repeat split.
    + apply new_effects_app. simpl. rewrite <- app_assoc. reflexivity.
    + assert (F : forall l : list (positive * string),
                 find (fun t => Pos.eqb (fst t) h)
                   (filter (fun t => negb (Pos.eqb (fst t) h)) l) = None).
      { induction l as [| a l IH]; simpl; [reflexivity |].
        destruct (Pos.eqb (fst a) h) eqn:Ha; simpl; [exact IH |].
        rewrite Ha. exact IH. }
      rewrite F. reflexivity.
  - repeat split.
    + destruct (comp w); simpl in *. subst. reflexivity.
    + exact Hh.
    + apply new_effects_app. reflexivity.
Qed.

(** C7 fails as stated: a rejected status call leaves the transient log
    without any error entry and the component as it was, but for the
    nulled timer handle. *)
Lemma poll_failure_logs_no_error_entry :
  let w := one_poll_in_flight in
  let w' := step 3%N (E_settle 1 (Rejected plain_error)) w in
  count is_error_entry (progressLogs (comp w')) = 0
  /\ count is_mirror_invoke (new_effects w w') = 0
  /\ comp w' = set_progressInterval None (comp w).
Proof.
  repeat split.
Qed.

(** The common opening of the four submit operations. *)
Lemma submit_opening (now : N) (msg : string) (s : Submit) (mk : World -> Call)
    (w : World) :
  let w' :=
    (modify (set_processing true) ;;
     modify (set_processingResult None) ;;
     modify (set_progressLogs []) ;;
     modify (set_totalProposals 0) ;;
     modify (set_currentSessionId (provisional_session_id now)) ;;
     addLog now msg info ;;
     fun w0 => await_invoke (mk w0) (F_submit s) [] w0) w in
  processing (comp w') = true
  /\ submits_in_flight w' = S (submits_in_flight w)
  /\ currentSessionId (comp w') = provisional_session_id now
  /\ progressLogs (comp w') = [mkLogEntry msg now info].
Proof.
  unfold seq.
  set (w0 := modify (set_currentSessionId (provisional_session_id now)) _).
  set (w1 := addLog now msg info w0).
  assert (L : LogOnly w0 w1) by apply addLog_LogOnly.
  cbv zeta. simpl. repeat split.
  - rewrite (LogOnly_processing _ _ L). reflexivity.
  - unfold submits_in_flight. simpl. rewrite count_snoc. simpl.
    rewrite (LogOnly_count_task _ _ _ submit_is_not_mirror L). simpl. lia.
  - destruct L as [-> _ _ _ _ _]. reflexivity.
  - subst w1. rewrite addLog_progressLogs. reflexivity.
Qed.

(** X12. However a submit operation ends, its [finally] block has
    cleared the flag and stopped the monitoring it may have started in
    the same turn. *)
Lemma submit_resume_stops_monitoring (now : N) (s : Submit) (r : Response)
    (k : Sync) (w : World) :
  submit_resume now s r = Some k ->
  processing (comp (k w)) = false /\ progressInterval (comp (k w)) = None.
Proof.
  assert (F : forall w0, processing (comp (submit_finally w0)) = false
                         /\ progressInterval (comp (submit_finally w0)) = None).
  { intros w0. unfold submit_finally, seq, stopProgressMonitoring. simpl.
    destruct (progressInterval (comp w0)) eqn:H; simpl; auto. }
  unfold submit_resume. destruct r as [[] |]; intros [= <-]; unfold seq; apply F.
Qed.

(** C1 (as the code has it). No submit operation tests [processing].
    With its required paths present it always starts, whether or not a
    session is active: it sets [processing], replaces the session id by
    a new provisional one, empties the transient log but for its own
    start line, and sends one more worker call, which joins those still
    in flight.  With a required path missing it logs an error line and
    starts nothing. *)
Theorem submit_ignores_the_processing_flag
    (now : N) (s : Submit) (fileInfo : option PdfFileInfo) (w : World) :
  let w' := submit now s fileInfo w in
  if has_required_paths s fileInfo (comp w)
  then processing (comp w') = true
       /\ submits_in_flight w' = S (submits_in_flight w)
       /\ currentSessionId (comp w') = provisional_session_id now
       /\ List.length (progressLogs (comp w')) = 1
  else processing (comp w') = processing (comp w)
       /\ submits_in_flight w' = submits_in_flight w
       /\ exists entry, Js.last_elem (progressLogs (comp w')) = Some entry
                        /\ type entry = error.
Proof.
  intros w'. subst w'.
  assert (G : forall msg mk,
             let w' :=
               (modify (set_processing true) ;;
                modify (set_processingResult None) ;;
                modify (set_progressLogs []) ;;
                modify (set_totalProposals 0) ;;
                modify (set_currentSessionId (provisional_session_id now)) ;;
                addLog now msg info ;;
                fun w0 => await_invoke (mk w0) (F_submit s) [] w0) w in
             processing (comp w') = true
             /\ submits_in_flight w' = S (submits_in_flight w)
             /\ currentSessionId (comp w') = provisional_session_id now
             /\ List.length (progressLogs (comp w')) = 1).
  { intros msg mk.
    destruct (submit_opening now msg s mk w) as (A & B & C & D).
    cbv zeta. rewrite D. auto. }
  assert (R : forall msg,
             let w' := addLog now msg error w in
             processing (comp w') = processing (comp w)
             /\ submits_in_flight w' = submits_in_flight w
             /\ exists entry, Js.last_elem (progressLogs (comp w')) = Some entry
                              /\ type entry = error).
  { intros msg. cbv zeta.
    assert (L := addLog_LogOnly now msg error w).
    split; [apply (LogOnly_processing _ _ L) |].
    split; [apply (LogOnly_count_task _ _ _ submit_is_not_mirror L) |].
    exists (mkLogEntry msg now error).
    rewrite addLog_progressLogs. simpl. split; [apply pushed_last | reflexivity]. }
  destruct s; unfold submit, has_required_paths.
  - unfold processFile, branch.
    destruct (Js.truthy (selectedFile (comp w))), (Js.truthy (outputDirectory (comp w)));
      cbn [negb orb andb]; [apply G | apply R | apply R | apply R].
  - unfold processDirectory, branch.
    destruct (Js.truthy (pdfDirectory (comp w))), (Js.truthy (outputDirectory (comp w)));
      cbn [negb orb andb]; [apply G | apply R | apply R | apply R].
  - unfold processFixedDirectory. apply G.
  - destruct fileInfo as [fi |]; unfold processSinglePdfFile; [| apply R].
    unfold branch. destruct (Js.truthy (outputDirectory (comp w)));
      cbn [negb]; [apply G | apply R].
Qed.

(** C1 fails as stated: a second [processFile] called while the first is
    still in flight is not refused; two worker submissions are in flight
    at once and the session id is that of the second. *)
Lemma second_submit_is_not_refused :
  let w1 := step 1000%N (E_call A_processFile) ready_world in
  let w2 := run two_submits ready_world in
  processing (comp w1) = true
  /\ submits_in_flight w1 = 1
  /\ submits_in_flight w2 = 2
  /\ currentSessionId (comp w2) = "1001"
  /\ new_effects w1 w2 =
     [Invoke (add_config_log "🔄 Iniciando processamento do arquivo..." info
                (Some "1001"));
      Invoke (process_pdf_file "/a/edital.pdf" "/b" false)].
Proof.
  repeat split.
Qed.

(** The interval callback on a terminal status: the status is stored,
    the lines of the status are logged, and then the monitoring is
    stopped, the completion line logged and the cleanup call sent. *)
Lemma poll_status_terminal (now : N) (sid : string) (status : ProcessingStatus)
    (w : World) :
  is_processing status = false ->
  exists w1,
    LogOnly (modify (set_processingStatus (Some status)) w) w1
    /\ poll_status now sid status w =
       await_invoke (clear_processing_state sid) F_poll_clear []
         (addLog now "✅ Processamento concluído" success
            (stopProgressMonitoring w1)).
Proof.
  intros Hterm. unfold poll_status, seq. rewrite Hterm.
  change (negb false) with true. cbv beta iota.
  match goal with
  | |- exists w1, _ /\ await_invoke _ _ _ (addLog _ _ _ (stopProgressMonitoring ?x)) = _ =>
      exists x
  end.
  split; [| reflexivity].
  match goal with
  | |- LogOnly ?w0 (_ ?a) => apply LogOnly_trans with a
  end.
  - destruct (current_file status) as [f |]; [| apply LogOnly_refl].
    destruct (Js.truthy f); [apply addLog_LogOnly | apply LogOnly_refl].
  - destruct (0 <? List.length (errors status)); [| apply LogOnly_refl].
    apply for_each_LogOnly. intros a w2. apply addLog_LogOnly.
Qed.

Lemma stopProgressMonitoring_clears (w : World) :
  let w' := stopProgressMonitoring w in
  progressInterval (comp w') = None
  /\ progressLogs (comp w') = progressLogs (comp w)
  /\ count is_clearInterval (trace w') =
     count is_clearInterval (trace w)
     + (match progressInterval (comp w) with Some _ => 1 | None => 0 end).
Proof.
  unfold stopProgressMonitoring.
  destruct (progressInterval (comp w)) eqn:H; simpl.
  - rewrite count_snoc. simpl. auto.
  - rewrite H. auto.
Qed.

Lemma cleanup_is_not_mirror (e : Effect) :
  is_mirror_invoke e = true -> is_cleanup_invoke e = false.
Proof. destruct e as [[] | | | |]; simpl; congruence. Qed.

Lemma poll_status_terminal_facts (now : N) (sid : string)
    (status : ProcessingStatus) (w : World) :
  is_processing status = false ->
  let w' := poll_status now sid status w in
  progressInterval (comp w') = None
  /\ count is_clearInterval (trace w') =
     count is_clearInterval (trace w)
     + (match progressInterval (comp w) with Some _ => 1 | None => 0 end)
  /\ Js.last_elem (progressLogs (comp w')) = Some (completion_entry now)
  /\ count is_cleanup_invoke (trace w') = S (count is_cleanup_invoke (trace w)).
Proof.
  intros Hterm.
  destruct (poll_status_terminal now sid status w Hterm) as [w1 [L ->]].
  destruct (stopProgressMonitoring_clears w1) as (S1 & S2 & S3).
  assert (S4 : count is_cleanup_invoke (trace (stopProgressMonitoring w1))
               = count is_cleanup_invoke (trace w1)).
  { unfold stopProgressMonitoring. destruct (progressInterval (comp w1)); simpl;
      [rewrite count_snoc; simpl; lia | reflexivity]. }
  set (w2 := stopProgressMonitoring w1) in *.
  assert (L2 : LogOnly w2 (addLog now "✅ Processamento concluído" success w2))
    by apply addLog_LogOnly.
  cbv zeta. simpl. repeat split.
  - rewrite (LogOnly_progressInterval _ _ L2). exact S1.
  - rewrite count_snoc. simpl.
    rewrite (LogOnly_count _ _ _ clearInterval_is_not_mirror L2), S3.
    rewrite (LogOnly_count _ _ _ clearInterval_is_not_mirror L).
    rewrite (LogOnly_progressInterval _ _ L). simpl. lia.
  - rewrite addLog_progressLogs. simpl. apply pushed_last.
  - rewrite count_snoc. simpl.
    rewrite (LogOnly_count _ _ _ cleanup_is_not_mirror L2), S4.
    rewrite (LogOnly_count _ _ _ cleanup_is_not_mirror L). simpl. lia.
Qed.

(** C2 (as the code has it). On a terminal status the interval callback
    clears the timer in [progressInterval] once, if there is one, and
    nulls the handle; a second terminal status clears no timer.  Each of
    the two observations appends the completion line to the transient
    log and sends the cleanup call: the duplicate logs completion
    again. *)
Theorem terminal_status_clears_once_and_logs_each_time
    (now1 now2 : N) (sid1 sid2 : string) (st1 st2 : ProcessingStatus) (w : World) :
  is_processing st1 = false ->
  is_processing st2 = false ->
  let w1 := poll_status now1 sid1 st1 w in
  let w2 := poll_status now2 sid2 st2 w1 in
  count is_clearInterval (trace w1) =
    count is_clearInterval (trace w)
    + (match progressInterval (comp w) with Some _ => 1 | None => 0 end)
  /\ progressInterval (comp w1) = None
  /\ count is_clearInterval (trace w2) = count is_clearInterval (trace w1)
  /\ Js.last_elem (progressLogs (comp w1)) = Some (completion_entry now1)
  /\ Js.last_elem (progressLogs (comp w2)) = Some (completion_entry now2)
  /\ count is_cleanup_invoke (trace w2) = 2 + count is_cleanup_invoke (trace w).
Proof.
  intros H1 H2 w1 w2.
  destruct (poll_status_terminal_facts now1 sid1 st1 w H1) as (A1 & B1 & C1 & D1).
  destruct (poll_status_terminal_facts now2 sid2 st2 w1 H2) as (A2 & B2 & C2 & D2).
  fold w1 in A1, B1, C1, D1. fold w2 in A2, B2, C2, D2.
  rewrite A1 in B2. repeat split; auto; lia.
Qed.

Lemma terminal_status_clears_once_and_logs_each_time_witness :
  let w := two_polls_in_flight in
  let w1 := poll_status 4%N "s1" terminal_status w in
  let w2 := poll_status 5%N "s1" terminal_status w1 in
  count is_clearInterval (trace w1) =
    count is_clearInterval (trace w)
    + (match progressInterval (comp w) with Some _ => 1 | None => 0 end)
  /\ progressInterval (comp w1) = None
  /\ count is_clearInterval (trace w2) = count is_clearInterval (trace w1)
  /\ Js.last_elem (progressLogs (comp w1)) = Some (completion_entry 4%N)
  /\ Js.last_elem (progressLogs (comp w2)) = Some (completion_entry 5%N)
  /\ count is_cleanup_invoke (trace w2) = 2 + count is_cleanup_invoke (trace w).
Proof.
  apply (terminal_status_clears_once_and_logs_each_time 4%N 5%N "s1" "s1"
           terminal_status terminal_status two_polls_in_flight);
    reflexivity.
Defined.

(** C2 fails as stated: when two polls in flight both come back
    terminal, the timer is cleared once and the completion line is in
    the transient log twice. *)
Lemma duplicate_tick_logs_completion_twice :
  count is_clearInterval (trace duplicate_terminal_observation) = 1
  /\ count is_completion_entry
       (progressLogs (comp duplicate_terminal_observation)) = 2
  /\ progressLogs (comp duplicate_terminal_observation) =
     [mkLogEntry "📊 Monitoramento de progresso iniciado" 1%N info;
      completion_entry 4%N; completion_entry 5%N].
Proof.
  repeat split.
Qed.

(** Beside the [catch] block: when the mirror call succeeds and the
    reload that follows it is rejected, [loadConfiguration] logs the
    rejection with [addLog] as an error, and that line is sent to
    [add_config_log] in turn. *)
Lemma reload_failure_after_mirroring_is_mirrored_again :
  let w := run [(2%N, E_settle 0 (Resolved (P_ConfigResult repaired)));
                (3%N, E_settle 1 (Rejected plain_error))] one_mirror_in_flight in
  map type (progressLogs (comp w)) = [info; error]
  /\ map task_call (pending w) =
     [add_config_log "❌ Erro ao carregar configuração: connection closed" error None].
Proof.
  repeat split.
Qed.

(** C5, on the code: one call of [loadConfiguration] whose load is
    rejected with the encoding signature twice sends
    [debug_and_repair_config] twice, and [isRepairingConfig] is false in
    every world of the run: [repairConfiguration] neither sets the flag
    nor bounds the retries. *)
Theorem loadConfiguration_repairs_again_without_the_flag :
  count is_repair_invoke (trace (run corrupted_twice initial_world)) = 2
  /\ forallb (fun w => negb (isRepairingConfig (comp w)))
       (states corrupted_twice initial_world) = true
  /\ configLoaded (comp (run corrupted_twice initial_world)) = true
  /\ pending (run corrupted_twice initial_world) = [].
Proof.
  repeat split.
Qed.

(** ** The repair cycle of [loadConfiguration] has no bound *)

Lemma take_task_newest (id : nat) (older : list Task) (t : Task) (newer : list Task) :
  Forall (fun t0 => task_id t0 < id) older ->
  task_id t = id ->
  take_task id (older ++ t :: newer) = Some (t, older ++ newer).
Proof.
  intros Hold Ht. induction Hold as [| a older Ha Hold IH]; simpl.
  - rewrite Ht, Nat.eqb_refl. reflexivity.
  - destruct (task_id a =? id) eqn:E.
    + apply Nat.eqb_eq in E. lia.
    + rewrite IH. reflexivity.
Qed.

Lemma step_settle (now : N) (id : nat) (r : Response) (w : World) (t : Task)
    (rest : list Task) (k : Sync) :
  take_task id (pending w) = Some (t, rest) ->
  resume now (task_frame t) (task_stack t) r = Some k ->
  step now (E_settle id r) w = k (with_pending rest w).
Proof.
  intros Ht Hk. unfold step. rewrite Ht, Hk. reflexivity.
Qed.

Lemma run_app (evs1 evs2 : list (N * Event)) (w : World) :
  run (evs1 ++ evs2) w = run evs2 (run evs1 w).
Proof. unfold run. apply fold_left_app. Qed.

(** A line that is mirrored: one more call in flight, nothing else that
    the cycle looks at. *)
Lemma addLog_mirrored (now : N) (msg : string) (kind : LogType) (w : World) :
  kind <> progress ->
  isRepairingConfig (comp w) = false ->
  let w' := addLog now msg kind w in
  (exists m, pending w' = pending w ++ [m] /\ task_id m = next_task w)
  /\ next_task w' = S (next_task w)
  /\ isRepairingConfig (comp w') = false
  /\ count is_repair_invoke (trace w') = count is_repair_invoke (trace w).
Proof.
  intros Hk Hr. cbv zeta.
  assert (L := addLog_LogOnly now msg kind w).
  rewrite (LogOnly_isRepairingConfig _ _ L), (LogOnly_count _ _ _ repair_is_not_mirror L).
  rewrite addLog_eq, (not_duplicate_unless_progress _ _ _ Hk).
  unfold mirrors. rewrite Hr.
  destruct kind; try congruence; simpl; repeat split; eauto.
Qed.

(** The load in flight is rejected with the encoding signature: two
    lines are logged and the repair call goes out. *)
Lemma load_rejected_step (now : N) (id : nat) (stack : list Ret)
    (older : list Task) (w : World) :
  pending w = older ++ [mkTask id load_app_config F_loadConfiguration stack] ->
  Forall (fun t => task_id t < id) older ->
  next_task w = S id ->
  isRepairingConfig (comp w) = false ->
  let w' := step now (E_settle id (Rejected utf8_error)) w in
  (exists m1 m2,
      pending w' =
        (older ++ [m1; m2])
        ++ [mkTask (id + 3) debug_and_repair_config F_repairConfiguration
              (R_loadConfiguration :: stack)]
      /\ task_id m1 = id + 1 /\ task_id m2 = id + 2)
  /\ next_task w' = id + 4
  /\ isRepairingConfig (comp w') = false
  /\ count is_repair_invoke (trace w') = S (count is_repair_invoke (trace w)).
Proof.
  intros Hp Hold Hn Hf. cbv zeta.
  rewrite (step_settle now id _ w
             (mkTask id load_app_config F_loadConfiguration stack) older
             (console c_error "Error loading configuration:" ;;
              modify (set_configLoaded false) ;;
              addLog now "⚠️ Arquivo de configuração contém dados UTF-8 inválidos" error ;;
              repairConfiguration now (R_loadConfiguration :: stack)));
    [| rewrite Hp; rewrite (take_task_newest id older _ [] Hold);
       [rewrite app_nil_r; reflexivity | reflexivity]
     | reflexivity].
  unfold repairConfiguration, seq.
  set (w0 := modify (set_configLoaded false)
               (console c_error "Error loading configuration:" (with_pending older w))).
  assert (P0 : pending w0 = older) by reflexivity.
  assert (N0 : next_task w0 = S id) by exact Hn.
  assert (F0 : isRepairingConfig (comp w0) = false) by exact Hf.
  assert (C0 : count is_repair_invoke (trace w0) = count is_repair_invoke (trace w)).
  { subst w0. simpl. rewrite count_snoc. simpl. lia. }
  match goal with
  | |- context [addLog now ?m error w0] =>
      destruct (addLog_mirrored now m error w0 ltac:(discriminate) F0)
        as ((m1 & P1 & I1) & N1 & F1 & C1);
      set (w1 := addLog now m error w0) in *
  end.
  match goal with
  | |- context [addLog now ?m info w1] =>
      destruct (addLog_mirrored now m info w1 ltac:(discriminate) F1)
        as ((m2 & P2 & I2) & N2 & F2 & C2);
      set (w2 := addLog now m info w1) in *
  end.
  repeat split.
  - exists m1, m2. simpl. rewrite P2, P1, P0, N2, N1, N0, <- !app_assoc. simpl.
    repeat split; try lia. repeat f_equal. lia.
  - simpl. lia.
  - exact F2.
  - simpl. rewrite count_snoc. simpl. lia.
Qed.

(** The repair call in flight is resolved with success: one line is
    logged and [loadConfiguration] is called again. *)
Lemma repair_resolved_step (now : N) (id : nat) (stack : list Ret)
    (older : list Task) (w : World) :
  pending w =
    older ++ [mkTask id debug_and_repair_config F_repairConfiguration stack] ->
  Forall (fun t => task_id t < id) older ->
  next_task w = S id ->
  isRepairingConfig (comp w) = false ->
  let w' := step now (E_settle id (Resolved (P_ConfigResult repaired))) w in
  (exists m,
      pending w' =
        (older ++ [m])
        ++ [mkTask (id + 2) load_app_config F_loadConfiguration
              (R_repairConfiguration :: stack)]
      /\ task_id m = id + 1)
  /\ next_task w' = id + 3
  /\ isRepairingConfig (comp w') = false
  /\ count is_repair_invoke (trace w') = count is_repair_invoke (trace w).
Proof.
  intros Hp Hold Hn Hf. cbv zeta.
  rewrite (step_settle now id _ w
             (mkTask id debug_and_repair_config F_repairConfiguration stack) older
             (addLog now "✅ Configuração reparada com sucesso" success ;;
              log_report_lines now [""] ;;
              loadConfiguration (R_repairConfiguration :: stack)));
    [| rewrite Hp; rewrite (take_task_newest id older _ [] Hold);
       [rewrite app_nil_r; reflexivity | reflexivity]
     | reflexivity].
  unfold seq.
  set (w0 := with_pending older w).
  assert (F0 : isRepairingConfig (comp w0) = false) by exact Hf.
  match goal with
  | |- context [addLog now ?m success w0] =>
      destruct (addLog_mirrored now m success w0 ltac:(discriminate) F0)
        as ((m1 & P1 & I1) & N1 & F1 & C1);
      set (w1 := addLog now m success w0) in *
  end.
  change (log_report_lines now [""] w1) with w1.
  assert (N0 : next_task w0 = S id) by exact Hn.
  assert (P0 : pending w0 = older) by reflexivity.
  repeat split.
  - exists m1. simpl. rewrite P1, P0, N1, N0. simpl.
    repeat split; try lia. repeat f_equal. lia.
  - simpl. lia.
  - exact F1.
  - simpl. rewrite count_snoc. simpl. rewrite C1. subst w0. simpl. lia.
Qed.

Lemma corrupted_round_step (k : nat) (w : World) :
  BetweenRounds k w -> BetweenRounds (S k) (run (corrupted_round k) w).
Proof.
  intros [Hn Hf Hc (stack & older & Hp & Hold)].
  change (run (corrupted_round k) w)
    with (step (N.of_nat (2 * k + 3))
            (E_settle (5 * k + 3) (Resolved (P_ConfigResult repaired)))
            (step (N.of_nat (2 * k + 2)) (E_settle (5 * k) (Rejected utf8_error)) w)).
  assert (Hn' : next_task w = S (5 * k)) by lia.
  destruct (load_rejected_step (N.of_nat (2 * k + 2)) (5 * k) stack older w
              Hp Hold Hn' Hf) as ((m1 & m2 & P1 & I1 & I2) & N1 & F1 & C1).
  set (w1 := step (N.of_nat (2 * k + 2)) (E_settle (5 * k) (Rejected utf8_error)) w) in *.
  assert (Hold1 : Forall (fun t => task_id t < 5 * k + 3) (older ++ [m1; m2])).
  { apply Forall_app. split.
    - eapply Forall_impl; [| exact Hold]. simpl. intros; lia.
    - apply Forall_cons; [lia |]. apply Forall_cons; [lia | apply Forall_nil]. }
  assert (N1' : next_task w1 = S (5 * k + 3)) by lia.
  destruct (repair_resolved_step (N.of_nat (2 * k + 3)) (5 * k + 3)
              (R_loadConfiguration :: stack) (older ++ [m1; m2]) w1
              P1 Hold1 N1' F1) as ((m3 & P2 & I3) & N2 & F2 & C2).
  constructor.
  - lia.
  - exact F2.
  - lia.
  - exists (R_repairConfiguration :: R_loadConfiguration :: stack),
      ((older ++ [m1; m2]) ++ [m3]).
    split.
    + rewrite P2. replace (5 * k + 3 + 2) with (5 * S k) by lia. reflexivity.
    + apply Forall_app. split.
      * eapply Forall_impl; [| exact Hold1]. simpl. intros; lia.
      * apply Forall_cons; [lia | apply Forall_nil].
Qed.

Lemma corrupted_rounds_steps (n k : nat) (w : World) :
  BetweenRounds k w -> BetweenRounds (k + n) (run (corrupted_rounds k n) w).
Proof.
  revert k w. induction n as [| n IH]; intros k w H.
  - rewrite Nat.add_0_r. exact H.
  - change (corrupted_rounds k (S n))
      with (corrupted_round k ++ corrupted_rounds (S k) n).
    rewrite run_app.
    replace (k + S n) with (S k + n) by lia.
    apply IH, corrupted_round_step, H.
Qed.

(** One call of [loadConfiguration] sends as many repair calls as the
    backend rejects loads: [n] rounds leave [n] repair calls in the
    trace, the flag never raised and the next load in flight. *)
Lemma repair_cycle_is_unbounded (n : nat) :
  BetweenRounds n (run (always_corrupted n) initial_world).
Proof.
  unfold always_corrupted.
  change (run ((1%N, E_call A_loadConfiguration) :: corrupted_rounds 0 n) initial_world)
    with (run (corrupted_rounds 0 n) (step 1%N (E_call A_loadConfiguration) initial_world)).
  apply (corrupted_rounds_steps n 0).
  constructor; try reflexivity.
  exists [], []. split; [reflexivity | constructor].
Qed.

(** ** The mirror of a failed reload *)

(** The mirror call in flight resolves: [addPersistentLog] reloads the
    configuration. *)
Lemma mirror_resolved_step (now : N) (id : nat) (c : Call) (p : Payload) (w : World) :
  pending w = [mkTask id c F_addPersistentLog []] ->
  next_task w = S id ->
  let w' := step now (E_settle id (Resolved p)) w in
  pending w' = [mkTask (S id) load_app_config F_loadConfiguration [R_addPersistentLog]]
  /\ next_task w' = S (S id)
  /\ comp w' = comp w
  /\ count is_mirror_invoke (trace w') = count is_mirror_invoke (trace w).
Proof.
  intros Hp Hn. cbv zeta.
  rewrite (step_settle now id _ w (mkTask id c F_addPersistentLog []) []
             (loadConfiguration [R_addPersistentLog]));
    [| rewrite Hp;
       exact (take_task_newest id [] (mkTask id c F_addPersistentLog []) []
                (Forall_nil _) eq_refl)
     | reflexivity].
  unfold loadConfiguration, await_invoke, with_pending. simpl.
  rewrite Hn, count_snoc. simpl. repeat split. lia.
Qed.

(** The reload is rejected with an error that is no corruption:
    [loadConfiguration] logs it as an error line, and [addLog] sends
    that line to [add_config_log]. *)
Lemma reload_rejected_step (now : N) (id : nat) (w : World) :
  pending w = [mkTask id load_app_config F_loadConfiguration [R_addPersistentLog]] ->
  next_task w = S id ->
  isRepairingConfig (comp w) = false ->
  let w' := step now (E_settle id (Rejected plain_error)) w in
  pending w' =
    [mkTask (S id)
       (add_config_log load_error_line error (Js.or_null (currentSessionId (comp w))))
       F_addPersistentLog []]
  /\ next_task w' = S (S id)
  /\ isRepairingConfig (comp w') = false
  /\ count is_mirror_invoke (trace w') = S (count is_mirror_invoke (trace w))
  /\ Js.last_elem (progressLogs (comp w')) = Some (mkLogEntry load_error_line now error).
Proof.
  intros Hp Hn Hf. cbv zeta.
  rewrite (step_settle now id _ w
             (mkTask id load_app_config F_loadConfiguration [R_addPersistentLog]) []
             (console c_error "Error loading configuration:" ;;
              modify (set_configLoaded false) ;;
              addLog now load_error_line error ;;
              return_to [R_addPersistentLog]));
    [| rewrite Hp;
       exact (take_task_newest id []
                (mkTask id load_app_config F_loadConfiguration [R_addPersistentLog]) []
                (Forall_nil _) eq_refl)
     | reflexivity].
  unfold seq.
  set (w0 := modify (set_configLoaded false)
               (console c_error "Error loading configuration:" (with_pending [] w))).
  assert (F0 : isRepairingConfig (comp w0) = false) by exact Hf.
  assert (E : addLog now load_error_line error w0
              = mkWorld
                  (set_progressLogs
                     (pushed (progressLogs (comp w0))
                        (mkLogEntry load_error_line now error)) (comp w0))
                  [mkTask (S id) (mirror_call w0 load_error_line error)
                     F_addPersistentLog []]
                  (intervals w0) (timeouts w0)
                  (trace w0 ++ [Invoke (mirror_call w0 load_error_line error)])
                  (S (S id)) (next_timer w0)).
  { rewrite addLog_eq. cbn [is_duplicate_progress]. cbv zeta.
    unfold mirrors. rewrite F0. cbn [LogType_eqb negb andb].
    assert (N0 : next_task w0 = S id) by exact Hn.
    assert (P0 : pending w0 = []) by reflexivity.
    rewrite N0, P0. reflexivity. }
  rewrite E. clear E.
  destruct (return_to_frame [R_addPersistentLog]
              (mkWorld
                 (set_progressLogs
                    (pushed (progressLogs (comp w0))
                       (mkLogEntry load_error_line now error)) (comp w0))
                 [mkTask (S id) (mirror_call w0 load_error_line error)
                    F_addPersistentLog []]
                 (intervals w0) (timeouts w0)
                 (trace w0 ++ [Invoke (mirror_call w0 load_error_line error)])
                 (S (S id)) (next_timer w0)))
    as (Ht & Hpe & _ & _ & Hl & Hr).
  split; [rewrite Hpe; reflexivity |].
  split; [cbn [return_to seq]; unfold seq, skip;
          destruct (appConfig _); reflexivity |].
  split; [rewrite Hr; exact F0 |].
  split.
  - rewrite Ht. cbn [trace]. rewrite count_snoc.
    assert (T0 : count is_mirror_invoke (trace w0) = count is_mirror_invoke (trace w)).
    { change (trace w0)
        with (trace w ++ [Console c_error "Error loading configuration:"]).
      rewrite count_snoc. simpl. lia. }
    rewrite T0. simpl. lia.
  - rewrite Hl. cbn [comp progressLogs set_progressLogs]. apply pushed_last.
Qed.

Lemma rejected_reload_round_step (k : nat) (w : World) :
  MirrorRound k w -> MirrorRound (S k) (run (rejected_reload_round k) w).
Proof.
  intros [Hn Hf Hc (msg & kind & sid & Hp & _)].
  change (run (rejected_reload_round k) w)
    with (step (N.of_nat (2 * k + 3)) (E_settle (2 * k + 1) (Rejected plain_error))
            (step (N.of_nat (2 * k + 2))
               (E_settle (2 * k) (Resolved (P_ConfigResult repaired))) w)).
  assert (Hn' : next_task w = S (2 * k)) by lia.
  destruct (mirror_resolved_step (N.of_nat (2 * k + 2)) (2 * k) _
              (P_ConfigResult repaired) w Hp Hn') as (P1 & N1 & C1 & M1).
  set (w1 := step (N.of_nat (2 * k + 2))
               (E_settle (2 * k) (Resolved (P_ConfigResult repaired))) w) in *.
  replace (2 * k + 1) with (S (2 * k)) by lia.
  assert (F1 : isRepairingConfig (comp w1) = false) by (rewrite C1; exact Hf).
  destruct (reload_rejected_step (N.of_nat (2 * k + 3)) (S (2 * k)) w1 P1 N1 F1)
    as (P2 & N2 & F2 & M2 & _).
  constructor.
  - rewrite N2. lia.
  - exact F2.
  - rewrite M2, M1, Hc. reflexivity.
  - exists load_error_line, error, (Js.or_null (currentSessionId (comp w1))).
    split; [| right; split; reflexivity].
    rewrite P2. replace (2 * S k) with (S (S (2 * k))) by lia. reflexivity.
Qed.

Lemma rejected_reload_rounds_steps (n k : nat) (w : World) :
  MirrorRound k w -> MirrorRound (k + n) (run (rejected_reload_rounds k n) w).
Proof.
  revert k w. induction n as [| n IH]; intros k w H.
  - rewrite Nat.add_0_r. exact H.
  - change (rejected_reload_rounds k (S n))
      with (rejected_reload_round k ++ rejected_reload_rounds (S k) n).
    rewrite run_app.
    replace (k + S n) with (S k + n) by lia.
    apply IH, rejected_reload_round_step, H.
Qed.

(** The mirror of a line whose reload fails has no end of its own: for
    every [n], after [n] rejected reloads [n + 1] mirror calls have gone
    out, no repair was flagged, and the mirror call of the last error
    line is in flight, ready for the next round. *)
Lemma mirror_cycle_is_unbounded (n : nat) :
  MirrorRound n (run (rejected_reloads n) one_mirror_in_flight).
Proof.
  apply (rejected_reload_rounds_steps n 0).
  constructor; try reflexivity.
  exists "pasta selecionada", info, None. split; [reflexivity | left; reflexivity].
Qed.

(** C3, on the code.  Two things happen that the claim rules out.
    When [add_config_log] is rejected, the failure reaches the console
    and nothing else: the transient log is as it was, with no line about
    the failure.  When [add_config_log] resolves and the reload that
    [addPersistentLog] awaits next is rejected, [loadConfiguration] logs
    the rejection with [addLog] as an error, and that error line is sent
    to [add_config_log] in turn; against a backend that keeps rejecting
    the reload, three rounds leave three error lines in the transient
    log and four mirror calls sent, the last of them in flight, with
    [isRepairingConfig] false in every world of the run. *)
Theorem mirroring_failure_is_lost_or_mirrored_again :
  (let w := one_mirror_in_flight in
   let w' := step 2%N (E_settle 0 (Rejected plain_error)) w in
   progressLogs (comp w') = progressLogs (comp w)
   /\ count is_error_entry (progressLogs (comp w')) = 0
   /\ new_effects w w' =
      [Console c_error "Error adding persistent log:";
       Console c_warn "Persistent logging disabled due to configuration error"])
  /\ (let w := run (rejected_reloads 3) one_mirror_in_flight in
      map type (progressLogs (comp w)) = [info; error; error; error]
      /\ count is_mirror_invoke (trace w) = 4
      /\ map task_call (pending w) = [add_config_log load_error_line error None]
      /\ forallb (fun w0 => negb (isRepairingConfig (comp w0)))
           (states (rejected_reloads 3) one_mirror_in_flight) = true).
Proof.
  split; cbv zeta; repeat split.
Qed.

(** * Invariants of runs *)

Local Arguments count : simpl never.

Section KeepsLemmas.

Context {A : Type} (obs : World -> A).

Lemma Keeps_skip : Keeps obs skip.
Proof. intros w. reflexivity. Qed.

Lemma Keeps_seq (f g : Sync) : Keeps obs f -> Keeps obs g -> Keeps obs (f ;; g).
Proof. intros Hf Hg w. unfold seq. rewrite Hg. apply Hf. Qed.

Lemma Keeps_branch (b : Component -> bool) (f g : Sync) :
  Keeps obs f -> Keeps obs g -> Keeps obs (branch b f g).
Proof. intros Hf Hg w. unfold branch. destruct (b (comp w)); auto. Qed.

Lemma Keeps_for_each {B} (l : list B) (body : B -> Sync) :
  (forall b, Keeps obs (body b)) -> Keeps obs (for_each l body).
Proof.
  intros Hbody. unfold for_each.
  induction l as [| b l IH]; intros w; simpl; [reflexivity |].
  rewrite IH. apply Hbody.
Qed.

Lemma Keeps_addLog (now : N) (msg : string) (kind : LogType) :
  LogBlind obs -> Keeps obs (addLog now msg kind).
Proof. intros H w. apply H, addLog_LogOnly. Qed.

Lemma Keeps_return_to (stack : list Ret) :
  (forall v, Keeps obs (modify (set_persistentLogs v))) ->
  Keeps obs (return_to stack).
Proof.
  intros H. induction stack as [| r stack IH]; simpl; [apply Keeps_skip |].
  destruct r; auto. apply Keeps_seq; [| exact IH].
  intros w. destruct (appConfig (comp w)); [apply H | reflexivity].
Qed.

End KeepsLemmas.

Create HintDb keeps.
#[local] Hint Resolve Keeps_skip Keeps_seq Keeps_branch Keeps_for_each
  Keeps_addLog : keeps.
#[local] Hint Extern 1 (Keeps _ (if ?b then _ else _)) => destruct b : keeps.
#[local] Hint Extern 1 (Keeps _ (match ?x with Some _ => _ | None => _ end)) =>
  destruct x : keeps.
#[local] Hint Extern 1 (Keeps _ (log_success _ ?s _)) =>
  (unfold log_success; destruct s) : keeps.
#[local] Hint Extern 1 (Keeps _ (log_report_lines _ _)) =>
  unfold log_report_lines : keeps.
#[local] Hint Extern 1 (Keeps _ (repairConfiguration _ _)) =>
  unfold repairConfiguration : keeps.
#[local] Hint Extern 1 (Keeps _ (loadConfiguration _)) =>
  unfold loadConfiguration : keeps.
#[local] Hint Extern 4 (Keeps _ (return_to _)) =>
  (apply Keeps_return_to; intros ? ?; reflexivity) : keeps.
#[local] Hint Extern 5 (Keeps ?obs _) =>
  (intros ?; unfold obs; simpl; rewrite ?count_snoc; simpl;
   rewrite ?Nat.add_0_r; reflexivity) : keeps.

Lemma poll_is_not_mirror (t : Task) :
  is_mirror_task t = true -> is_poll_task t = false.
Proof. unfold is_mirror_task, is_poll_task. destruct (task_frame t); congruence. Qed.

Lemma auto_repair_is_not_mirror (t : Task) :
  is_mirror_task t = true -> is_auto_repair_task t = false.
Proof.
  unfold is_mirror_task, is_auto_repair_task. destruct (task_frame t); congruence.
Qed.

Lemma polling_obs_LogBlind : LogBlind polling_obs.
Proof.
  intros w w' L. unfold polling_obs.
  rewrite (LogOnly_progressInterval _ _ L), (lo_intervals _ _ L).
  rewrite (LogOnly_count _ _ _ status_is_not_mirror L).
  rewrite (LogOnly_count_task _ _ _ poll_is_not_mirror L). reflexivity.
Qed.

Lemma repair_obs_LogBlind : LogBlind repair_obs.
Proof.
  intros w w' L. unfold repair_obs.
  rewrite (LogOnly_isRepairingConfig _ _ L).
  rewrite (LogOnly_count_task _ _ _ auto_repair_is_not_mirror L). reflexivity.
Qed.

#[local] Hint Resolve polling_obs_LogBlind repair_obs_LogBlind : keeps.

(** A settled call leaves the list of pending calls. *)
Lemma take_task_split (id : nat) (l : list Task) (t : Task) (rest : list Task) :
  take_task id l = Some (t, rest) ->
  exists l1 l2, l = l1 ++ t :: l2 /\ rest = l1 ++ l2.
Proof.
  revert t rest. induction l as [| a l IH]; intros t rest H; simpl in H;
    [discriminate |].
  destruct (task_id a =? id).
  - injection H as <- <-. exists [], l. auto.
  - destruct (take_task id l) as [[t' rest'] |]; [| discriminate].
    injection H as <- <-. destruct (IH t' rest' eq_refl) as (l1 & l2 & -> & ->).
    exists (a :: l1), l2. auto.
Qed.

Lemma take_task_count (p : Task -> bool) (id : nat) (l : list Task) (t : Task)
    (rest : list Task) :
  take_task id l = Some (t, rest) ->
  count p l = count p rest + (if p t then 1 else 0).
Proof.
  intros H. destruct (take_task_split _ _ _ _ H) as (l1 & l2 & -> & ->).
  rewrite !count_app. change (t :: l2) with ([t] ++ l2). rewrite count_app.
  unfold count at 2. simpl. destruct (p t); simpl; lia.
Qed.

(** ** Polling in the runs of the submit operations *)

Lemma Keeps_polling_performAutomaticRepair (now : N) :
  Keeps polling_obs (performAutomaticRepair now).
Proof. unfold performAutomaticRepair. auto 30 with keeps. Qed.

Lemma Keeps_polling_submit (now : N) (s : Submit) (fi : option PdfFileInfo) :
  Keeps polling_obs (submit now s fi).
Proof.
  destruct s; simpl;
    unfold processFile, processDirectory, processFixedDirectory,
      processSinglePdfFile;
    auto 30 with keeps.
Qed.

Lemma stopProgressMonitoring_without_handle (w : World) :
  progressInterval (comp w) = None -> stopProgressMonitoring w = w.
Proof. intros H. unfold stopProgressMonitoring. rewrite H. reflexivity. Qed.

Lemma startProgressMonitoring_arms (now : N) (sid : string) (w : World) :
  NoPolling w ->
  polling_obs (startProgressMonitoring now sid w)
  = (Some (next_timer w), [(next_timer w, sid)], 0, 0).
Proof.
  unfold NoPolling, startProgressMonitoring, seq. intros H.
  assert (L := addLog_LogOnly now "📊 Monitoramento de progresso iniciado" info w).
  set (w1 := addLog now _ info w) in *.
  assert (H1 := polling_obs_LogBlind _ _ L). rewrite H in H1.
  unfold polling_obs in *. simpl. rewrite count_snoc. simpl.
  injection H1 as _ -> -> ->. rewrite (lo_next_timer _ _ L). reflexivity.
Qed.

Lemma submit_finally_disarms (h : positive) (sid : string) (w : World) :
  polling_obs w = (Some h, [(h, sid)], 0, 0) -> NoPolling (submit_finally w).
Proof.
  unfold NoPolling, polling_obs, submit_finally, seq, stopProgressMonitoring.
  intros [= Hh Hi Hs Hp]. simpl. rewrite Hh. simpl.
  rewrite Hi, count_snoc, Hs, Hp. simpl. rewrite Pos.eqb_refl. reflexivity.
Qed.

Lemma submit_finally_idle (w : World) :
  NoPolling w -> NoPolling (submit_finally w).
Proof.
  unfold NoPolling, polling_obs, submit_finally, seq, stopProgressMonitoring.
  intros [= Hh Hi Hs Hp]. simpl. rewrite Hh. simpl.
  rewrite Hh, Hi, Hs, Hp. reflexivity.
Qed.

(** A submit operation arms the interval and clears it in the same
    turn. *)
Lemma submit_resume_NoPolling (now : N) (s : Submit) (r : Response) (k : Sync)
    (w : World) :
  submit_resume now s r = Some k -> NoPolling w -> NoPolling (k w).
Proof.
  unfold submit_resume. destruct r as [[| | result | |] | e]; try discriminate;
    intros [= <-] H.
  - unfold seq.
    match goal with
    | |- NoPolling (submit_finally (?L (?M2 (?M1 (?A w))))) =>
        set (w1 := A w);
        assert (K : polling_obs (L (M2 (M1 w1))) = polling_obs w1)
    end.
    { match goal with
      | |- polling_obs (?L (?M2 (?M1 w1))) = _ =>
          assert (KL : Keeps polling_obs L) by auto 30 with keeps;
          assert (K2 : Keeps polling_obs M2) by auto 30 with keeps;
          assert (K1 : Keeps polling_obs M1) by auto 30 with keeps
      end.
      rewrite KL, K2, K1. reflexivity. }
    subst w1. destruct (session_id result) as [sid |].
    + destruct (Js.truthy sid).
      * apply (submit_finally_disarms (next_timer w) sid). rewrite K.
        unfold seq.
        exact (startProgressMonitoring_arms now sid
                 (modify (set_currentSessionId sid) w) H).
      * apply submit_finally_idle. unfold NoPolling. rewrite K. exact H.
    + apply submit_finally_idle. unfold NoPolling. rewrite K. exact H.
  - unfold seq. apply submit_finally_idle. unfold NoPolling.
    match goal with
    | |- polling_obs (?M (?L (?C w))) = _ =>
        assert (KM : Keeps polling_obs M) by auto 30 with keeps;
        assert (KL : Keeps polling_obs L) by auto 30 with keeps;
        assert (KC : Keeps polling_obs C) by auto 30 with keeps
    end.
    rewrite KM, KL, KC. exact H.
Qed.

Lemma Keeps_polling_resume (now : N) (f : Frame) (stack : list Ret) (r : Response)
    (k : Sync) :
  match f with F_submit _ | F_poll _ => False | _ => True end ->
  resume now f stack r = Some k -> Keeps polling_obs k.
Proof.
  destruct f; simpl; try contradiction; intros _;
    unfold loadConfiguration_resume, addPersistentLog_resume,
      repairConfiguration_resume, performAutomaticRepair_resume, poll_clear_resume;
    destruct r as [[] |]; intros [= <-];
    unfold addPersistentLog_catch; auto 40 with keeps.
Qed.

Lemma step_NoPolling (now : N) (ev : Event) (w : World) :
  starts_monitoring ev = false -> NoPolling w -> NoPolling (step now ev w).
Proof.
  intros Hev H. destruct ev as [a | id r | h | h]; simpl.
  - destruct a; simpl in Hev |- *; try discriminate; unfold NoPolling.
    + etransitivity; [exact (Keeps_polling_submit now S_processFile None w) | exact H].
    + etransitivity;
        [exact (Keeps_polling_submit now S_processDirectory None w) | exact H].
    + etransitivity;
        [exact (Keeps_polling_submit now S_processFixedDirectory None w) | exact H].
    + etransitivity;
        [exact (Keeps_polling_submit now S_processSinglePdfFile fileInfo w) | exact H].
    + etransitivity; [| exact H]. unfold loadConfiguration, polling_obs. simpl.
      rewrite !count_snoc. simpl. rewrite !Nat.add_0_r. reflexivity.
    + etransitivity; [apply Keeps_polling_performAutomaticRepair | exact H].
    + rewrite stopProgressMonitoring_without_handle; [exact H |].
      unfold NoPolling, polling_obs in H. congruence.
    + rewrite stopProgressMonitoring_without_handle; [exact H |].
      unfold NoPolling, polling_obs in H. congruence.
    + etransitivity;
        [apply (Keeps_addLog polling_obs now msg kind polling_obs_LogBlind) | exact H].
  - destruct (take_task id (pending w)) as [[t rest] |] eqn:Ht; [| exact H].
    destruct (resume now (task_frame t) (task_stack t) r) as [k |] eqn:Hk;
      [| exact H].
    assert (C := take_task_count is_poll_task _ _ _ _ Ht).
    assert (H0 : NoPolling (with_pending rest w)).
    { unfold NoPolling, polling_obs in *. simpl.
      injection H as Hh Hi Hs Hp. rewrite Hh, Hi, Hs. repeat f_equal. lia. }
    assert (Hpoll : is_poll_task t = false).
    { unfold NoPolling, polling_obs in H. injection H as _ _ _ Hp.
      destruct (is_poll_task t); [lia | reflexivity]. }
    unfold is_poll_task in Hpoll. revert Hk Hpoll.
    generalize (task_stack t) as stack.
    destruct (task_frame t) as [| | | | s | sid |]; intros stack Hk Hpoll;
      try discriminate Hpoll.
    + unfold NoPolling. etransitivity;
        [apply (Keeps_polling_resume now F_loadConfiguration stack r k I Hk) | exact H0].
    + unfold NoPolling. etransitivity;
        [apply (Keeps_polling_resume now F_addPersistentLog stack r k I Hk) | exact H0].
    + unfold NoPolling. etransitivity;
        [apply (Keeps_polling_resume now F_repairConfiguration stack r k I Hk) | exact H0].
    + unfold NoPolling. etransitivity;
        [apply (Keeps_polling_resume now F_performAutomaticRepair stack r k I Hk)
        | exact H0].
    + apply (submit_resume_NoPolling now s r k _ Hk H0).
    + unfold NoPolling. etransitivity;
        [apply (Keeps_polling_resume now F_poll_clear stack r k I Hk) | exact H0].
  - assert (Hi : intervals w = [])
      by (unfold NoPolling, polling_obs in H; congruence).
    rewrite Hi. simpl. exact H.
  - destruct (take_timeout h (timeouts w)) as [[cb rest] |]; [| exact H].
    destruct cb. simpl. unfold NoPolling.
    etransitivity; [apply Keeps_polling_performAutomaticRepair | exact H].
Qed.

(** X1. In a run where [startProgressMonitoring] is called by the submit
    operations alone, no interval is armed and no handle is held at the
    end of any turn, no poll is in flight, and [get_processing_status]
    has never been sent: what a submit arms, its [finally] block clears
    before the timer can fire. *)
Theorem submit_runs_never_poll (evs : list (N * Event)) :
  forallb (fun e => negb (starts_monitoring (snd e))) evs = true ->
  let w := run evs initial_world in
  progressInterval (comp w) = None
  /\ intervals w = []
  /\ count is_status_invoke (trace w) = 0
  /\ count is_poll_task (pending w) = 0.
Proof.
  intros Hevs.
  assert (G : forall w0, NoPolling w0 -> NoPolling (run evs w0)).
  { unfold run. induction evs as [| e evs IH]; intros w0 H0; simpl; [exact H0 |].
    simpl in Hevs. apply andb_prop in Hevs as [He Hev].
    apply IH; [exact Hev |]. apply step_NoPolling; [| exact H0].
    destruct (starts_monitoring (snd e)); [discriminate | reflexivity]. }
  specialize (G initial_world eq_refl). unfold NoPolling, polling_obs in G.
  cbv zeta. injection G as -> -> -> ->. auto.
Qed.

Lemma submit_runs_never_poll_witness :
  let w := run fixed_directory_run initial_world in
  progressInterval (comp w) = None
  /\ intervals w = []
  /\ count is_status_invoke (trace w) = 0
  /\ count is_poll_task (pending w) = 0.
Proof.
  apply (submit_runs_never_poll fixed_directory_run). reflexivity.
Defined.

(** ** The repair flag *)

Lemma Keeps_stopProgressMonitoring {A} (obs : World -> A) :
  (forall h, Keeps obs (clearInterval h ;; modify (set_progressInterval None))) ->
  Keeps obs stopProgressMonitoring.
Proof.
  intros H w. unfold stopProgressMonitoring.
  destruct (progressInterval (comp w)); [apply H | reflexivity].
Qed.

#[local] Hint Extern 3 (Keeps _ stopProgressMonitoring) =>
  (apply Keeps_stopProgressMonitoring; intros ? ?; reflexivity) : keeps.
#[local] Hint Extern 1 (Keeps _ (startProgressMonitoring _ _)) =>
  unfold startProgressMonitoring : keeps.
#[local] Hint Extern 1 (Keeps _ submit_finally) => unfold submit_finally : keeps.
#[local] Hint Extern 1 (Keeps _ (poll_status _ _ _)) => unfold poll_status : keeps.
#[local] Hint Extern 1 (Keeps _ poll_catch) => unfold poll_catch : keeps.
#[local] Hint Extern 1 (Keeps _ (addPersistentLog_catch _)) =>
  unfold addPersistentLog_catch : keeps.

Ltac unfold_resume :=
  unfold loadConfiguration_resume, addPersistentLog_resume,
    repairConfiguration_resume, performAutomaticRepair_resume,
    submit_resume, poll_resume, poll_clear_resume.

Ltac unfold_call :=
  unfold processFile, processDirectory, processFixedDirectory,
    processSinglePdfFile, loadConfiguration.

Lemma Keeps_repair_resume (now : N) (f : Frame) (stack : list Ret) (r : Response)
    (k : Sync) :
  f <> F_performAutomaticRepair ->
  resume now f stack r = Some k -> Keeps repair_obs k.
Proof.
  destruct f; simpl; try congruence; intros _; unfold_resume;
    destruct r as [[] |]; intros [= <-]; auto 40 with keeps.
Qed.

Lemma Keeps_repair_call (now : N) (a : Action) :
  a <> A_performAutomaticRepair -> Keeps repair_obs (call now a).
Proof.
  destruct a; simpl; try congruence; intros _; unfold_call; auto 40 with keeps.
Qed.

Lemma performAutomaticRepair_FlagMatchesRepair (now : N) (w : World) :
  FlagMatchesRepair w -> FlagMatchesRepair (performAutomaticRepair now w).
Proof.
  unfold FlagMatchesRepair, performAutomaticRepair, branch. intros H.
  destruct (isRepairingConfig (comp w)) eqn:Hf.
  - simpl. rewrite Hf. exact H.
  - unfold seq.
    set (w0 := modify (set_isRepairingConfig true) w).
    assert (L := addLog_LogOnly now
                   "🔧 Executando reparo automático da configuração..." info w0).
    set (w1 := addLog now _ info w0) in *.
    assert (K := repair_obs_LogBlind _ _ L). unfold repair_obs in K.
    injection K as K1 K2. simpl. rewrite count_snoc, K1, K2. simpl.
    rewrite H. reflexivity.
Qed.

Lemma performAutomaticRepair_resume_clears (now : N) (r : Response) (k : Sync)
    (w : World) :
  performAutomaticRepair_resume now r = Some k ->
  repair_obs (k w) = (false, count is_auto_repair_task (pending w)).
Proof.
  unfold performAutomaticRepair_resume.
  destruct r as [[| result | | |] | e]; try discriminate; intros [= <-].
  - match goal with
    | |- repair_obs ((?B ;; ?M) w) = _ =>
        assert (KB : Keeps repair_obs B) by auto 40 with keeps;
        change ((B ;; M) w) with (M (B w));
        specialize (KB w); unfold repair_obs in KB |- *; injection KB as _ KB2
    end.
    simpl. rewrite KB2. reflexivity.
  - match goal with
    | |- repair_obs ((?C ;; ?L ;; ?M) w) = _ =>
        assert (KL : Keeps repair_obs (C ;; L)) by auto 40 with keeps;
        change ((C ;; L ;; M) w) with (M ((C ;; L) w));
        specialize (KL w); unfold repair_obs in KL |- *; injection KL as _ KL2
    end.
    simpl. rewrite KL2. reflexivity.
Qed.

Lemma step_FlagMatchesRepair (now : N) (ev : Event) (w : World) :
  FlagMatchesRepair w -> FlagMatchesRepair (step now ev w).
Proof.
  assert (KI : forall f w0, Keeps repair_obs f -> FlagMatchesRepair w0 ->
                            FlagMatchesRepair (f w0)).
  { intros f w0 K H0. specialize (K w0). unfold repair_obs in K.
    injection K as K1 K2. unfold FlagMatchesRepair in *. rewrite K1, K2. exact H0. }
  intros H. destruct ev as [a | id r | h | h]; simpl.
  - destruct a;
      try (apply KI; [| exact H]; apply Keeps_repair_call; discriminate).
    apply performAutomaticRepair_FlagMatchesRepair, H.
  - destruct (take_task id (pending w)) as [[t rest] |] eqn:Ht; [| exact H].
    destruct (resume now (task_frame t) (task_stack t) r) as [k |] eqn:Hk;
      [| exact H].
    assert (C := take_task_count is_auto_repair_task _ _ _ _ Ht).
    unfold is_auto_repair_task at 3 in C.
    revert Hk C. generalize (task_stack t) as stack.
    destruct (task_frame t) eqn:Hf; intros stack Hk C;
      try (apply KI;
           [eapply Keeps_repair_resume; [| exact Hk]; discriminate
           | unfold FlagMatchesRepair in *; simpl; lia]).
    simpl in Hk.
    assert (E := performAutomaticRepair_resume_clears now r k (with_pending rest w) Hk).
    unfold repair_obs in E. injection E as E1 E2.
    unfold FlagMatchesRepair in *. rewrite E1, E2. simpl.
    destruct (isRepairingConfig (comp w)); lia.
  - destruct (find _ (intervals w)) as [[h' sid] |]; [| exact H].
    apply KI; [| exact H]. unfold poll. auto with keeps.
  - destruct (take_timeout h (timeouts w)) as [[cb rest] |]; [| exact H].
    destruct cb. simpl. apply performAutomaticRepair_FlagMatchesRepair. exact H.
Qed.

(** X2. In every reachable world [isRepairingConfig] is set exactly
    while one [debug_and_repair_config] call of [performAutomaticRepair]
    is in flight, and is clear while none is: there is never more than
    one automatic repair in flight, and the flag never stays set after
    the repair has settled. *)
Theorem repair_flag_matches_the_repair_in_flight (evs : list (N * Event)) :
  let w := run evs initial_world in
  count is_auto_repair_task (pending w)
  = (if isRepairingConfig (comp w) then 1 else 0)
  /\ count is_auto_repair_task (pending w) <= 1.
Proof.
  assert (G : forall w0, FlagMatchesRepair w0 -> FlagMatchesRepair (run evs w0)).
  { unfold run. induction evs as [| e evs IH]; intros w0 H0; simpl; [exact H0 |].
    apply IH, step_FlagMatchesRepair, H0. }
  specialize (G initial_world eq_refl). unfold FlagMatchesRepair in G.
  cbv zeta. split; [exact G |]. rewrite G.
  destruct (isRepairingConfig _); lia.
Qed.

(** ** Logging while a repair is running *)

Lemma Quiet_refl (w : World) : Quiet w w.
Proof.
  constructor; try reflexivity.
  - destruct (comp w); reflexivity.
  - exists []. rewrite app_nil_r. auto.
Qed.

Lemma Quiet_trans (w1 w2 w3 : World) : Quiet w1 w2 -> Quiet w2 w3 -> Quiet w1 w3.
Proof.
  intros [c1 p1 [es1 [t1 g1]] i1 o1 n1 m1] [c2 p2 [es2 [t2 g2]] i2 o2 n2 m2].
  constructor; try congruence.
  - rewrite c2, c1. destruct (comp w1); reflexivity.
  - exists (es1 ++ es2). rewrite t2, t1, <- app_assoc, forallb_app, g1, g2. auto.
Qed.

Lemma Quiet_isRepairingConfig (w w' : World) :
  Quiet w w' -> isRepairingConfig (comp w') = isRepairingConfig (comp w).
Proof. intros [-> _ _ _ _ _ _]. reflexivity. Qed.

Lemma Quiet_count_invoke (w w' : World) :
  Quiet w w' -> count is_invoke (trace w') = count is_invoke (trace w).
Proof.
  intros [_ _ [es [-> Hes]] _ _ _ _]. rewrite count_app.
  rewrite (count_none is_invoke is_console es); [lia | | exact Hes].
  intros [] H; simpl in *; congruence.
Qed.

Lemma console_Quiet (l : ConsoleLevel) (text : string) (w : World) :
  Quiet w (console l text w).
Proof.
  constructor; try reflexivity.
  - simpl. destruct (comp w); reflexivity.
  - exists [Console l text]. auto.
Qed.

Lemma addLog_Quiet (now : N) (msg : string) (kind : LogType) (w : World) :
  isRepairingConfig (comp w) = true -> Quiet w (addLog now msg kind w).
Proof.
  intros Hf. rewrite addLog_eq.
  destruct (is_duplicate_progress _ _ _); [apply Quiet_refl |].
  unfold mirrors. rewrite Hf, andb_false_r. cbv zeta.
  constructor; try reflexivity;
    try (simpl; destruct (comp w); reflexivity).
  exists []. simpl. rewrite app_nil_r. auto.
Qed.

Lemma log_report_lines_Quiet (now : N) (lines : list string) (w : World) :
  isRepairingConfig (comp w) = true -> Quiet w (log_report_lines now lines w).
Proof.
  unfold log_report_lines, for_each. revert w.
  induction lines as [| line lines IH]; intros w Hf; simpl; [apply Quiet_refl |].
  assert (Q : Quiet w ((if Js.truthy (Js.trim line)
                        then addLog now (String.append "  " (Js.trim line)) info
                        else skip) w)).
  { destruct (Js.truthy (Js.trim line)); [apply addLog_Quiet, Hf | apply Quiet_refl]. }
  eapply Quiet_trans; [exact Q |]. apply IH.
  etransitivity; [apply (Quiet_isRepairingConfig _ _ Q) | exact Hf].
Qed.

(** The continuation of [performAutomaticRepair]: logging under the
    flag, then the [finally] block. *)
Lemma performAutomaticRepair_resume_quiet (now : N) (r : Response) (k : Sync)
    (w : World) :
  isRepairingConfig (comp w) = true ->
  performAutomaticRepair_resume now r = Some k ->
  exists w1, Quiet w w1 /\ k w = modify (set_isRepairingConfig false) w1.
Proof.
  intros Hf. unfold performAutomaticRepair_resume.
  destruct r as [[| result | | |] | e]; try discriminate; intros [= <-].
  - match goal with
    | |- exists w1, _ /\ (?B ;; ?M) w = _ => exists (B w)
    end.
    split; [| reflexivity].
    destruct (cr_success result).
    + unfold seq.
      set (m1 := "✅ Reparo automático executado com sucesso").
      assert (Q1 := addLog_Quiet now m1 success w Hf).
      set (w1 := addLog now m1 success w) in *.
      assert (F1 : isRepairingConfig (comp w1) = true)
        by (rewrite (Quiet_isRepairingConfig _ _ Q1); exact Hf).
      assert (Q2 := log_report_lines_Quiet now
                      (Js.slice_first 10 (Js.split_lines (cr_message result))) w1 F1).
      set (w2 := log_report_lines now _ w1) in *.
      assert (F2 : isRepairingConfig (comp w2) = true)
        by (rewrite (Quiet_isRepairingConfig _ _ Q2); exact F1).
      apply Quiet_trans with w2; [apply Quiet_trans with w1; assumption |].
      destruct (10 <? List.length (Js.split_lines (cr_message result)));
        [| apply Quiet_refl].
      eapply Quiet_trans; [apply addLog_Quiet, F2 | apply console_Quiet].
    + unfold seq. eapply Quiet_trans; [apply addLog_Quiet, Hf | apply console_Quiet].
  - match goal with
    | |- exists w1, _ /\ (?C ;; ?L ;; ?M) w = _ => exists ((C ;; L) w)
    end.
    split; [| reflexivity]. unfold seq.
    eapply Quiet_trans; [apply console_Quiet | apply addLog_Quiet; exact Hf].
Qed.

(** X3. [performAutomaticRepair] called while no repair is running sets
    the flag, logs its start line to the transient log alone, and sends
    exactly one backend call, [debug_and_repair_config]; the start line
    is not mirrored. *)
Theorem performAutomaticRepair_starts_one_repair (now : N) (w : World) :
  isRepairingConfig (comp w) = false ->
  let w' := performAutomaticRepair now w in
  isRepairingConfig (comp w') = true
  /\ new_effects w w' = [Invoke debug_and_repair_config]
  /\ pending w' =
     pending w ++ [mkTask (next_task w) debug_and_repair_config
                     F_performAutomaticRepair []]
  /\ progressLogs (comp w') =
     pushed (progressLogs (comp w))
       (mkLogEntry "🔧 Executando reparo automático da configuração..." now info).
Proof.
  intros Hf. cbv zeta. unfold performAutomaticRepair, branch. rewrite Hf. unfold seq.
  set (w0 := modify (set_isRepairingConfig true) w).
  assert (F0 : isRepairingConfig (comp w0) = true) by reflexivity.
  assert (Q := addLog_Quiet now
                 "🔧 Executando reparo automático da configuração..." info w0 F0).
  assert (P := addLog_progressLogs now
                 "🔧 Executando reparo automático da configuração..." info w0).
  set (w1 := addLog now _ info w0) in *.
  destruct Q as [Qc Qp [es [Qt Qe]] _ _ Qn _].
  assert (E : es = []).
  { assert (T := addLog_LogOnly now
                   "🔧 Executando reparo automático da configuração..." info w0).
    fold w1 in T. destruct T as [_ _ [es' [Tt Te]] _ _ _].
    rewrite Qt in Tt. apply app_inv_head in Tt. subst es'.
    destruct es as [| e es]; [reflexivity |]. simpl in Qe, Te.
    destruct e; simpl in *; discriminate. }
  subst es. rewrite app_nil_r in Qt.
  repeat split.
  - simpl. rewrite Qc. reflexivity.
  - apply new_effects_app. simpl. rewrite Qt. reflexivity.
  - simpl. rewrite Qp, Qn. reflexivity.
  - simpl. exact P.
Qed.

Lemma performAutomaticRepair_starts_one_repair_witness :
  let w := initial_world in
  let w' := performAutomaticRepair 1%N w in
  isRepairingConfig (comp w') = true
  /\ new_effects w w' = [Invoke debug_and_repair_config]
  /\ pending w' =
     pending w ++ [mkTask (next_task w) debug_and_repair_config
                     F_performAutomaticRepair []]
  /\ progressLogs (comp w') =
     pushed (progressLogs (comp w))
       (mkLogEntry "🔧 Executando reparo automático da configuração..." 1%N info).
Proof.
  apply (performAutomaticRepair_starts_one_repair 1%N initial_world). reflexivity.
Defined.

(** X4. However the repair call of [performAutomaticRepair] settles
    (success, a failure report or a rejection), its continuation clears
    the flag, and everything it logs on the way goes to the transient
    log and the console alone: no backend call is sent, nothing is left
    pending, no timer is armed. *)
Theorem performAutomaticRepair_completes_quietly
    (now : N) (r : Response) (k : Sync) (w : World) :
  isRepairingConfig (comp w) = true ->
  performAutomaticRepair_resume now r = Some k ->
  let w' := k w in
  isRepairingConfig (comp w') = false
  /\ pending w' = pending w
  /\ count is_invoke (trace w') = count is_invoke (trace w)
  /\ timeouts w' = timeouts w
  /\ intervals w' = intervals w.
Proof.
  intros Hf Hk.
  destruct (performAutomaticRepair_resume_quiet now r k w Hf Hk) as [w1 [Q ->]].
  cbv zeta. simpl.
  repeat split; try apply Q.
  apply (Quiet_count_invoke _ _ Q).
Qed.

Lemma performAutomaticRepair_completes_quietly_witness :
  let w := with_pending [] repairing_world in
  let k := (console c_error "Error during automatic repair:" ;;
            addLog 2%N "❌ Erro crítico no reparo automático" error ;;
            modify (set_isRepairingConfig false)) in
  let w' := k w in
  isRepairingConfig (comp w') = false
  /\ pending w' = pending w
  /\ count is_invoke (trace w') = count is_invoke (trace w)
  /\ timeouts w' = timeouts w
  /\ intervals w' = intervals w.
Proof.
  apply (performAutomaticRepair_completes_quietly 2%N (Rejected plain_error));
    reflexivity.
Defined.

(** ** Loading and repairing the configuration *)

Lemma return_to_comp (stack : list Ret) (w : World) :
  comp (return_to stack w)
  = set_persistentLogs (persistentLogs (comp (return_to stack w))) (comp w).
Proof.
  revert w. induction stack as [| r stack IH]; intros w; simpl.
  - unfold skip. destruct (comp w); reflexivity.
  - destruct r; try apply IH. unfold seq.
    destruct (appConfig (comp w)) as [c |]; [| apply IH].
    rewrite IH. simpl. destruct (comp w); reflexivity.
Qed.

Lemma return_to_persistentLogs (stack : list Ret) (c : AppConfig) (w : World) :
  appConfig (comp w) = Some c ->
  In R_addPersistentLog stack ->
  persistentLogs (comp (return_to stack w)) = processing_logs c.
Proof.
  revert w. induction stack as [| r stack IH]; intros w Hc Hin; [destruct Hin |].
  assert (Keep : forall w0, appConfig (comp w0) = Some c ->
                            persistentLogs (comp w0) = processing_logs c ->
                            persistentLogs (comp (return_to stack w0)) = processing_logs c).
  { clear. induction stack as [| r stack IH]; intros w0 Hc Hp; [exact Hp |].
    simpl. destruct r; try (apply IH; assumption).
    unfold seq. rewrite Hc. apply IH; simpl; [exact Hc | reflexivity]. }
  simpl. destruct r.
  - unfold seq. rewrite Hc. apply Keep; simpl; [exact Hc | reflexivity].
  - destruct Hin as [Hin | Hin]; [discriminate | apply IH; assumption].
  - destruct Hin as [Hin | Hin]; [discriminate | apply IH; assumption].
Qed.

(** X5. A load that resolves is final: [loadConfiguration] stores the
    configuration and sets [configLoaded], sends nothing to the backend
    and leaves nothing pending, so a successful (re)load starts no
    repair; when the load was awaited by [addPersistentLog], the
    persisted logs shown are those of the loaded configuration. *)
Theorem resolved_load_is_final
    (now : N) (stack : list Ret) (c : AppConfig) (w : World) :
  exists k,
    loadConfiguration_resume now stack (Resolved (P_AppConfig c)) = Some k
    /\ configLoaded (comp (k w)) = true
    /\ appConfig (comp (k w)) = Some c
    /\ trace (k w) = trace w
    /\ pending (k w) = pending w
    /\ progressLogs (comp (k w)) = progressLogs (comp w)
    /\ (if existsb (fun r => match r with R_addPersistentLog => true | _ => false end)
             stack
        then persistentLogs (comp (k w)) = processing_logs c
        else persistentLogs (comp (k w)) = persistentLogs (comp w)).
Proof.
  eexists. split; [reflexivity |]. unfold seq.
  set (w0 := modify (set_configLoaded true) (modify (set_appConfig (Some c)) w)).
  destruct (return_to_frame stack w0) as (Ht & Hp & _ & _ & Hl & _).
  assert (Hc := return_to_comp stack w0).
  repeat split.
  - rewrite Hc. reflexivity.
  - rewrite Hc. reflexivity.
  - rewrite Ht. reflexivity.
  - rewrite Hp. reflexivity.
  - rewrite Hl. reflexivity.
  - destruct (existsb _ stack) eqn:He.
    + apply existsb_exists in He as [r [Hin Hr]]. destruct r; try discriminate.
      apply return_to_persistentLogs; [reflexivity | exact Hin].
    + assert (G : forall w1, persistentLogs (comp (return_to stack w1))
                             = persistentLogs (comp w1)).
      { clear - He. induction stack as [| r stack IH]; intros w1; [reflexivity |].
        simpl in He. destruct r; try discriminate; simpl; apply IH; exact He. }
      rewrite G. reflexivity.
Qed.

(** X6. A repair that fails is final for [repairConfiguration]: when
    [debug_and_repair_config] is rejected or resolves with [success]
    false, it logs one error line and returns; it sends neither another
    repair call nor another load, and beside the mirror call of that
    line nothing new is pending. *)
Theorem failed_repair_is_final
    (now : N) (stack : list Ret) (r : Response) (w : World) :
  is_repair_failure r = true ->
  exists k,
    repairConfiguration_resume now stack r = Some k
    /\ count is_repair_invoke (trace (k w)) = count is_repair_invoke (trace w)
    /\ count is_load_invoke (trace (k w)) = count is_load_invoke (trace w)
    /\ count is_other_task (pending (k w)) = count is_other_task (pending w)
    /\ exists entry, Js.last_elem (progressLogs (comp (k w))) = Some entry
                     /\ type entry = error.
Proof.
  intros Hr.
  assert (load_is_not_mirror : forall e, is_mirror_invoke e = true ->
                                         is_load_invoke e = false).
  { intros [[] | | | |]; simpl; congruence. }
  assert (other_is_not_mirror : forall t, is_mirror_task t = true ->
                                          is_other_task t = false).
  { intros t Ht. unfold is_other_task. rewrite Ht. reflexivity. }
  assert (G : forall msg w0,
             count is_repair_invoke (trace w0) = count is_repair_invoke (trace w) ->
             count is_load_invoke (trace w0) = count is_load_invoke (trace w) ->
             count is_other_task (pending w0) = count is_other_task (pending w) ->
             let w' := return_to stack (addLog now msg error w0) in
             count is_repair_invoke (trace w') = count is_repair_invoke (trace w)
             /\ count is_load_invoke (trace w') = count is_load_invoke (trace w)
             /\ count is_other_task (pending w') = count is_other_task (pending w)
             /\ exists entry, Js.last_elem (progressLogs (comp w')) = Some entry
                              /\ type entry = error).
  { intros msg w0 H1 H2 H3. cbv zeta.
    assert (L := addLog_LogOnly now msg error w0).
    assert (P := addLog_progressLogs now msg error w0).
    set (w1 := addLog now msg error w0) in *.
    destruct (return_to_frame stack w1) as (Ht & Hp & _ & _ & Hl & _).
    rewrite Ht, Hp, Hl.
    rewrite (LogOnly_count _ _ _ repair_is_not_mirror L).
    rewrite (LogOnly_count _ _ _ load_is_not_mirror L).
    rewrite (LogOnly_count_task _ _ _ other_is_not_mirror L).
    repeat split; try assumption.
    exists (mkLogEntry msg now error). rewrite P. simpl.
    split; [apply pushed_last | reflexivity]. }
  destruct r as [[| result | | |] | e]; try discriminate Hr.
  - simpl in Hr. eexists. split; [reflexivity |].
    destruct (cr_success result); [discriminate |]. unfold seq.
    apply G; reflexivity.
  - eexists. split; [reflexivity |]. unfold seq.
    apply G; simpl; rewrite ?count_snoc; simpl; rewrite ?Nat.add_0_r; reflexivity.
Qed.

Lemma failed_repair_is_final_witness :
  exists k,
    repairConfiguration_resume 3%N [R_loadConfiguration]
      (Resolved (P_ConfigResult failed_repair)) = Some k
    /\ count is_repair_invoke (trace (k initial_world))
       = count is_repair_invoke (trace initial_world)
    /\ count is_load_invoke (trace (k initial_world))
       = count is_load_invoke (trace initial_world)
    /\ count is_other_task (pending (k initial_world))
       = count is_other_task (pending initial_world)
    /\ exists entry, Js.last_elem (progressLogs (comp (k initial_world))) = Some entry
                     /\ type entry = error.
Proof.
  apply (failed_repair_is_final 3%N [R_loadConfiguration]
           (Resolved (P_ConfigResult failed_repair)) initial_world).
  reflexivity.
Defined.

Lemma trace_await_invoke (c : Call) (f : Frame) (stack : list Ret) (w : World) :
  trace (await_invoke c f stack w) = trace w ++ [Invoke c].
Proof. reflexivity. Qed.

(** X7. For every [n], one call of [loadConfiguration] whose load the
    backend rejects with the encoding signature [n] times, each repair
    in between reporting success, sends [n] repair calls; the flag is
    clear at the end and the next load is in flight. *)
Theorem always_corrupted_sends_n_repairs (n : nat) :
  let w := run (always_corrupted n) initial_world in
  count is_repair_invoke (trace w) = n
  /\ isRepairingConfig (comp w) = false
  /\ count is_load_invoke (trace w) = S n
  /\ exists stack older,
       pending w = older ++ [mkTask (5 * n) load_app_config F_loadConfiguration stack].
Proof.
  cbv zeta.
  destruct (repair_cycle_is_unbounded n) as [Hn Hf Hc (stack & older & Hp & Hold)].
  split; [exact Hc |]. split; [exact Hf |]. split; [| eauto].
  clear. unfold always_corrupted.
  change (run ((1%N, E_call A_loadConfiguration) :: corrupted_rounds 0 n) initial_world)
    with (run (corrupted_rounds 0 n) (step 1%N (E_call A_loadConfiguration) initial_world)).
  assert (G : forall m k w, BetweenRounds k w ->
                count is_load_invoke (trace (run (corrupted_rounds k m) w))
                = count is_load_invoke (trace w) + m).
  { induction m as [| m IH]; intros k w H.
    - simpl. lia.
    - change (corrupted_rounds k (S m))
        with (corrupted_round k ++ corrupted_rounds (S k) m).
      rewrite run_app, (IH (S k)); [| apply corrupted_round_step, H].
      enough (count is_load_invoke (trace (run (corrupted_round k) w))
              = S (count is_load_invoke (trace w))) by lia.
      destruct H as [Hn Hf _ (stack & older & Hp & Hold)].
      change (run (corrupted_round k) w)
        with (step (N.of_nat (2 * k + 3))
                (E_settle (5 * k + 3) (Resolved (P_ConfigResult repaired)))
                (step (N.of_nat (2 * k + 2)) (E_settle (5 * k) (Rejected utf8_error)) w)).
      set (now1 := N.of_nat (2 * k + 2)). set (now2 := N.of_nat (2 * k + 3)).
      clearbody now1 now2.
      assert (Hn' : next_task w = S (5 * k)) by lia.
      destruct (load_rejected_step now1 (5 * k) stack older w
                  Hp Hold Hn' Hf) as ((m1 & m2 & P1 & I1 & I2) & N1 & F1 & _).
      assert (T1 : count is_load_invoke
                     (trace (step now1
                               (E_settle (5 * k) (Rejected utf8_error)) w))
                   = count is_load_invoke (trace w)).
      { destruct (loadConfiguration_rejected now1 stack utf8_error
                    (with_pending older w)) as [k0 [Hk0 _]].
        rewrite (step_settle _ _ _ w
                   (mkTask (5 * k) load_app_config F_loadConfiguration stack) older k0);
          [| rewrite Hp; rewrite (take_task_newest (5 * k) older _ [] Hold);
             [rewrite app_nil_r; reflexivity | reflexivity]
           | exact Hk0].
        injection Hk0 as <-. unfold seq, repairConfiguration, seq.
        change (isUtf8Error utf8_error || isDeserializationError utf8_error) with true.
        change (isUtf8Error utf8_error) with true. cbv iota.
        match goal with
        | |- count _ (trace (await_invoke _ _ _ (addLog _ ?m2 info (addLog _ ?m1 error ?w0))))
             = _ =>
            assert (L1 := addLog_LogOnly now1 m1 error w0);
            assert (L2 := addLog_LogOnly now1 m2 info
                            (addLog now1 m1 error w0))
        end.
        assert (load_is_not_mirror : forall e, is_mirror_invoke e = true ->
                                               is_load_invoke e = false).
        { intros [[] | | | |]; simpl; congruence. }
        rewrite trace_await_invoke, count_snoc.
        rewrite (LogOnly_count _ _ _ load_is_not_mirror L2).
        rewrite (LogOnly_count _ _ _ load_is_not_mirror L1).
        simpl. rewrite count_snoc. simpl. lia. }
      set (w1 := step now1 (E_settle (5 * k) (Rejected utf8_error)) w)
        in *.
      assert (Hold1 : Forall (fun t => task_id t < 5 * k + 3) (older ++ [m1; m2])).
      { apply Forall_app. split.
        - eapply Forall_impl; [| exact Hold]. simpl. intros; lia.
        - apply Forall_cons; [lia |]. apply Forall_cons; [lia | apply Forall_nil]. }
      destruct (repairConfiguration_reloads now2
                  (R_loadConfiguration :: stack) repaired
                  (with_pending (older ++ [m1; m2]) w1) eq_refl)
        as (k1 & w2 & Hk1 & L & E).
      rewrite (step_settle _ _ _ w1
                 (mkTask (5 * k + 3) debug_and_repair_config F_repairConfiguration
                    (R_loadConfiguration :: stack)) (older ++ [m1; m2]) k1);
        [| rewrite P1; rewrite (take_task_newest (5 * k + 3) _ _ [] Hold1);
           [rewrite app_nil_r; reflexivity | reflexivity]
         | exact Hk1].
      rewrite E. unfold loadConfiguration. rewrite trace_await_invoke, count_snoc.
      assert (load_is_not_mirror : forall e, is_mirror_invoke e = true ->
                                             is_load_invoke e = false).
      { intros [[] | | | |]; simpl; congruence. }
      rewrite (LogOnly_count _ _ _ load_is_not_mirror L). simpl. rewrite T1. lia. }
  rewrite (G n 0).
  - simpl. reflexivity.
  - constructor; try reflexivity. exists [], []. split; [reflexivity | constructor].
Qed.

(** ** Classification, polling and the submit operations *)

(** X9. Every error that [loadConfiguration] and [addPersistentLog]
    take for a corrupted configuration is one that
    [initializeConfiguration] takes for a configuration error: the
    start-up test is the weaker of the two. *)
Theorem corruption_is_a_config_error (e : JsError) :
  isCorruption e = true -> isConfigError e = true.
Proof.
  unfold isCorruption, isConfigError, isDeserializationError.
  rewrite isUtf8Error_eq.
  destruct (message_includes "UTF-8" e), (message_includes "deserializar" e),
    (message_includes "trailing characters" e),
    (details_includes "licitacao360_config.json" e); simpl; congruence.
Qed.

Lemma corruption_is_a_config_error_witness :
  isCorruption utf8_error = true /\ isConfigError utf8_error = true.
Proof.
  split; [reflexivity | apply (corruption_is_a_config_error utf8_error); reflexivity].
Defined.

(** ** Ticks of the polling callback *)

(** X10. While the job runs and reports no error, a status that repeats
    changes nothing: handling the same status a second time leaves the
    world exactly as the first left it, so a fast polling loop adds one
    progress line per file and count, not one per tick. *)
Theorem repeated_status_changes_nothing
    (now1 now2 : N) (sid : string) (status : ProcessingStatus) (w : World) :
  is_processing status = true ->
  errors status = [] ->
  poll_status now2 sid status (poll_status now1 sid status w)
  = poll_status now1 sid status w.
Proof.
  intros Hp He. unfold poll_status. rewrite Hp, He. simpl negb. simpl List.length.
  change (0 <? 0) with false. cbv iota. unfold seq, skip.
  set (w0 := modify (set_processingStatus (Some status)) w).
  destruct (current_file status) as [f |] eqn:Hf.
  - destruct (Js.truthy f).
    + set (m := String.concat "" _).
      assert (D : is_duplicate_progress (progressLogs (comp (addLog now1 m progress w0)))
                    m progress = true).
      { rewrite addLog_progressLogs. unfold is_duplicate_progress at 2.
        destruct (Js.last_elem (progressLogs (comp w0))) as [l |] eqn:Hl.
        - destruct (LogType_eqb (type l) progress && String.eqb (message l) m) eqn:Hd.
          + unfold is_duplicate_progress. rewrite Hl, Hd. reflexivity.
          + unfold is_duplicate_progress. rewrite pushed_last. simpl.
            apply String.eqb_refl.
        - unfold is_duplicate_progress. rewrite pushed_last. simpl.
          apply String.eqb_refl. }
      set (w1 := addLog now1 m progress w0) in *.
      assert (E : modify (set_processingStatus (Some status)) w1 = w1).
      { assert (L := addLog_LogOnly now1 m progress w0). fold w1 in L.
        destruct w1 as [c p i t tr nt ntm]. unfold modify. simpl. f_equal.
        destruct L as [Lc _ _ _ _ _]. simpl in Lc. rewrite Lc. reflexivity. }
      rewrite E. apply addLog_duplicate, D.
    + destruct w as [c p i t tr nt ntm]; destruct c; reflexivity.
  - destruct w as [c p i t tr nt ntm]; destruct c; reflexivity.
Qed.

Lemma repeated_status_changes_nothing_witness :
  poll_status 5%N "s1" running_status (poll_status 4%N "s1" running_status
                                         one_poll_in_flight)
  = poll_status 4%N "s1" running_status one_poll_in_flight.
Proof.
  apply (repeated_status_changes_nothing 4%N 5%N "s1" running_status
           one_poll_in_flight); reflexivity.
Defined.

Lemma errors_are_mirrored (now : N) (errs : list string) (w : World) :
  isRepairingConfig (comp w) = false ->
  let w' := for_each errs (fun e => addLog now (String.append "❌ " e) error) w in
  count is_mirror_invoke (trace w') = count is_mirror_invoke (trace w) + List.length errs
  /\ isRepairingConfig (comp w') = false
  /\ progressInterval (comp w') = progressInterval (comp w)
  /\ intervals w' = intervals w.
Proof.
  unfold for_each. revert w. induction errs as [| e errs IH]; intros w Hf; simpl.
  - repeat split; auto.
  - set (w1 := addLog now (String.append "❌ " e) error w).
    assert (L : LogOnly w w1) by apply addLog_LogOnly.
    assert (F1 : isRepairingConfig (comp w1) = false)
      by (rewrite (LogOnly_isRepairingConfig _ _ L); exact Hf).
    destruct (IH w1 F1) as (A & B & C & D).
    assert (T : count is_mirror_invoke (trace w1) = S (count is_mirror_invoke (trace w))).
    { subst w1. rewrite addLog_eq. simpl is_duplicate_progress. cbv iota.
      unfold mirrors. rewrite Hf. simpl. rewrite count_snoc. simpl. lia. }
    split; [| split; [| split]].
    + etransitivity; [exact A |]. rewrite T. lia.
    + exact B.
    + etransitivity; [exact C | apply (LogOnly_progressInterval _ _ L)].
    + etransitivity; [exact D | apply (lo_intervals _ _ L)].
Qed.

Lemma addLog_progress_trace (now : N) (msg : string) (w : World) :
  trace (addLog now msg progress w) = trace w.
Proof.
  rewrite addLog_eq. destruct (is_duplicate_progress _ _ _); reflexivity.
Qed.

(** X11. While the job runs, every tick reports the worker's whole
    error list again: each error of the status is logged as an error
    line and sent to the persisted log, so a tick sends as many mirror
    calls as the status has errors, however often the same errors have
    been reported before; the tick does not stop the monitoring. *)
Theorem every_tick_reports_all_errors
    (now : N) (sid : string) (status : ProcessingStatus) (w : World) :
  is_processing status = true ->
  isRepairingConfig (comp w) = false ->
  let w' := poll_status now sid status w in
  count is_mirror_invoke (trace w')
  = count is_mirror_invoke (trace w) + List.length (errors status)
  /\ progressInterval (comp w') = progressInterval (comp w)
  /\ intervals w' = intervals w
  /\ processingStatus (comp w') = Some status.
Proof.
  intros Hp Hf. cbv zeta. unfold poll_status. rewrite Hp. simpl negb.
  cbv iota. unfold seq, skip.
  set (w0 := modify (set_processingStatus (Some status)) w).
  match goal with
  | |- context [(?P w0)] =>
      match P with
      | match current_file status with _ => _ end => set (w1 := P w0)
      end
  end.
  assert (L1 : LogOnly w0 w1).
  { subst w1. destruct (current_file status) as [f |]; [| apply LogOnly_refl].
    destruct (Js.truthy f); [apply addLog_LogOnly | apply LogOnly_refl]. }
  assert (T1 : trace w1 = trace w0).
  { subst w1. destruct (current_file status) as [f |]; [| reflexivity].
    destruct (Js.truthy f); [apply addLog_progress_trace | reflexivity]. }
  assert (F1 : isRepairingConfig (comp w1) = false)
    by (rewrite (LogOnly_isRepairingConfig _ _ L1); exact Hf).
  destruct (errors_are_mirrored now (errors status) w1 F1) as (A & B & C & D).
  assert (L2 : LogOnly w1 (for_each (errors status)
                             (fun e0 => addLog now (String.append "❌ " e0) error) w1)).
  { apply for_each_LogOnly. intros a w2. apply addLog_LogOnly. }
  assert (G : let w2 := for_each (errors status)
                          (fun e0 => addLog now (String.append "❌ " e0) error) w1 in
              count is_mirror_invoke (trace w2)
              = count is_mirror_invoke (trace w) + List.length (errors status)
              /\ progressInterval (comp w2) = progressInterval (comp w)
              /\ intervals w2 = intervals w
              /\ processingStatus (comp w2) = Some status).
  { cbv zeta. split; [| split; [| split]].
    - etransitivity; [exact A |]. rewrite T1. reflexivity.
    - etransitivity; [exact C |]. apply (LogOnly_progressInterval _ _ L1).
    - etransitivity; [exact D |]. apply (lo_intervals _ _ L1).
    - destruct L2 as [-> _ _ _ _ _]. destruct L1 as [-> _ _ _ _ _]. reflexivity. }
  destruct (errors status) as [| e errs] eqn:He.
  - exact G.
  - change (0 <? List.length (e :: errs)) with true. cbv iota. exact G.
Qed.

Lemma every_tick_reports_all_errors_witness :
  let w' := poll_status 4%N "s1" failing_status one_poll_in_flight in
  count is_mirror_invoke (trace w')
  = count is_mirror_invoke (trace one_poll_in_flight)
    + List.length (errors failing_status)
  /\ progressInterval (comp w') = progressInterval (comp one_poll_in_flight)
  /\ intervals w' = intervals one_poll_in_flight
  /\ processingStatus (comp w') = Some failing_status.
Proof.
  apply (every_tick_reports_all_errors 4%N "s1" failing_status one_poll_in_flight);
    reflexivity.
Defined.

Lemma submit_resume_stops_monitoring_witness :
  processing (comp ((console c_error "Error processing file:" ;;
                     addLog 7%N "❌ Erro durante o processamento" error ;;
                     modify (set_processingResult
                               (Some (mkProcessingResult false
                                        (String.append "Erro durante o processamento: "
                                           (err_text plain_error))
                                        [] 0 None None))) ;;
                     submit_finally) two_polls_in_flight)) = false
  /\ progressInterval
       (comp ((console c_error "Error processing file:" ;;
               addLog 7%N "❌ Erro durante o processamento" error ;;
               modify (set_processingResult
                         (Some (mkProcessingResult false
                                  (String.append "Erro durante o processamento: "
                                     (err_text plain_error))
                                  [] 0 None None))) ;;
               submit_finally) two_polls_in_flight)) = None.
Proof.
  apply (submit_resume_stops_monitoring 7%N S_processFile (Rejected plain_error)).
  reflexivity.
Defined.

(** * The list components *)

(** ** Sorting *)

Section SortByKey.

Context {A : Type} (key : A -> Z) (compare : A -> A -> Z).
Hypothesis compare_key :
  forall a b, (compare a b <=? 0)%Z = (key a <=? key b)%Z.

Lemma insert_perm (x : A) (l : list A) :
  Permutation (JsArray.insert compare x l) (x :: l).
Proof.
  induction l as [| y l IH]; simpl; [apply Permutation_refl |].
  destruct (compare x y <=? 0)%Z; [apply Permutation_refl |].
  eapply Permutation_trans; [apply perm_skip, IH | apply perm_swap].
Qed.

Lemma sort_perm (l : list A) : Permutation (JsArray.sort compare l) l.
Proof.
  induction l as [| x l IH]; simpl; [apply Permutation_refl |].
  eapply Permutation_trans; [apply insert_perm | apply perm_skip, IH].
Qed.

Lemma insert_sorted (x : A) (l : list A) :
  StronglySorted (fun a b => (key a <= key b)%Z) l ->
  StronglySorted (fun a b => (key a <= key b)%Z) (JsArray.insert compare x l).
Proof.
  induction 1 as [| y l Hl IH Hy]; simpl.
  - constructor; constructor.
  - rewrite compare_key. destruct (key x <=? key y)%Z eqn:E.
    + apply Z.leb_le in E. constructor; [constructor; assumption |].
      constructor; [exact E |].
      eapply Forall_impl; [| exact Hy]. simpl. intros; lia.
    + apply Z.leb_gt in E. constructor; [exact IH |].
      apply (Permutation_Forall (Permutation_sym (insert_perm x l))).
      constructor; [lia | exact Hy].
Qed.

Lemma sort_sorted (l : list A) :
  StronglySorted (fun a b => (key a <= key b)%Z) (JsArray.sort compare l).
Proof.
  induction l as [| x l IH]; simpl; [constructor | apply insert_sorted, IH].
Qed.

(** Elements of one key keep their order. *)
Lemma insert_stable (k : Z) (x : A) (l : list A) :
  StronglySorted (fun a b => (key a <= key b)%Z) l ->
  filter (fun a => (key a =? k)%Z) (JsArray.insert compare x l)
  = filter (fun a => (key a =? k)%Z) (x :: l).
Proof.
  induction 1 as [| y l Hl IH Hy]; [reflexivity |].
  simpl JsArray.insert. rewrite compare_key.
  destruct (key x <=? key y)%Z eqn:E; [reflexivity |].
  apply Z.leb_gt in E. simpl in IH |- *. rewrite IH.
  destruct (key x =? k)%Z eqn:Ex; [| reflexivity].
  destruct (key y =? k)%Z eqn:Ey; [| reflexivity].
  apply Z.eqb_eq in Ex, Ey. lia.
Qed.

Lemma sort_stable (k : Z) (l : list A) :
  filter (fun a => (key a =? k)%Z) (JsArray.sort compare l)
  = filter (fun a => (key a =? k)%Z) l.
Proof.
  induction l as [| x l IH]; [reflexivity |].
  simpl JsArray.sort. rewrite insert_stable; [| apply sort_sorted].
  simpl. rewrite IH. reflexivity.
Qed.

End SortByKey.

Lemma last_segment_aux_append (cur name : string) :
  (forall c, In c (list_ascii_of_string name) ->
             Ascii.eqb c "/"%char || Ascii.eqb c "\"%char = false) ->
  last_segment_aux cur name = String.append cur name.
Proof.
  revert cur. induction name as [| c name IH]; intros cur H; simpl.
  - clear. induction cur as [| x cur IH]; simpl; [reflexivity | rewrite <- IH; reflexivity].
  - rewrite (H c (or_introl eq_refl)).
    rewrite IH; [| intros c0 Hc0; apply H; right; exact Hc0].
    rewrite append_assoc. reflexivity.
Qed.

Lemma last_segment_aux_after_separator (cur dir name : string) (sep : ascii) :
  Ascii.eqb sep "/"%char || Ascii.eqb sep "\"%char = true ->
  (forall c, In c (list_ascii_of_string name) ->
             Ascii.eqb c "/"%char || Ascii.eqb c "\"%char = false) ->
  last_segment_aux cur (String.append dir (String sep name)) = name.
Proof.
  intros Hsep Hclean. revert cur.
  induction dir as [| c dir IH]; intros cur; simpl.
  - rewrite Hsep. apply (last_segment_aux_append EmptyString name Hclean).
  - destruct (Ascii.eqb c "/"%char || Ascii.eqb c "\"%char); apply IH.
Qed.

(** X13. The name [loadPdfFilesList] gives a file whose info call was
    rejected is what follows the last [/] or [\] of its path: for a
    path made of a directory, a separator and a non-empty name without
    separators it is that name; the made-up entry has size and date
    zero. *)
Theorem fallback_name_is_the_last_segment (dir name : string) (sep : ascii) :
  Ascii.eqb sep "/"%char || Ascii.eqb sep "\"%char = true ->
  Js.truthy name = true ->
  (forall c, In c (list_ascii_of_string name) ->
             Ascii.eqb c "/"%char || Ascii.eqb c "\"%char = false) ->
  let path := String.append dir (String sep name) in
  fallback_file_info path = mkPdfFileInfo name path 0 0.
Proof.
  intros Hsep Hname Hclean path.
  assert (E : last_segment path = name)
    by apply (last_segment_aux_after_separator EmptyString dir name sep Hsep Hclean).
  unfold fallback_file_info. rewrite E, Hname. reflexivity.
Qed.

Lemma fallback_name_is_the_last_segment_witness :
  fallback_file_info "C:\docs/edital.pdf"
  = mkPdfFileInfo "edital.pdf" "C:\docs/edital.pdf" 0 0.
Proof.
  apply (fallback_name_is_the_last_segment "C:\docs" "edital.pdf" "/"%char).
  - reflexivity.
  - reflexivity.
  - intros c Hc. simpl in Hc.
    repeat (destruct Hc as [<- | Hc]; [reflexivity |]). destruct Hc.
Defined.

Lemma StronglySorted_impl {A} (R R' : A -> A -> Prop) (l : list A) :
  (forall a b, R a b -> R' a b) -> StronglySorted R l -> StronglySorted R' l.
Proof.
  intros H. induction 1 as [| a l Hl IH Ha]; constructor; [exact IH |].
  eapply Forall_impl; [| exact Ha]. apply H.
Qed.

(** X14. [loadPdfFilesList] shows one entry for every path the backend
    listed, also for those whose info call was rejected; the entries
    are a rearrangement of the answers sorted by modification date, the
    newest first, and files of one date keep the order in which they
    were listed. *)
Theorem pdf_list_is_sorted_newest_first
    (answers : list (string * option PdfFileInfo)) :
  let infos := map (fun a => match snd a with
                             | Some fileInfo => fileInfo
                             | None => fallback_file_info (fst a)
                             end) answers in
  List.length (pdf_files_loaded answers) = List.length answers
  /\ Permutation (pdf_files_loaded answers) infos
  /\ StronglySorted (fun a b => modified_timestamp b <= modified_timestamp a)
       (pdf_files_loaded answers)
  /\ forall t, filter (fun f => modified_timestamp f =? t) (pdf_files_loaded answers)
               = filter (fun f => modified_timestamp f =? t) infos.
Proof.
  intros infos. unfold pdf_files_loaded. fold infos.
  set (key := fun f : PdfFileInfo => (- Z.of_nat (modified_timestamp f))%Z).
  assert (Hkey : forall a b, (newest_first a b <=? 0)%Z = (key a <=? key b)%Z).
  { intros a b. unfold newest_first, key.
    destruct (Z.leb_spec (Z.of_nat (modified_timestamp b) - Z.of_nat (modified_timestamp a)) 0),
      (Z.leb_spec (- Z.of_nat (modified_timestamp a)) (- Z.of_nat (modified_timestamp b)));
      try reflexivity; lia. }
  assert (P := sort_perm newest_first infos).
  repeat split.
  - rewrite (Permutation_length P). unfold infos. apply length_map.
  - exact P.
  - apply (StronglySorted_impl (fun a b => (key a <= key b)%Z));
      [unfold key; intros; lia | apply (sort_sorted key newest_first Hkey)].
  - intros t. assert (S := sort_stable key newest_first Hkey (- Z.of_nat t) infos).
    assert (F : forall l : list PdfFileInfo,
               filter (fun f => (key f =? - Z.of_nat t)%Z) l
               = filter (fun f => modified_timestamp f =? t) l).
    { intros l. apply filter_ext. intros f. unfold key.
      destruct (Nat.eqb_spec (modified_timestamp f) t) as [E | E].
      - apply Z.eqb_eq. lia.
      - apply Z.eqb_neq. lia. }
    rewrite <- !F. exact S.
Qed.

(** ** [RelacaoPdfComponent] *)

Lemma compare_by_field (localeCompare : string -> string -> Z)
    (st : RelacaoPdf.State) :
  RelacaoPdf.sortBy st <> RelacaoPdf.name ->
  let key := fun f =>
               match RelacaoPdf.sortDirection st with
               | RelacaoPdf.asc => Z.of_nat (sort_field (RelacaoPdf.sortBy st) f)
               | RelacaoPdf.desc => (- Z.of_nat (sort_field (RelacaoPdf.sortBy st) f))%Z
               end in
  forall a b, (RelacaoPdf.compare localeCompare st a b <=? 0)%Z = (key a <=? key b)%Z.
Proof.
  intros Hn key a b. unfold RelacaoPdf.compare, key, sort_field.
  destruct (RelacaoPdf.sortBy st); [congruence | |];
    destruct (RelacaoPdf.sortDirection st);
    match goal with
    | |- (?x <=? 0)%Z = (?y <=? ?z)%Z =>
        destruct (Z.leb_spec x 0), (Z.leb_spec y z); try reflexivity; lia
    end.
Qed.

Lemma sortFiles_sorted
    (localeCompare : string -> string -> Z) (st : RelacaoPdf.State) :
  RelacaoPdf.sortBy st <> RelacaoPdf.name ->
  Permutation (RelacaoPdf.availablePdfFiles (RelacaoPdf.sortFiles localeCompare st))
    (RelacaoPdf.availablePdfFiles st)
  /\ StronglySorted (in_order (RelacaoPdf.sortBy st) (RelacaoPdf.sortDirection st))
       (RelacaoPdf.availablePdfFiles (RelacaoPdf.sortFiles localeCompare st)).
Proof.
  intros Hn. assert (Hkey := compare_by_field localeCompare st Hn).
  cbv zeta in Hkey. set (key := fun f => _) in Hkey.
  unfold RelacaoPdf.sortFiles. simpl.
  split; [apply sort_perm |].
  apply (StronglySorted_impl (fun a b => (key a <= key b)%Z));
    [| apply (sort_sorted key _ Hkey)].
  unfold key, in_order. destruct (RelacaoPdf.sortDirection st); intros; lia.
Qed.

(** X15. [sortFiles] by date or by size rearranges the list into the
    order the direction asks for, ascending or descending by that
    column, and changes nothing else; files equal in that column keep
    their order. *)
Theorem sortFiles_orders_the_list
    (localeCompare : string -> string -> Z) (st : RelacaoPdf.State) :
  RelacaoPdf.sortBy st <> RelacaoPdf.name ->
  let st' := RelacaoPdf.sortFiles localeCompare st in
  Permutation (RelacaoPdf.availablePdfFiles st') (RelacaoPdf.availablePdfFiles st)
  /\ StronglySorted (in_order (RelacaoPdf.sortBy st) (RelacaoPdf.sortDirection st))
       (RelacaoPdf.availablePdfFiles st')
  /\ (forall v, filter (fun f => sort_field (RelacaoPdf.sortBy st) f =? v)
                  (RelacaoPdf.availablePdfFiles st')
                = filter (fun f => sort_field (RelacaoPdf.sortBy st) f =? v)
                    (RelacaoPdf.availablePdfFiles st))
  /\ RelacaoPdf.selectedFiles st' = RelacaoPdf.selectedFiles st
  /\ RelacaoPdf.sortBy st' = RelacaoPdf.sortBy st
  /\ RelacaoPdf.sortDirection st' = RelacaoPdf.sortDirection st.
Proof.
  intros Hn st'. destruct (sortFiles_sorted localeCompare st Hn) as [P S].
  assert (Hkey := compare_by_field localeCompare st Hn).
  cbv zeta in Hkey. set (key := fun f => _) in Hkey.
  subst st'. split; [exact P |]. split; [exact S |].
  unfold RelacaoPdf.sortFiles. simpl. split; [| auto].
  intros v.
  set (k := match RelacaoPdf.sortDirection st with
            | RelacaoPdf.asc => Z.of_nat v
            | RelacaoPdf.desc => (- Z.of_nat v)%Z
            end).
  assert (F : forall l : list PdfFileInfo,
             filter (fun f => (key f =? k)%Z) l
             = filter (fun f => sort_field (RelacaoPdf.sortBy st) f =? v) l).
  { intros l. apply filter_ext. intros f. unfold key, k.
    destruct (Nat.eqb_spec (sort_field (RelacaoPdf.sortBy st) f) v) as [E | E];
      destruct (RelacaoPdf.sortDirection st);
      (apply Z.eqb_eq; lia) || (apply Z.eqb_neq; lia). }
  rewrite <- !F. apply (sort_stable key _ Hkey).
Qed.

Lemma sortFiles_orders_the_list_witness :
  let st := RelacaoPdf.mkState "/p" "/out" [file_a; file_b; file_c] None ""
              RelacaoPdf.size RelacaoPdf.desc [] in
  let st' := RelacaoPdf.sortFiles (fun _ _ => 0%Z) st in
  RelacaoPdf.availablePdfFiles st' = [file_a; file_c; file_b]
  /\ Permutation (RelacaoPdf.availablePdfFiles st') (RelacaoPdf.availablePdfFiles st)
  /\ StronglySorted (in_order (RelacaoPdf.sortBy st) (RelacaoPdf.sortDirection st))
       (RelacaoPdf.availablePdfFiles st')
  /\ (forall v, filter (fun f => sort_field (RelacaoPdf.sortBy st) f =? v)
                  (RelacaoPdf.availablePdfFiles st')
                = filter (fun f => sort_field (RelacaoPdf.sortBy st) f =? v)
                    (RelacaoPdf.availablePdfFiles st))
  /\ RelacaoPdf.selectedFiles st' = RelacaoPdf.selectedFiles st
  /\ RelacaoPdf.sortBy st' = RelacaoPdf.sortBy st
  /\ RelacaoPdf.sortDirection st' = RelacaoPdf.sortDirection st.
Proof.
  split; [reflexivity |].
  apply (sortFiles_orders_the_list (fun _ _ => 0%Z)
           (RelacaoPdf.mkState "/p" "/out" [file_a; file_b; file_c] None ""
              RelacaoPdf.size RelacaoPdf.desc [])).
  discriminate.
Defined.

(** X16. [changeSortBy] with the date or the size column makes it the
    sort column, ascending when another column was sorted by and in the
    reverse of the present direction when it was this one, and leaves
    the list sorted by that column in that direction. *)
Theorem changeSortBy_sorts_by_the_column
    (localeCompare : string -> string -> Z) (field : RelacaoPdf.SortField)
    (st : RelacaoPdf.State) :
  field <> RelacaoPdf.name ->
  let st' := RelacaoPdf.changeSortBy localeCompare field st in
  RelacaoPdf.sortBy st' = field
  /\ RelacaoPdf.sortDirection st' =
     (if RelacaoPdf.SortField_eqb (RelacaoPdf.sortBy st) field
      then match RelacaoPdf.sortDirection st with
           | RelacaoPdf.asc => RelacaoPdf.desc
           | RelacaoPdf.desc => RelacaoPdf.asc
           end
      else RelacaoPdf.asc)
  /\ Permutation (RelacaoPdf.availablePdfFiles st') (RelacaoPdf.availablePdfFiles st)
  /\ StronglySorted (in_order field (RelacaoPdf.sortDirection st'))
       (RelacaoPdf.availablePdfFiles st').
Proof.
  intros Hn st'. subst st'. unfold RelacaoPdf.changeSortBy.
  destruct (RelacaoPdf.SortField_eqb (RelacaoPdf.sortBy st) field) eqn:E.
  - assert (Ef : RelacaoPdf.sortBy st = field)
      by (destruct (RelacaoPdf.sortBy st), field; simpl in E; congruence).
    match goal with
    | |- context [RelacaoPdf.sortFiles localeCompare ?s] =>
        destruct (sortFiles_sorted localeCompare s) as (P & S)
    end; [simpl; congruence |].
    simpl in P, S. simpl. rewrite Ef in P, S |- *. auto.
  - match goal with
    | |- context [RelacaoPdf.sortFiles localeCompare ?s] =>
        destruct (sortFiles_sorted localeCompare s) as (P & S)
    end; [simpl; congruence |].
    simpl in P, S. simpl. auto.
Qed.

Lemma changeSortBy_sorts_by_the_column_witness :
  let st' := RelacaoPdf.changeSortBy (fun _ _ => 0%Z) RelacaoPdf.date three_files in
  RelacaoPdf.sortBy st' = RelacaoPdf.date
  /\ RelacaoPdf.sortDirection st' =
     (if RelacaoPdf.SortField_eqb (RelacaoPdf.sortBy three_files) RelacaoPdf.date
      then match RelacaoPdf.sortDirection three_files with
           | RelacaoPdf.asc => RelacaoPdf.desc
           | RelacaoPdf.desc => RelacaoPdf.asc
           end
      else RelacaoPdf.asc)
  /\ Permutation (RelacaoPdf.availablePdfFiles st')
       (RelacaoPdf.availablePdfFiles three_files)
  /\ StronglySorted (in_order RelacaoPdf.date (RelacaoPdf.sortDirection st'))
       (RelacaoPdf.availablePdfFiles st').
Proof.
  apply (changeSortBy_sorts_by_the_column (fun _ _ => 0%Z) RelacaoPdf.date three_files).
  discriminate.
Defined.

(** ** The selection of [RelacaoPdfComponent] *)

Lemma has_In (x : string) (s : JsSet.set) : JsSet.has x s = true <-> In x s.
Proof.
  unfold JsSet.has. rewrite existsb_exists. split.
  - intros [y [Hy E]]. apply String.eqb_eq in E. subst. exact Hy.
  - intros H. exists x. split; [exact H | apply String.eqb_refl].
Qed.

Lemma has_add (x y : string) (s : JsSet.set) :
  JsSet.has y (JsSet.add x s) = String.eqb y x || JsSet.has y s.
Proof.
  unfold JsSet.add. destruct (JsSet.has x s) eqn:Hx.
  - destruct (String.eqb_spec y x) as [-> |]; [rewrite Hx |]; reflexivity.
  - unfold JsSet.has. rewrite existsb_app. simpl. rewrite orb_false_r.
    apply orb_comm.
Qed.

Lemma has_delete (x y : string) (s : JsSet.set) :
  JsSet.has y (JsSet.delete x s) = negb (String.eqb y x) && JsSet.has y s.
Proof.
  unfold JsSet.delete, JsSet.has. induction s as [| z s IH]; simpl.
  - rewrite andb_false_r. reflexivity.
  - destruct (String.eqb_spec x z) as [-> | Hxz]; simpl.
    + rewrite IH. destruct (String.eqb_spec y z); simpl; reflexivity.
    + rewrite IH. destruct (String.eqb_spec y z) as [-> | Hyz]; simpl.
      * destruct (String.eqb_spec z x); [congruence | reflexivity].
      * reflexivity.
Qed.

Lemma NoDup_add (x : string) (s : JsSet.set) : NoDup s -> NoDup (JsSet.add x s).
Proof.
  intros H. unfold JsSet.add. destruct (JsSet.has x s) eqn:Hx; [exact H |].
  apply NoDup_app; [exact H | repeat constructor; simpl; tauto |].
  intros y Hy [<- | []]. apply has_In in Hy. congruence.
Qed.

Lemma NoDup_delete (x : string) (s : JsSet.set) : NoDup s -> NoDup (JsSet.delete x s).
Proof. intros H. apply NoDup_filter, H. Qed.

Lemma size_delete (x : string) (s : JsSet.set) :
  NoDup s -> JsSet.has x s = true ->
  S (JsSet.size (JsSet.delete x s)) = JsSet.size s.
Proof.
  unfold JsSet.size, JsSet.delete. induction 1 as [| z s Hz Hs IH]; intros Hx.
  - discriminate.
  - simpl. destruct (String.eqb_spec x z) as [-> | Hxz]; simpl.
    + f_equal. clear IH Hx Hs. induction s as [| u s IHs]; [reflexivity |].
      simpl. destruct (String.eqb_spec z u) as [-> | Hzu].
      * exfalso. apply Hz. left. reflexivity.
      * simpl. f_equal. apply IHs. intros H. apply Hz. right. exact H.
    + f_equal. apply IH. unfold JsSet.has in Hx |- *. simpl in Hx.
      destruct (String.eqb_spec x z); [congruence | exact Hx].
Qed.

(** X17. Clicking a file's check box twice restores the selection:
    after the first [toggleFileSelection] the file's state is the
    opposite, after the second every file is selected exactly when it
    was before, and the count is what it was. *)
Theorem toggleFileSelection_twice_restores
    (fileInfo : PdfFileInfo) (st : RelacaoPdf.State) :
  NoDup (RelacaoPdf.selectedFiles st) ->
  let st1 := RelacaoPdf.toggleFileSelection fileInfo st in
  let st2 := RelacaoPdf.toggleFileSelection fileInfo st1 in
  RelacaoPdf.isFileSelected fileInfo st1 = negb (RelacaoPdf.isFileSelected fileInfo st)
  /\ (forall other, RelacaoPdf.isFileSelected other st2
                    = RelacaoPdf.isFileSelected other st)
  /\ RelacaoPdf.getSelectedFilesCount st2 = RelacaoPdf.getSelectedFilesCount st
  /\ NoDup (RelacaoPdf.selectedFiles st2).
Proof.
  intros Hnd. cbv zeta.
  unfold RelacaoPdf.toggleFileSelection, RelacaoPdf.isFileSelected,
    RelacaoPdf.getSelectedFilesCount.
  set (p := file_path fileInfo). set (s := RelacaoPdf.selectedFiles st) in *.
  destruct (JsSet.has p s) eqn:Hp; simpl.
  - rewrite has_delete, String.eqb_refl. simpl.
    split; [reflexivity |]. split; [| split].
    + intros other. rewrite has_add, has_delete.
      destruct (String.eqb_spec (file_path other) p) as [-> |]; simpl;
        [rewrite Hp |]; reflexivity.
    + unfold JsSet.add. rewrite has_delete, String.eqb_refl. simpl.
      assert (E := size_delete p s Hnd Hp).
      unfold JsSet.size in E |- *. rewrite length_app. simpl. lia.
    + apply NoDup_add, NoDup_delete, Hnd.
  - rewrite has_add, String.eqb_refl. simpl.
    split; [reflexivity |]. split; [| split].
    + intros other. rewrite has_delete, has_add.
      destruct (String.eqb_spec (file_path other) p) as [-> |]; simpl;
        [rewrite Hp |]; reflexivity.
    + assert (Ha : JsSet.has p (JsSet.add p s) = true)
        by (rewrite has_add, String.eqb_refl; reflexivity).
      assert (E := size_delete p (JsSet.add p s) (NoDup_add p s Hnd) Ha).
      unfold JsSet.add in E at 2. rewrite Hp in E.
      unfold JsSet.size in E |- *. rewrite length_app in E. simpl in E. lia.
    + apply NoDup_delete, NoDup_add, Hnd.
Qed.

Lemma toggleFileSelection_twice_restores_witness :
  let st := RelacaoPdf.with_selectedFiles ["/p/b.pdf"] three_files in
  let st1 := RelacaoPdf.toggleFileSelection file_a st in
  let st2 := RelacaoPdf.toggleFileSelection file_a st1 in
  RelacaoPdf.isFileSelected file_a st1 = negb (RelacaoPdf.isFileSelected file_a st)
  /\ (forall other, RelacaoPdf.isFileSelected other st2
                    = RelacaoPdf.isFileSelected other st)
  /\ RelacaoPdf.getSelectedFilesCount st2 = RelacaoPdf.getSelectedFilesCount st
  /\ NoDup (RelacaoPdf.selectedFiles st2).
Proof.
  apply (toggleFileSelection_twice_restores file_a
           (RelacaoPdf.with_selectedFiles ["/p/b.pdf"] three_files)).
  simpl. constructor; [simpl; tauto | constructor].
Defined.

Lemma add_all_spec (files : list PdfFileInfo) (s : JsSet.set) :
  NoDup s ->
  let s' := fold_left (fun s0 file => JsSet.add (file_path file) s0) files s in
  NoDup s'
  /\ forall y, JsSet.has y s' = JsSet.has y s || existsb (fun f => String.eqb y (file_path f)) files.
Proof.
  revert s. induction files as [| f files IH]; intros s Hnd; simpl.
  - split; [exact Hnd |]. intros y. rewrite orb_false_r. reflexivity.
  - destruct (IH (JsSet.add (file_path f) s) (NoDup_add _ _ Hnd)) as [N H].
    split; [exact N |]. intros y. rewrite H, has_add.
    destruct (String.eqb y (file_path f)), (JsSet.has y s); reflexivity.
Qed.

(** X18. With no search term, distinct file paths and a selection taken
    from the list, [selectAllFiles] selects every file of the list
    unless all are selected already, and then it clears the selection:
    it switches between all and none. *)
Theorem selectAllFiles_switches_between_all_and_none
    (toLowerCase : string -> string) (st : RelacaoPdf.State) :
  RelacaoPdf.searchTerm st = "" ->
  NoDup (map file_path (RelacaoPdf.availablePdfFiles st)) ->
  NoDup (RelacaoPdf.selectedFiles st) ->
  incl (RelacaoPdf.selectedFiles st) (map file_path (RelacaoPdf.availablePdfFiles st)) ->
  let st' := RelacaoPdf.selectAllFiles toLowerCase st in
  if RelacaoPdf.getSelectedFilesCount st
     =? List.length (RelacaoPdf.availablePdfFiles st)
  then RelacaoPdf.selectedFiles st' = []
  else (forall f, In f (RelacaoPdf.availablePdfFiles st) ->
                  RelacaoPdf.isFileSelected f st' = true)
       /\ RelacaoPdf.getSelectedFilesCount st'
          = List.length (RelacaoPdf.availablePdfFiles st)
       /\ RelacaoPdf.selectedFiles (RelacaoPdf.selectAllFiles toLowerCase st') = [].
Proof.
  intros Hs Hfiles Hsel Hincl. cbv zeta.
  assert (Hf : forall s0, RelacaoPdf.getFilteredFiles toLowerCase
                            (RelacaoPdf.with_selectedFiles s0 st)
                          = RelacaoPdf.availablePdfFiles st).
  { intros s0. unfold RelacaoPdf.getFilteredFiles. simpl. rewrite Hs. reflexivity. }
  assert (Hf0 : RelacaoPdf.getFilteredFiles toLowerCase st
                = RelacaoPdf.availablePdfFiles st).
  { unfold RelacaoPdf.getFilteredFiles. rewrite Hs. reflexivity. }
  unfold RelacaoPdf.selectAllFiles, RelacaoPdf.getSelectedFilesCount,
    RelacaoPdf.isFileSelected. rewrite Hf0.
  destruct (JsSet.size (RelacaoPdf.selectedFiles st)
            =? List.length (RelacaoPdf.availablePdfFiles st)) eqn:E;
    [reflexivity |].
  destruct (add_all_spec (RelacaoPdf.availablePdfFiles st)
              (RelacaoPdf.selectedFiles st) Hsel) as [N H].
  set (s' := fold_left _ _ _) in *.
  assert (Hlen : JsSet.size s' = List.length (RelacaoPdf.availablePdfFiles st)).
  { unfold JsSet.size. rewrite <- (length_map file_path).
    apply Permutation_length, NoDup_Permutation; [exact N | exact Hfiles |].
    intros y. rewrite <- has_In, H, in_map_iff. split.
    - intros Hy. apply orb_prop in Hy as [Hy | Hy].
      + apply has_In in Hy. apply Hincl in Hy. apply in_map_iff in Hy. exact Hy.
      + apply existsb_exists in Hy as [f [Hin Ey]]. apply String.eqb_eq in Ey.
        exists f. auto.
    - intros [f [<- Hin]]. apply orb_true_iff. right.
      apply existsb_exists. exists f. split; [exact Hin | apply String.eqb_refl]. }
  simpl. split; [| split].
  - intros f Hin. rewrite H. apply orb_true_iff. right.
    apply existsb_exists. exists f. split; [exact Hin | apply String.eqb_refl].
  - exact Hlen.
  - rewrite Hf, Hlen, Nat.eqb_refl. reflexivity.
Qed.

Lemma selectAllFiles_switches_between_all_and_none_witness :
  let st := RelacaoPdf.with_selectedFiles ["/p/b.pdf"] three_files in
  let st' := RelacaoPdf.selectAllFiles (fun s => s) st in
  if RelacaoPdf.getSelectedFilesCount st
     =? List.length (RelacaoPdf.availablePdfFiles st)
  then RelacaoPdf.selectedFiles st' = []
  else (forall f, In f (RelacaoPdf.availablePdfFiles st) ->
                  RelacaoPdf.isFileSelected f st' = true)
       /\ RelacaoPdf.getSelectedFilesCount st'
          = List.length (RelacaoPdf.availablePdfFiles st)
       /\ RelacaoPdf.selectedFiles (RelacaoPdf.selectAllFiles (fun s => s) st') = [].
Proof.
  apply (selectAllFiles_switches_between_all_and_none (fun s => s)
           (RelacaoPdf.with_selectedFiles ["/p/b.pdf"] three_files)).
  - reflexivity.
  - simpl. repeat (constructor; [simpl; intuition discriminate |]). constructor.
  - simpl. constructor; [simpl; tauto | constructor].
  - intros y [<- | []]. simpl. tauto.
Defined.

(** ** [SelecionarPastaComponent] *)

(** X19. The path shown by [getTruncatedPath] is never longer than 50
    code units: a path of at most 50 is shown whole, a longer one as
    its first 20 units, three dots and its last 25, which makes 48. *)
Theorem getTruncatedPath_is_short (currentPath : Utf16.str) :
  List.length (SelecionarPasta.getTruncatedPath currentPath) <= 50
  /\ (if (0 <? List.length currentPath) && (List.length currentPath <=? 50)
      then SelecionarPasta.getTruncatedPath currentPath = currentPath
      else True)
  /\ (if 50 <? List.length currentPath
      then SelecionarPasta.getTruncatedPath currentPath
           = firstn 20 currentPath ++ Utf16.lit "..."
             ++ skipn (List.length currentPath - 25) currentPath
           /\ List.length (SelecionarPasta.getTruncatedPath currentPath) = 48
      else True).
Proof.
  unfold SelecionarPasta.getTruncatedPath.
  destruct currentPath as [| u rest]; [simpl; repeat split; lia |].
  set (p := u :: rest).
  destruct (List.length p <=? 50) eqn:E.
  - apply Nat.leb_le in E. split; [exact E |]. split.
    + change (0 <? List.length p) with true. reflexivity.
    + destruct (50 <? List.length p) eqn:E'; [| exact I].
      apply Nat.ltb_lt in E'. lia.
  - apply Nat.leb_gt in E.
    assert (L : List.length (Utf16.substring 0 20 p ++ Utf16.lit "..."
                             ++ Utf16.substring_from (List.length p - 25) p) = 48).
    { unfold Utf16.substring, Utf16.substring_from.
      rewrite !length_app, length_firstn, !length_skipn.
      change (List.length (Utf16.lit "...")) with 3. simpl skipn. lia. }
    split; [rewrite L; lia |]. split.
    + change (0 <? List.length p) with true. simpl. exact I.
    + destruct (50 <? List.length p) eqn:E'; [| exact I].
      split; [reflexivity | exact L].
Qed.

(** ** [NavigationService] *)

Lemma setCurrentPage_known (pageId : string) (s : Navigation.Service) :
  In (Navigation.currentPage s) (map Navigation.id Navigation.menuItems) ->
  In (Navigation.currentPage (Navigation.setCurrentPage pageId s))
    (map Navigation.id Navigation.menuItems).
Proof.
  intros H. unfold Navigation.setCurrentPage.
  destruct (existsb _ Navigation.menuItems) eqn:E; [| exact H].
  apply existsb_exists in E as [item [Hin Eq]]. apply String.eqb_eq in Eq.
  simpl Navigation.currentPage. rewrite <- Eq. apply in_map, Hin.
Qed.

(** X20. Whatever the components call on the navigation service, the
    current page stays one of the six menu entries: [setCurrentPage]
    ignores an unknown id.  So the menu entry of the current page is
    always found and it has its two header buttons. *)
Theorem current_page_is_always_a_menu_entry (ops : list Navigation.Op) :
  let s := Navigation.run ops Navigation.initial in
  In (Navigation.getCurrentPage s) (map Navigation.id Navigation.menuItems)
  /\ (exists item, Navigation.getMenuItem (Navigation.getCurrentPage s) = Some item
                   /\ Navigation.id item = Navigation.getCurrentPage s)
  /\ List.length (Navigation.getHeaderButtons (Navigation.getCurrentPage s)) = 2.
Proof.
  assert (G : forall s0,
             In (Navigation.currentPage s0) (map Navigation.id Navigation.menuItems) ->
             In (Navigation.currentPage (Navigation.run ops s0))
               (map Navigation.id Navigation.menuItems)).
  { unfold Navigation.run. induction ops as [| o ops IH]; intros s0 H0; [exact H0 |].
    simpl. apply IH. destruct o; simpl; try exact H0.
    - apply setCurrentPage_known, H0.
    - unfold Navigation.selectMenuItem.
      destruct (Navigation.sidebarOpen _); [simpl |];
        apply setCurrentPage_known, H0. }
  assert (H := G Navigation.initial (or_intror (or_introl eq_refl))).
  cbv zeta. unfold Navigation.getCurrentPage.
  split; [exact H |].
  simpl in H.
  repeat (destruct H as [<- | H];
          [split; [eexists; split; reflexivity | reflexivity] |]).
  destruct H.
Qed.

(** ** [DadosEmpresasComponent] *)

Lemma DadosEmpresas_addLog_eq (timestamp message : string)
    (c : DadosEmpresas.Component) :
  DadosEmpresas.addLog timestamp message c
  = DadosEmpresas.set_logs
      (firstn 50 (String.concat "" ["["; timestamp; "] "; message]
                  :: DadosEmpresas.logs c)) c.
Proof.
  unfold DadosEmpresas.addLog, Js.slice_first. cbv zeta.
  set (l := _ :: DadosEmpresas.logs c).
  destruct (50 <? List.length l) eqn:E; [reflexivity |].
  apply Nat.ltb_ge in E. rewrite (firstn_all2 l E). reflexivity.
Qed.

Lemma collect_spec (propostas : list DadosEmpresas.Proposta)
    (acc : JsSet.set * list DadosEmpresas.SicafData) :
  NoDup (fst acc) ->
  map DadosEmpresas.sd_cnpj (snd acc) = fst acc ->
  Forall (fun d => DadosEmpresas.situacao_cadastro d = Some (Some "Não verificado"))
    (snd acc) ->
  let r := fold_left DadosEmpresas.collect propostas acc in
  NoDup (fst r)
  /\ map DadosEmpresas.sd_cnpj (snd r) = fst r
  /\ (forall c, In c (fst r) <->
                In c (fst acc)
                \/ (Js.truthy c = true
                    /\ exists p, In p propostas /\ DadosEmpresas.cnpj p = Some c))
  /\ Forall (fun d => DadosEmpresas.situacao_cadastro d = Some (Some "Não verificado"))
       (snd r).
Proof.
  revert acc.
  induction propostas as [| p propostas IH]; intros acc Hnd Hmap Hst; simpl.
  - repeat split; auto.
    intros [H | (_ & q & [] & _)]; exact H.
  - assert (Step : NoDup (fst (DadosEmpresas.collect acc p))
                   /\ map DadosEmpresas.sd_cnpj (snd (DadosEmpresas.collect acc p))
                      = fst (DadosEmpresas.collect acc p)
                   /\ (forall c, In c (fst (DadosEmpresas.collect acc p)) <->
                                 In c (fst acc)
                                 \/ (Js.truthy c = true /\ DadosEmpresas.cnpj p = Some c))
                   /\ Forall (fun d => DadosEmpresas.situacao_cadastro d
                                       = Some (Some "Não verificado"))
                        (snd (DadosEmpresas.collect acc p))).
    { unfold DadosEmpresas.collect.
      destruct (DadosEmpresas.cnpj p) as [c0 |] eqn:Ec.
      - destruct (Js.truthy c0) eqn:Et; simpl.
        + destruct (JsSet.has c0 (fst acc)) eqn:Eh; simpl.
          * repeat split; auto.
            intros [H | [_ [= ->]]]; [exact H | apply has_In, Eh].
          * split; [apply NoDup_add, Hnd |]. split; [| split].
            -- unfold JsSet.add. rewrite Eh, map_app, Hmap. reflexivity.
            -- intros c. rewrite <- !has_In, has_add.
               destruct (String.eqb_spec c c0) as [-> | Hne]; simpl.
               ++ split; auto.
               ++ split; [auto |]. intros [H | [_ [= ->]]]; [exact H | congruence].
            -- apply Forall_app. split; [exact Hst |].
               apply Forall_cons; [reflexivity | apply Forall_nil].
        + repeat split; auto.
          intros [H | [Ht [= ->]]]; [exact H | congruence].
      - repeat split; auto.
        intros [H | [_ Hd]]; [exact H | discriminate]. }
    destruct Step as (S1 & S2 & S3 & S4).
    destruct (IH (DadosEmpresas.collect acc p) S1 S2 S4) as (R1 & R2 & R3 & R4).
    split; [exact R1 |]. split; [exact R2 |]. split; [| exact R4].
    intros c. rewrite R3, S3. split.
    + intros [[H | [Ht Hc]] | (Ht & q & Hq & Hc)]; auto.
      * right. split; [exact Ht |]. exists p. auto.
      * right. split; [exact Ht |]. exists q. auto.
    + intros [H | (Ht & q & [<- | Hq] & Hc)]; auto.
      right. split; [exact Ht |]. exists q. auto.
Qed.

Lemma companies_of_spec (propostas : list DadosEmpresas.Proposta) :
  let r := DadosEmpresas.companies_of propostas in
  NoDup (fst r)
  /\ map DadosEmpresas.sd_cnpj (snd r) = fst r
  /\ (forall c, In c (fst r) <->
                (c <> ""
                 /\ exists p, In p propostas /\ DadosEmpresas.cnpj p = Some c))
  /\ Forall (fun d => DadosEmpresas.situacao_cadastro d = Some (Some "Não verificado"))
       (snd r).
Proof.
  cbv zeta. unfold DadosEmpresas.companies_of.
  destruct (collect_spec propostas ([], []) (NoDup_nil _) eq_refl (Forall_nil _))
    as (R1 & R2 & R3 & R4).
  split; [exact R1 |]. split; [exact R2 |]. split; [| exact R4].
  intros c. rewrite R3. simpl. split.
  - intros [[] | (Ht & H)]. split; [| exact H]. intros ->. discriminate.
  - intros (Hne & H). right. split; [| exact H].
    destruct c; [congruence | reflexivity].
Qed.

Lemma onJsonFileSelected_loaded_fields (timestamp : string)
    (propostas : list DadosEmpresas.Proposta) (c : DadosEmpresas.Component) :
  DadosEmpresas.sicafData (DadosEmpresas.onJsonFileSelected_loaded timestamp propostas c)
  = snd (DadosEmpresas.companies_of propostas)
  /\ DadosEmpresas.cnpjRegistrados
       (DadosEmpresas.onJsonFileSelected_loaded timestamp propostas c)
     = fst (DadosEmpresas.companies_of propostas).
Proof.
  unfold DadosEmpresas.onJsonFileSelected_loaded. cbv zeta.
  rewrite DadosEmpresas_addLog_eq. split; reflexivity.
Qed.

Lemma status_counts (s : string) (l : list DadosEmpresas.SicafData) :
  Forall (fun d => DadosEmpresas.situacao_cadastro d = Some (Some s)) l ->
  List.length (filter (DadosEmpresas.has_status s) l) = List.length l.
Proof.
  induction 1 as [| d l H _ IH]; [reflexivity |].
  simpl. unfold DadosEmpresas.has_status at 1. rewrite H, String.eqb_refl.
  simpl. rewrite IH. reflexivity.
Qed.

(** X21. The companies [onJsonFileSelected] lists for a results file are
    one per distinct CNPJ: no CNPJ appears twice, the CNPJs listed are
    those of the set kept for [isCnpjRegistered], in the same order,
    a CNPJ is registered exactly when it is not empty and some proposal
    carries it, and every company starts as not verified. *)
Theorem companies_have_distinct_cnpjs (timestamp : string)
    (propostas : list DadosEmpresas.Proposta) (c : DadosEmpresas.Component) :
  let c' := DadosEmpresas.onJsonFileSelected_loaded timestamp propostas c in
  NoDup (map DadosEmpresas.sd_cnpj (DadosEmpresas.sicafData c'))
  /\ map DadosEmpresas.sd_cnpj (DadosEmpresas.sicafData c')
     = DadosEmpresas.cnpjRegistrados c'
  /\ (forall k, DadosEmpresas.isCnpjRegistered k c' = true <->
                (k <> ""
                 /\ exists p, In p propostas /\ DadosEmpresas.cnpj p = Some k))
  /\ DadosEmpresas.notVerifiedCount c' = List.length (DadosEmpresas.sicafData c')
  /\ DadosEmpresas.verifiedCount c' = 0.
Proof.
  cbv zeta. unfold DadosEmpresas.isCnpjRegistered, DadosEmpresas.notVerifiedCount,
    DadosEmpresas.verifiedCount.
  destruct (onJsonFileSelected_loaded_fields timestamp propostas c) as [-> ->].
  destruct (companies_of_spec propostas) as (R1 & R2 & R3 & R4).
  rewrite R2. split; [exact R1 |]. split; [reflexivity |]. split; [| split].
  - intros k. rewrite has_In. apply R3.
  - apply status_counts, R4.
  - clear R1 R2 R3. induction R4 as [| d l H _ IH]; [reflexivity |].
    simpl. unfold DadosEmpresas.has_status at 1. rewrite H. simpl. exact IH.
Qed.

(** X22. The log of [DadosEmpresasComponent] holds the newest 50 lines,
    the newest first: after any series of [addLog] calls on a cleared
    log it is the first 50 of the lines in reverse order of logging,
    each behind its time stamp in brackets. *)
Theorem company_log_keeps_the_newest_50 (calls : list (string * string))
    (c : DadosEmpresas.Component) :
  let c' := DadosEmpresas.addLogs calls (DadosEmpresas.clearLogs c) in
  List.length (DadosEmpresas.logs c') <= 50
  /\ DadosEmpresas.logs c'
     = firstn 50
         (rev (map (fun call => String.concat "" ["["; fst call; "] "; snd call])
                 calls)).
Proof.
  cbv zeta.
  assert (G : forall c0 hist,
             DadosEmpresas.logs c0 = firstn 50 hist ->
             DadosEmpresas.logs (DadosEmpresas.addLogs calls c0)
             = firstn 50
                 (rev (map (fun call =>
                              String.concat "" ["["; fst call; "] "; snd call])
                         calls)
                  ++ hist)).
  { unfold DadosEmpresas.addLogs.
    induction calls as [| [t m] calls IH]; intros c0 hist H0; [exact H0 |].
    cbn [fold_left map rev fst snd]. rewrite <- app_assoc. cbn [app].
    apply IH. rewrite DadosEmpresas_addLog_eq.
    unfold DadosEmpresas.set_logs. cbn [DadosEmpresas.logs]. rewrite H0.
    generalize (String.concat "" ["["; t; "] "; m]). intros line.
    change (firstn 50 (line :: firstn 50 hist))
      with (line :: firstn 49 (firstn 50 hist)).
    change (firstn 50 (line :: hist)) with (line :: firstn 49 hist).
    rewrite firstn_firstn. reflexivity. }
  rewrite (G (DadosEmpresas.clearLogs c) [] eq_refl), app_nil_r.
  split; [apply firstn_le_length | reflexivity].
Qed.

Lemma JsMap_get_set {V} (k k' : string) (v : V) (m : JsMap.t V) :
  JsMap.get k (JsMap.set k' v m)
  = if String.eqb k' k then Some v else JsMap.get k m.
Proof.
  induction m as [| [a b] m IH]; simpl.
  - unfold JsMap.get. simpl. destruct (String.eqb k' k); reflexivity.
  - destruct (String.eqb_spec a k') as [-> | Hne].
    + unfold JsMap.get. simpl. destruct (String.eqb k' k); reflexivity.
    + unfold JsMap.get in *. simpl.
      destruct (String.eqb_spec a k) as [-> | Hk].
      * destruct (String.eqb_spec k' k) as [-> | _]; [congruence | reflexivity].
      * exact IH.
Qed.

Lemma processedMap_get (processedData : list DadosEmpresas.SicafData)
    (m : JsMap.t DadosEmpresas.SicafData) :
  (forall k p, JsMap.get k m = Some p -> DadosEmpresas.sd_cnpj p = k) ->
  let m' := fold_left (fun m0 data => JsMap.set (DadosEmpresas.sd_cnpj data) data m0)
              processedData m in
  (forall k p, JsMap.get k m' = Some p -> DadosEmpresas.sd_cnpj p = k)
  /\ (forall k, JsMap.get k m' = None <->
                (JsMap.get k m = None
                 /\ existsb (fun d => String.eqb (DadosEmpresas.sd_cnpj d) k)
                      processedData = false)).
Proof.
  revert m. induction processedData as [| d l IH]; intros m Hm; simpl.
  - split; [exact Hm |]. intros k. split; [auto | intros [H _]; exact H].
  - destruct (IH (JsMap.set (DadosEmpresas.sd_cnpj d) d m)) as [A B].
    { intros k p. rewrite JsMap_get_set.
      destruct (String.eqb_spec (DadosEmpresas.sd_cnpj d) k) as [<- | _].
      - intros [= <-]. reflexivity.
      - apply Hm. }
    split; [exact A |]. intros k. rewrite B, JsMap_get_set.
    destruct (String.eqb (DadosEmpresas.sd_cnpj d) k); simpl.
    + split; [intros [H _]; discriminate | intros [_ H]; discriminate].
    + reflexivity.
Qed.

Lemma update_item_spec (processedData : list DadosEmpresas.SicafData)
    (item : DadosEmpresas.SicafData) :
  let item' := match JsMap.get (DadosEmpresas.sd_cnpj item)
                       (DadosEmpresas.processedMap processedData) with
               | Some processed => DadosEmpresas.merged item processed
               | None => item
               end in
  DadosEmpresas.sd_cnpj item' = DadosEmpresas.sd_cnpj item
  /\ (if existsb (fun d => String.eqb (DadosEmpresas.sd_cnpj d)
                             (DadosEmpresas.sd_cnpj item)) processedData
      then DadosEmpresas.situacao_cadastro item' = Some (Some "Verificado")
      else item' = item).
Proof.
  cbv zeta. unfold DadosEmpresas.processedMap.
  destruct (processedMap_get processedData []) as [A B].
  { intros k p H. discriminate. }
  destruct (JsMap.get _ _) as [p |] eqn:G.
  - split; [apply (A _ _ G) |].
    destruct (existsb _ processedData) eqn:E; [reflexivity |].
    assert (N : JsMap.get (DadosEmpresas.sd_cnpj item)
                  (fold_left (fun m0 data =>
                                JsMap.set (DadosEmpresas.sd_cnpj data) data m0)
                     processedData []) = None)
      by (apply B; split; [reflexivity | exact E]).
    congruence.
  - split; [reflexivity |].
    apply B in G as [_ ->]. reflexivity.
Qed.

Lemma updateSicafData_fields (timestamp : string)
    (processedData : list DadosEmpresas.SicafData) (c : DadosEmpresas.Component) :
  DadosEmpresas.sicafData
    (DadosEmpresas.updateSicafDataWithProcessedData timestamp processedData c)
  = map (fun item =>
           match JsMap.get (DadosEmpresas.sd_cnpj item)
                   (DadosEmpresas.processedMap processedData) with
           | Some processed => DadosEmpresas.merged item processed
           | None => item
           end) (DadosEmpresas.sicafData c)
  /\ DadosEmpresas.cnpjRegistrados
       (DadosEmpresas.updateSicafDataWithProcessedData timestamp processedData c)
     = DadosEmpresas.cnpjRegistrados c.
Proof.
  unfold DadosEmpresas.updateSicafDataWithProcessedData. cbv zeta.
  rewrite DadosEmpresas_addLog_eq. split; reflexivity.
Qed.

(** X23. After a results file is loaded and the SICAF documents are
    processed, a company is shown as verified exactly when it is listed
    and the processed data has an entry with its CNPJ; every other
    CNPJ reads as not verified.  The update keeps the companies and
    their order, and the two counters add up to their number. *)
Theorem status_is_verified_iff_processed (ts1 ts2 : string)
    (propostas : list DadosEmpresas.Proposta)
    (processedData : list DadosEmpresas.SicafData) (c : DadosEmpresas.Component) :
  let c1 := DadosEmpresas.onJsonFileSelected_loaded ts1 propostas c in
  let c2 := DadosEmpresas.updateSicafDataWithProcessedData ts2 processedData c1 in
  map DadosEmpresas.sd_cnpj (DadosEmpresas.sicafData c2)
  = map DadosEmpresas.sd_cnpj (DadosEmpresas.sicafData c1)
  /\ (forall k,
        DadosEmpresas.getSicafStatus k c2
        = if DadosEmpresas.isCnpjRegistered k c2
             && existsb (fun d => String.eqb (DadosEmpresas.sd_cnpj d) k) processedData
          then "Verificado" else "Não verificado")
  /\ DadosEmpresas.verifiedCount c2 + DadosEmpresas.notVerifiedCount c2
     = List.length (DadosEmpresas.sicafData c2).
Proof.
  cbv zeta.
  unfold DadosEmpresas.getSicafStatus, DadosEmpresas.isCnpjRegistered,
    DadosEmpresas.verifiedCount, DadosEmpresas.notVerifiedCount.
  destruct (updateSicafData_fields ts2 processedData
              (DadosEmpresas.onJsonFileSelected_loaded ts1 propostas c)) as [-> ->].
  destruct (onJsonFileSelected_loaded_fields ts1 propostas c) as [-> ->].
  destruct (companies_of_spec propostas) as (_ & R2 & _ & R4).
  rewrite <- R2. clear R2.
  induction R4 as [| item l Hs _ IH].
  - repeat split; reflexivity.
  - destruct IH as (I1 & I2 & I3).
    destruct (update_item_spec processedData item) as [U1 U2].
    cbv zeta in U1, U2.
    set (f := fun item0 => match JsMap.get _ _ with Some p => _ | None => item0 end)
      in *.
    change (match JsMap.get (DadosEmpresas.sd_cnpj item) _ with
            | Some p => DadosEmpresas.merged item p | None => item end)
      with (f item) in U1, U2.
    simpl map. split; [rewrite U1, I1; reflexivity |]. split.
    + intros k. simpl find. simpl JsSet.has. rewrite U1.
      rewrite (String.eqb_sym k).
      destruct (String.eqb_spec (DadosEmpresas.sd_cnpj item) k) as [E | _].
      * simpl orb. cbn [andb]. rewrite <- E.
        destruct (existsb _ processedData).
        -- rewrite U2. reflexivity.
        -- rewrite U2, Hs. reflexivity.
      * simpl orb. apply I2.
    + assert (HV : DadosEmpresas.has_status "Verificado" (f item)
                   = negb (DadosEmpresas.has_status "Não verificado" (f item))).
      { unfold DadosEmpresas.has_status.
        destruct (existsb _ processedData);
          [rewrite U2 | rewrite U2, Hs]; reflexivity. }
      cbn [filter]. rewrite HV.
      destruct (DadosEmpresas.has_status "Não verificado" (f item));
        cbn [negb List.length]; lia.
Qed.

Lemma take_count (id : nat) (l rest : list (nat * DadosEmpresas.Frame))
    (k : DadosEmpresas.Frame) :
  DadosEmpresas.take id l = Some (k, rest) ->
  List.length (filter DadosEmpresas.is_process_call l)
  = (if DadosEmpresas.is_process_call (id, k) then 1 else 0)
    + List.length (filter DadosEmpresas.is_process_call rest).
Proof.
  assert (P : forall i k0, DadosEmpresas.is_process_call (i, k0)
                           = DadosEmpresas.is_process_call (id, k0))
    by reflexivity.
  revert rest. induction l as [| [i k0] l IH]; intros rest;
    cbn [DadosEmpresas.take fst snd]; [discriminate |].
  destruct (Nat.eqb i id).
  - intros [= <- <-]. cbn [filter]. rewrite (P i k0).
    destruct (DadosEmpresas.is_process_call (id, k0)); reflexivity.
  - destruct (DadosEmpresas.take id l) as [[k1 r1] |]; [| discriminate].
    intros [= <- <-]. cbn [filter]. specialize (IH r1 eq_refl).
    destruct (DadosEmpresas.is_process_call (i, k0)),
      (DadosEmpresas.is_process_call (id, k1)); cbn [List.length] in *; lia.
Qed.

Lemma DadosEmpresas_addLog_isProcessing (timestamp message : string)
    (c : DadosEmpresas.Component) :
  DadosEmpresas.isProcessing (DadosEmpresas.addLog timestamp message c)
  = DadosEmpresas.isProcessing c.
Proof. rewrite DadosEmpresas_addLog_eq. reflexivity. Qed.

Lemma DadosEmpresas_updateSicafData_isProcessing (timestamp : string)
    (processedData : list DadosEmpresas.SicafData) (c : DadosEmpresas.Component) :
  DadosEmpresas.isProcessing
    (DadosEmpresas.updateSicafDataWithProcessedData timestamp processedData c)
  = DadosEmpresas.isProcessing c.
Proof.
  unfold DadosEmpresas.updateSicafDataWithProcessedData. cbv zeta.
  rewrite DadosEmpresas_addLog_isProcessing. reflexivity.
Qed.

Lemma DadosEmpresas_loaded_isProcessing (timestamp : string)
    (propostas : list DadosEmpresas.Proposta) (c : DadosEmpresas.Component) :
  DadosEmpresas.isProcessing
    (DadosEmpresas.onJsonFileSelected_loaded timestamp propostas c)
  = DadosEmpresas.isProcessing c.
Proof.
  unfold DadosEmpresas.onJsonFileSelected_loaded. cbv zeta.
  rewrite DadosEmpresas_addLog_isProcessing. reflexivity.
Qed.

Lemma DadosEmpresas_step_guard (e : DadosEmpresas.Event) (w : DadosEmpresas.World) :
  DadosEmpresas.process_calls_in_flight w
  = (if DadosEmpresas.isProcessing (DadosEmpresas.comp w) then 1 else 0) ->
  DadosEmpresas.process_calls_in_flight (DadosEmpresas.step e w)
  = (if DadosEmpresas.isProcessing (DadosEmpresas.comp (DadosEmpresas.step e w))
     then 1 else 0).
Proof.
  unfold DadosEmpresas.process_calls_in_flight. intros H.
  destruct e as [file | | ts | | id r ts]; simpl.
  - exact H.
  - unfold DadosEmpresas.onJsonFileSelected.
    destruct (negb _); simpl; [exact H |].
    rewrite filter_app, length_app. simpl. lia.
  - unfold DadosEmpresas.processSicafPdfs.
    destruct (DadosEmpresas.isProcessing (DadosEmpresas.comp w)) eqn:P;
      [rewrite P; exact H |].
    simpl. rewrite DadosEmpresas_addLog_isProcessing. simpl.
    rewrite filter_app, length_app, H. reflexivity.
  - exact H.
  - destruct (DadosEmpresas.take id (DadosEmpresas.pending w)) as [[k rest] |] eqn:T;
      [| exact H].
    assert (C := take_count _ _ _ _ T). rewrite H in C.
    destruct (DadosEmpresas.resume ts k r _) as [w' |] eqn:R; [| exact H].
    unfold DadosEmpresas.is_process_call in C at 1. cbn [snd] in C.
    unfold DadosEmpresas.resume in R.
    destruct k, r as [[result | dir | files | [propostas |]] | err];
      try discriminate R; injection R as <-;
      try destruct (DadosEmpresas.r_success result);
      unfold DadosEmpresas.loadPdfCount, DadosEmpresas.invoke, DadosEmpresas.update;
      cbn [DadosEmpresas.pending DadosEmpresas.comp];
      rewrite ?DadosEmpresas_updateSicafData_isProcessing,
        ?DadosEmpresas_loaded_isProcessing, ?DadosEmpresas_addLog_isProcessing;
      unfold DadosEmpresas.set_isProcessing, DadosEmpresas.set_processedCount,
        DadosEmpresas.set_pdfCount;
      cbn [DadosEmpresas.isProcessing];
      rewrite ?filter_app, ?length_app;
      cbn [filter DadosEmpresas.is_process_call snd List.length];
      destruct (DadosEmpresas.isProcessing (DadosEmpresas.comp w)); lia.
Qed.

(** X24. [processSicafPdfs] never runs twice at once: in every run of
    the component, [isProcessing] is set exactly while one
    [process_sicaf_pdfs] call is in flight, and there is never a second
    one, however often the button is pressed and in whatever order the
    calls settle. *)
Theorem processSicafPdfs_runs_one_at_a_time (events : list DadosEmpresas.Event) :
  let w := DadosEmpresas.run events DadosEmpresas.start in
  DadosEmpresas.process_calls_in_flight w
  = (if DadosEmpresas.isProcessing (DadosEmpresas.comp w) then 1 else 0)
  /\ DadosEmpresas.process_calls_in_flight w <= 1
  /\ forall timestamp,
       DadosEmpresas.process_calls_in_flight
         (DadosEmpresas.processSicafPdfs timestamp w) = 1.
Proof.
  cbv zeta.
  assert (G : forall w0,
             DadosEmpresas.process_calls_in_flight w0
             = (if DadosEmpresas.isProcessing (DadosEmpresas.comp w0) then 1 else 0) ->
             DadosEmpresas.process_calls_in_flight (DadosEmpresas.run events w0)
             = (if DadosEmpresas.isProcessing
                     (DadosEmpresas.comp (DadosEmpresas.run events w0))
                then 1 else 0)).
  { unfold DadosEmpresas.run.
    induction events as [| e events IH]; intros w0 H0; [exact H0 |].
    simpl. apply IH, DadosEmpresas_step_guard, H0. }
  assert (H := G DadosEmpresas.start eq_refl).
  set (w := DadosEmpresas.run events DadosEmpresas.start) in *.
  split; [exact H |]. split.
  - rewrite H. destruct (DadosEmpresas.isProcessing _); lia.
  - intros timestamp.
    assert (S := DadosEmpresas_step_guard (DadosEmpresas.E_processSicafPdfs timestamp) w H).
    simpl in S. rewrite S.
    unfold DadosEmpresas.processSicafPdfs.
    destruct (DadosEmpresas.isProcessing (DadosEmpresas.comp w)) eqn:P.
    + rewrite P. reflexivity.
    + simpl. rewrite DadosEmpresas_addLog_isProcessing. reflexivity.
Qed.
